(** * fitLTC: fitting linearly transformed cosines to a reflectance model

    A shallow embedding of [fit/fitLTC.cpp]: the three Monte-Carlo estimators
    ([computeNorm], [computeAverageDir], [computeError]), the objective functor
    [FitLTC], the per-cell [fit], the grid driver [fitTab], the closed-form
    [packTab], and [main] up to its calls of the writers.

    Numbers.  The program computes in C++ [float] (and, inside [computeError],
    [double]).  Every definition below is written once over an interface
    [Scalar] of the arithmetic the source uses, and is then read at two
    instances: [binary32], IEEE-754 single and double precision arithmetic from
    the standard library's [SpecFloat] (with NaN, infinities and signed zeros,
    which is what the compiled program computes, each operation rounded to
    its own format), and [exactZ], exact integer arithmetic, used for the
    algebraic identity behind [packTab].  An [int] is a [Z]: the indices and
    counters of the program stay far below [2^31].

    State.  [fitTab] keeps one lobe for the whole traversal and hands it to
    [fit] and [FitLTC] by reference; here the lobe is threaded through them,
    together with the list of the values [ltc.update()] left in it, and the
    lines written on [cout] are kept as a list of records.

    Code that is part of the repository but not in [fitLTC.cpp] ([LTC.h],
    [nelder_mead.h], the concrete [Brdf] classes) enters as parameters:
    [LobeOps], [NelderMead] and [Brdf]. *)

From Stdlib Require Import ZArith List Bool Lia Ring.
From Stdlib Require Import Floats.SpecFloat.
From stdpp Require Import base list.

Local Open Scope Z_scope.

(** ** The arithmetic interface *)

(** [F] is C++ [float], [D] is C++ [double].  [of_int] is the conversion
    [(float)i]; [acosf], [sinf], [cosf] and [sqrtf] are the C library's. *)
Class Scalar : Type := {
  F : Type;
  D : Type;
  of_int : Z -> F;
  fadd : F -> F -> F;
  fsub : F -> F -> F;
  fmul : F -> F -> F;
  fdiv : F -> F -> F;
  fneg : F -> F;
  fabsf : F -> F;
  fltb : F -> F -> bool;
  sqrtf : F -> F;
  acosf : F -> F;
  sinf : F -> F;
  cosf : F -> F;
  dzero : D;
  dadd : D -> D -> D;
  dmul : D -> D -> D;
  ddiv : D -> D -> D;
  to_double : F -> D;
  to_float : D -> F
}.

Declare Scope fl_scope.
Delimit Scope fl_scope with fl.
Infix "+" := fadd : fl_scope.
Infix "-" := fsub : fl_scope.
Infix "*" := fmul : fl_scope.
Infix "/" := fdiv : fl_scope.
Notation "- x" := (fneg x) : fl_scope.

Section Arithmetic.
Context `{Scalar}.

(** A decimal [float] literal [n/d], e.g. [0.0001f] is [flit 1 10000]: the
    correctly rounded quotient of two exactly representable integers. *)
Definition flit (n d : Z) : F := (of_int n / of_int d)%fl.

(** [std::max<float>(a, b)] is [(a < b) ? b : a]. *)
Definition fmax (a b : F) : F := if fltb a b then b else a.

(** [std::min<float>(a, b)] is [(b < a) ? b : a]. *)
Definition fmin (a b : F) : F := if fltb b a then b else a.
End Arithmetic.

(** ** The part of glm the program uses *)

Section Glm.
Context `{Scalar}.
Local Open Scope fl_scope.

Record vec2 : Type := mkvec2 { v2x : F; v2y : F }.
Record vec3 : Type := mkvec3 { vx : F; vy : F; vz : F }.
Record vec4 : Type := mkvec4 { v4x : F; v4y : F; v4z : F; v4w : F }.

(** [mat3] is column-major: [m[i]] is the i-th column, [m[i][j]] its j-th
    component. *)
Record mat3 : Type := mkmat3 { col0 : vec3; col1 : vec3; col2 : vec3 }.

Definition vec3_zero : vec3 := mkvec3 (of_int 0) (of_int 0) (of_int 0).
Definition mat3_zero : mat3 := mkmat3 vec3_zero vec3_zero vec3_zero.
Definition vec2_zero : vec2 := mkvec2 (of_int 0) (of_int 0).
Definition vec4_zero : vec4 := mkvec4 (of_int 0) (of_int 0) (of_int 0) (of_int 0).

(** [v[j]] *)
Definition vget (v : vec3) (j : Z) : F :=
  match j with 0 => vx v | 1 => vy v | _ => vz v end.

(** [v[j] = x] *)
Definition vset (v : vec3) (j : Z) (x : F) : vec3 :=
  match j with
  | 0 => mkvec3 x (vy v) (vz v)
  | 1 => mkvec3 (vx v) x (vz v)
  | _ => mkvec3 (vx v) (vy v) x
  end.

(** [m[i][j]] *)
Definition mget (m : mat3) (i j : Z) : F :=
  match i with 0 => vget (col0 m) j | 1 => vget (col1 m) j | _ => vget (col2 m) j end.

(** [m[i][j] = x] *)
Definition mset (m : mat3) (i j : Z) (x : F) : mat3 :=
  match i with
  | 0 => mkmat3 (vset (col0 m) j x) (col1 m) (col2 m)
  | 1 => mkmat3 (col0 m) (vset (col1 m) j x) (col2 m)
  | _ => mkmat3 (col0 m) (col1 m) (vset (col2 m) j x)
  end.

(** [a + b] on [vec3] *)
Definition vadd (a b : vec3) : vec3 :=
  mkvec3 (vx a + vx b) (vy a + vy b) (vz a + vz b).

(** [s * v], scalar on the left *)
Definition smul (s : F) (v : vec3) : vec3 :=
  mkvec3 (s * vx v) (s * vy v) (s * vz v).

(** [v * s], scalar on the right *)
Definition vmuls (v : vec3) (s : F) : vec3 :=
  mkvec3 (vx v * s) (vy v * s) (vz v * s).

(** [glm::dot] *)
Definition dot (a b : vec3) : F := vx a * vx b + vy a * vy b + vz a * vz b.

(** [glm::normalize(v)] is [v * inversesqrt(dot(v, v))], and
    [inversesqrt(x)] is [1 / sqrt(x)]. *)
Definition normalize (v : vec3) : vec3 :=
  vmuls v (of_int 1 / sqrtf (dot v v)).
End Glm.

Arguments vec2 {_}.
Arguments vec3 {_}.
Arguments vec4 {_}.
Arguments mat3 {_}.

(** ** IEEE-754 arithmetic: the [binary32] instance *)

Module IEEE.
Definition f32 : Type := spec_float.
Definition f64 : Type := spec_float.

Definition prec32 : Z := 24.
Definition emax32 : Z := 128.
Definition prec64 : Z := 53.
Definition emax64 : Z := 1024.

(** [(float)i] for an integer [i] *)
Definition f32_of_Z (i : Z) : f32 := binary_normalize prec32 emax32 i 0 false.

(** Re-rounding of a float to the format [(prec, emax)]: exact when the
    value is representable there (float to double), round to nearest even
    otherwise (double to float). *)
Definition convert (prec emax : Z) (x : spec_float) : spec_float :=
  match x with
  | S754_finite s m e => binary_normalize prec emax (cond_Zopp s (Zpos m)) e s
  | _ => x
  end.

Definition is_nan (x : spec_float) : bool :=
  match x with S754_nan => true | _ => false end.

Definition is_finite (x : spec_float) : bool :=
  match x with S754_zero _ | S754_finite _ _ _ => true | _ => false end.

Definition is_zero (x : spec_float) : bool :=
  match x with S754_zero _ => true | _ => false end.

(** The C library's [acosf], [sinf] and [cosf] are taken as they come. *)
Record libm : Type := mklibm {
  libm_acosf : f32 -> f32;
  libm_sinf : f32 -> f32;
  libm_cosf : f32 -> f32
}.

Definition binary32 (m : libm) : Scalar := {|
  F := f32;
  D := f64;
  of_int := f32_of_Z;
  fadd := SFadd prec32 emax32;
  fsub := SFsub prec32 emax32;
  fmul := SFmul prec32 emax32;
  fdiv := SFdiv prec32 emax32;
  fneg := SFopp;
  fabsf := SFabs;
  fltb := SFltb;
  sqrtf := SFsqrt prec32 emax32;
  acosf := libm_acosf m;
  sinf := libm_sinf m;
  cosf := libm_cosf m;
  dzero := S754_zero false;
  dadd := SFadd prec64 emax64;
  dmul := SFmul prec64 emax64;
  ddiv := SFdiv prec64 emax64;
  to_double := convert prec64 emax64;
  to_float := convert prec32 emax32
  |}.

(** [x <= y] and [x < y] on floats, as propositions. *)
Definition fle (x y : f32) : Prop := SFleb x y = true.
Definition flt (x y : f32) : Prop := SFltb x y = true.

(** A float that is not negative: its sign bit is clear ([+0], a positive
    number, [+inf]), or it is a NaN. *)
Definition not_negative (x : spec_float) : bool :=
  match x with
  | S754_nan => true
  | S754_zero s | S754_infinity s | S754_finite s _ _ => negb s
  end.
End IEEE.

(** ** Exact integer arithmetic: the [exactZ] instance *)

Definition exactZ : Scalar := {|
  F := Z;
  D := Z;
  of_int := fun i => i;
  fadd := Z.add;
  fsub := Z.sub;
  fmul := Z.mul;
  fdiv := Z.div;
  fneg := Z.opp;
  fabsf := Z.abs;
  fltb := Z.ltb;
  sqrtf := Z.sqrt;
  acosf := fun _ => 0;
  sinf := fun _ => 0;
  cosf := fun _ => 1;
  dzero := 0;
  dadd := Z.add;
  dmul := Z.mul;
  ddiv := Z.div;
  to_double := fun x => x;
  to_float := fun x => x
|}.

(** ** The program *)

Section Program.
Context `{Scalar}.
Local Open Scope fl_scope.

(** *** Constants *)

(** Size of the precomputed table (theta, alpha): [const int N = 64].
    [fitTab] and [packTab] take their own [N]; only [main] passes this one. *)
Definition N_table : Z := 64.

(** Number of samples used to compute the error during fitting. *)
Definition Nsample : Z := 32.

(** Minimal roughness (avoid singularities): [0.0001f]. *)
Definition MIN_ALPHA : F := flit 1 10000.

(** *** Loops *)

(** [0, 1, ..., n-1], the values of [for (int i = 0; i < n; ++i)]. *)
Definition range (n : Z) : list Z := seqZ 0 n.

(** [n-1, ..., 1, 0], the values of [for (int a = n-1; a >= 0; --a)]. *)
Definition down_range (n : Z) : list Z := reverse (seqZ 0 n).

(** A [for] loop over the values [l], threading the variables [s] the body
    assigns. *)
Definition for_each {S : Type} (l : list Z) (body : Z -> S -> S) (s : S) : S :=
  fold_left (fun s i => body i s) l s.

(** *** brdf.h: the reflectance model, an interface *)

(** [sample(V, alpha, U1, U2)] returns a direction; [eval(V, L, alpha, pdf)]
    returns the reflectance and, through [pdf], the density. *)
Record Brdf : Type := mkBrdf {
  brdf_sample : vec3 -> F -> F -> F -> vec3;
  brdf_eval : vec3 -> vec3 -> F -> F * F
}.

(** *** LTC.h: the lobe *)

(** Modelled from the spec: [struct LTC] of LTC.h, which is not among the
    sources.  The fields [amplitude], [m11], [m22], [m13], [X], [Y], [Z] and
    [M] are the ones fitLTC.cpp reads and writes; [derived] stands for the
    "derived inverse matrix" and whatever else the lobe caches. *)
Record LTC {Cache : Type} : Type := mkLTC {
  amplitude : F;
  m11 : F;
  m22 : F;
  m13 : F;
  ltcX : vec3;
  ltcY : vec3;
  ltcZ : vec3;
  ltcM : mat3;
  derived : Cache
}.
Arguments LTC : clear implicits.

Variable Cache : Type.
Abbreviation Ltc := (LTC Cache).

(** Modelled from the spec: the member functions of [LTC].  [update()]
    "recomputes the inverse of the 3x3 transform and any cached scalars" from
    the three free scalars and the frame: [lobe_matrix] and [lobe_derived]
    are what it computes.  [sample(U1, U2)] and [eval(L)] read the lobe. *)
Record LobeOps : Type := mkLobeOps {
  lobe_matrix : F -> F -> F -> vec3 -> vec3 -> vec3 -> mat3;
  lobe_derived : F -> F -> F -> vec3 -> vec3 -> vec3 -> Cache;
  ltc_sample : Ltc -> F -> F -> vec3;
  ltc_eval : Ltc -> vec3 -> F
}.

Variable ops : LobeOps.

(** The variable [ltc] of [fitTab], which [fit] and [FitLTC] hold by
    reference: its current value, and with it the list of the values it had
    right after each call of [ltc.update()], oldest first. *)
Record Lobe : Type := mkLobe {
  ltc : Ltc;
  updates : list Ltc
}.

(** Modelled from the spec: [LTC::update()] recomputes the matrix and the
    derived data, and leaves the free scalars, the frame and the amplitude
    as they are. *)
Definition recompute (l : Ltc) : Ltc :=
  mkLTC Cache (amplitude l) (m11 l) (m22 l) (m13 l) (ltcX l) (ltcY l) (ltcZ l)
    (lobe_matrix ops (m11 l) (m22 l) (m13 l) (ltcX l) (ltcY l) (ltcZ l))
    (lobe_derived ops (m11 l) (m22 l) (m13 l) (ltcX l) (ltcY l) (ltcZ l)).

(** [ltc.update()] *)
Definition ltc_update (s : Lobe) : Lobe :=
  let l := recompute (ltc s) in
  mkLobe l (updates s ++ [l]).

(** Assignments to the fields of [ltc]. *)
Definition set_amplitude (x : F) (l : Ltc) : Ltc :=
  mkLTC Cache x (m11 l) (m22 l) (m13 l) (ltcX l) (ltcY l) (ltcZ l) (ltcM l) (derived l).
Definition set_m11 (x : F) (l : Ltc) : Ltc :=
  mkLTC Cache (amplitude l) x (m22 l) (m13 l) (ltcX l) (ltcY l) (ltcZ l) (ltcM l) (derived l).
Definition set_m22 (x : F) (l : Ltc) : Ltc :=
  mkLTC Cache (amplitude l) (m11 l) x (m13 l) (ltcX l) (ltcY l) (ltcZ l) (ltcM l) (derived l).
Definition set_m13 (x : F) (l : Ltc) : Ltc :=
  mkLTC Cache (amplitude l) (m11 l) (m22 l) x (ltcX l) (ltcY l) (ltcZ l) (ltcM l) (derived l).
Definition set_X (v : vec3) (l : Ltc) : Ltc :=
  mkLTC Cache (amplitude l) (m11 l) (m22 l) (m13 l) v (ltcY l) (ltcZ l) (ltcM l) (derived l).
Definition set_Y (v : vec3) (l : Ltc) : Ltc :=
  mkLTC Cache (amplitude l) (m11 l) (m22 l) (m13 l) (ltcX l) v (ltcZ l) (ltcM l) (derived l).
Definition set_Z (v : vec3) (l : Ltc) : Ltc :=
  mkLTC Cache (amplitude l) (m11 l) (m22 l) (m13 l) (ltcX l) (ltcY l) v (ltcM l) (derived l).

(** [ltc.field = x] on the threaded lobe. *)
Definition assign (f : Ltc -> Ltc) (s : Lobe) : Lobe :=
  mkLobe (f (ltc s)) (updates s).

(** *** nelder_mead.h: the optimizer *)

(** [const float * params], three of them. *)
Record float3 : Type := mkfloat3 { at0 : F; at1 : F; at2 : F }.

(** Modelled from the spec: [NelderMead<3>] of nelder_mead.h, which is not
    among the sources.  "Given an objective function over a length-D
    parameter vector, a starting vector, an initial perturbation size, a
    convergence tolerance, and a maximum iteration count, returns the
    parameter vector minimizing the objective and the corresponding
    objective value", and it stops at the iteration cap at the latest.  So a
    call is a finite tree: it returns [pmin] and the value there, or it asks
    for the objective at a point and goes on with the answer. *)
Inductive NM : Type :=
  | NM_return (pmin : float3) (fmin : F)
  | NM_eval (p : float3) (k : F -> NM).

(** [NelderMead<3>(pmin, start, delta, tolerance, maxIters, objectiveFn)]
    without its objective. *)
Definition Optimizer : Type := float3 -> F -> F -> Z -> NM.

Variable NelderMead : Optimizer.

(** Running the optimizer on an objective that, like [FitLTC], changes the
    lobe each time it is called. *)
Fixpoint NM_run (nm : NM) (objectiveFn : float3 -> Lobe -> F * Lobe) (s : Lobe)
  : float3 * F * Lobe :=
  match nm with
  | NM_return pmin fmin => (pmin, fmin, s)
  | NM_eval p k =>
      let '(e, s') := objectiveFn p s in
      NM_run (k e) objectiveFn s'
  end.

(** *** The estimators *)

(** compute the norm (albedo) of the BRDF *)
Definition computeNorm (brdf : Brdf) (V : vec3) (alpha : F) : F :=
  let norm := to_float dzero in
  let norm :=
    for_each (range Nsample) (fun j norm =>
    for_each (range Nsample) (fun i norm =>
      let U1 := (of_int i + flit 1 2) / of_int Nsample in
      let U2 := (of_int j + flit 1 2) / of_int Nsample in
      (* sample *)
      let L := brdf_sample brdf V alpha U1 U2 in
      (* eval *)
      let '(eval, pdf) := brdf_eval brdf V L alpha in
      (* accumulate *)
      norm + (if fltb (of_int 0) pdf then eval / pdf else of_int 0)) norm) norm in
  norm / of_int (Nsample * Nsample).

(** compute the average direction of the BRDF; the loop alone *)
Definition accumulateDir (brdf : Brdf) (V : vec3) (alpha : F) : vec3 :=
  let averageDir := vec3_zero in
  for_each (range Nsample) (fun j averageDir =>
  for_each (range Nsample) (fun i averageDir =>
    let U1 := (of_int i + flit 1 2) / of_int Nsample in
    let U2 := (of_int j + flit 1 2) / of_int Nsample in
    (* sample *)
    let L := brdf_sample brdf V alpha U1 U2 in
    (* eval *)
    let '(eval, pdf) := brdf_eval brdf V L alpha in
    (* accumulate *)
    vadd averageDir (if fltb (of_int 0) pdf then smul (eval / pdf) L else vec3_zero))
    averageDir) averageDir.

(** compute the average direction of the BRDF *)
Definition computeAverageDir (brdf : Brdf) (V : vec3) (alpha : F) : vec3 :=
  let averageDir := accumulateDir brdf V alpha in
  (* clear y component, which should be zero with isotropic BRDFs *)
  let averageDir := vset averageDir 1 (of_int 0) in
  normalize averageDir.

(** compute the error between the BRDF and the LTC using Multiple Importance
    Sampling; the loop alone, [error] is a [double] *)
Definition accumulateError (l : Ltc) (brdf : Brdf) (V : vec3) (alpha : F) : D :=
  let error := dzero in
  for_each (range Nsample) (fun j error =>
  for_each (range Nsample) (fun i error =>
    let U1 := (of_int i + flit 1 2) / of_int Nsample in
    let U2 := (of_int j + flit 1 2) / of_int Nsample in
    (* importance sample LTC *)
    let error :=
      let L := ltc_sample ops l U1 U2 in
      (* error with MIS weight *)
      let '(eval_brdf, pdf_brdf) := brdf_eval brdf V L alpha in
      let eval_ltc := ltc_eval ops l L in
      let pdf_ltc := eval_ltc / amplitude l in
      let error_ := to_double (fabsf (eval_brdf - eval_ltc)) in
      let error_ := dmul (dmul error_ error_) error_ in
      dadd error (ddiv error_ (to_double (pdf_ltc + pdf_brdf))) in
    (* importance sample BRDF *)
    let error :=
      let L := brdf_sample brdf V alpha U1 U2 in
      (* error with MIS weight *)
      let '(eval_brdf, pdf_brdf) := brdf_eval brdf V L alpha in
      let eval_ltc := ltc_eval ops l L in
      let pdf_ltc := eval_ltc / amplitude l in
      let error_ := to_double (fabsf (eval_brdf - eval_ltc)) in
      let error_ := dmul (dmul error_ error_) error_ in
      dadd error (ddiv error_ (to_double (pdf_ltc + pdf_brdf))) in
    error) error) error.

(** compute the error between the BRDF and the LTC using Multiple Importance
    Sampling *)
Definition computeError (l : Ltc) (brdf : Brdf) (V : vec3) (alpha : F) : F :=
  to_float (accumulateError l brdf V alpha) / of_int (Nsample * Nsample).

(** *** The objective *)

(** [struct FitLTC], but for the reference [ltc], which is the lobe the
    functions below thread. *)
Record FitLTC : Type := mkFitLTC {
  fit_brdf : Brdf;
  isotropic : bool;
  fit_V : vec3;
  fit_alpha : F
}.

(** [FitLTC::update(params)] *)
Definition FitLTC_update (fitter : FitLTC) (params : float3) (s : Lobe) : Lobe :=
  let m11 := fmax (at0 params) MIN_ALPHA in
  let m22 := fmax (at1 params) MIN_ALPHA in
  let m13 := at2 params in
  let s :=
  if isotropic fitter
  then
    let s := assign (set_m11 m11) s in
    let s := assign (set_m22 m11) s in
    assign (set_m13 (of_int 0)) s
  else
    let s := assign (set_m11 m11) s in
    let s := assign (set_m22 m22) s in
    assign (set_m13 m13) s in
  ltc_update s.

(** [FitLTC::operator()(params)] *)
Definition FitLTC_call (fitter : FitLTC) (params : float3) (s : Lobe) : F * Lobe :=
  let s := FitLTC_update fitter params s in
  (computeError (ltc s) (fit_brdf fitter) (fit_V fitter) (fit_alpha fitter), s).

(** fit brute force: refine first guess by exploring parameter space *)
Definition fit (s : Lobe) (brdf : Brdf) (V : vec3) (alpha : F)
    (epsilon : F) (isotropic : bool) : Lobe :=
  let startFit := mkfloat3 (m11 (ltc s)) (m22 (ltc s)) (m13 (ltc s)) in
  let fitter := mkFitLTC brdf isotropic V alpha in
  (* Find best-fit LTC lobe (scale, alphax, alphay) *)
  let '(resultFit, error, s) :=
    NM_run (NelderMead startFit epsilon (flit 1 100000) 100) (FitLTC_call fitter) s in
  (* Update LTC with best fitting values *)
  FitLTC_update fitter resultFit s.
(** *** The table *)

(** [tab[i]] and [tabAmplitude[i]].  The arrays have [N*N] elements and
    every index the program forms is within them; the model reads a zero
    element outside, and [<[i:=x]>] writes nothing there. *)
Definition tab_get (tab : list mat3) (i : Z) : mat3 :=
  default mat3_zero (tab !! Z.to_nat i).
Definition amp_get (tabAmplitude : list vec2) (i : Z) : vec2 :=
  default vec2_zero (tabAmplitude !! Z.to_nat i).

(** [tab[i] = m] *)
Definition tab_store (tab : list mat3) (i : Z) (m : mat3) : list mat3 :=
  <[Z.to_nat i := m]> tab.

(** [tab[i][j][k] = x] *)
Definition tab_set (tab : list mat3) (i j k : Z) (x : F) : list mat3 :=
  <[Z.to_nat i := mset (tab_get tab i) j k x]> tab.

(** [tabAmplitude[i][j] = x] *)
Definition amp_set (tabAmplitude : list vec2) (i j : Z) (x : F) : list vec2 :=
  let v := amp_get tabAmplitude i in
  <[Z.to_nat i := match j with 0 => mkvec2 x (v2y v) | _ => mkvec2 (v2x v) x end]>
    tabAmplitude.

(** What the driver did in one cell: the four numbers it prints on [cout]
    first ([a], [t], [alpha], [theta]), the view direction and the average
    direction it computed, the lobe as first guessed and the flag handed to
    [fit], the lobe as fitted, and the cell as stored (and printed). *)
Record CellLog : Type := mkCellLog {
  log_a : Z;
  log_t : Z;
  log_alpha : F;
  log_theta : F;
  log_V : vec3;
  log_averageDir : vec3;
  log_guess : Ltc;
  log_isotropic : bool;
  log_fit : Ltc;
  log_stored : mat3
}.

(** The variables of [fitTab]: the lobe, the two arrays, and [cout]. *)
Record Run : Type := mkRun {
  run_lobe : Lobe;
  run_tab : list mat3;
  run_tabAmplitude : list vec2;
  run_cout : list CellLog
}.

(** 1. first guess for the fit *)
Definition first_guess (N a t : Z) (averageDir : vec3) (tab : list mat3) (s : Lobe)
  : Lobe * bool :=
  (* init the hemisphere in which the distribution is fitted
     if theta == 0 the lobe is rotationally symmetric and aligned with Z = (0 0 1) *)
  if (t =? N - 1)%Z then
    let s := assign (set_X (mkvec3 (of_int 1) (of_int 0) (of_int 0))) s in
    let s := assign (set_Y (mkvec3 (of_int 0) (of_int 1) (of_int 0))) s in
    let s := assign (set_Z (mkvec3 (of_int 0) (of_int 0) (of_int 1))) s in
    let s :=
      if (a =? N - 1)%Z then (* roughness = 1 *)
        let s := assign (set_m11 (of_int 1)) s in
        assign (set_m22 (of_int 1)) s
      else (* init with roughness of previous fit *)
        let s := assign (set_m11 (fmax (mget (tab_get tab (a + 1 + t * N)) 0 0) MIN_ALPHA)) s in
        assign (set_m22 (fmax (mget (tab_get tab (a + 1 + t * N)) 1 1) MIN_ALPHA)) s in
    let s := assign (set_m13 (of_int 0)) s in
    let s := ltc_update s in
    (s, true)
  (* otherwise use previous configuration as first guess *)
  else
    let L := averageDir in
    let T1 := mkvec3 (vz L) (of_int 0) (- vx L) in
    let T2 := mkvec3 (of_int 0) (of_int 1) (of_int 0) in
    let s := assign (set_X T1) s in
    let s := assign (set_Y T2) s in
    let s := assign (set_Z L) s in
    let s := ltc_update s in
    (s, false).

(** The body of the two loops of [fitTab]. *)
Definition fitTab_cell (N : Z) (brdf : Brdf) (a t : Z) (r : Run) : Run :=
  (* parameterised by cos(theta) *)
  let ct := of_int t / of_int (N - 1) in
  let theta := fmin (flit 157 100) (acosf ct) in
  let V := mkvec3 (sinf theta) (of_int 0) (cosf theta) in
  (* alpha = roughness^2 *)
  let roughness := of_int a / of_int (N - 1) in
  let alpha := fmax (roughness * roughness) MIN_ALPHA in
  let s := assign (set_amplitude (computeNorm brdf V alpha)) (run_lobe r) in
  let averageDir := computeAverageDir brdf V alpha in
  (* 1. first guess for the fit *)
  let '(s, isotropic) := first_guess N a t averageDir (run_tab r) s in
  let guess := ltc s in
  (* 2. fit (explore parameter space and refine first guess) *)
  let epsilon := flit 5 100 in
  let s := fit s brdf V alpha epsilon isotropic in
  (* copy data *)
  let tab := tab_store (run_tab r) (a + t * N) (ltcM (ltc s)) in
  let tabAmplitude := amp_set (run_tabAmplitude r) (a + t * N) 0 (amplitude (ltc s)) in
  let tabAmplitude := amp_set tabAmplitude (a + t * N) 1 (of_int 0) in
  (* kill useless coefs in matrix *)
  let tab := tab_set tab (a + t * N) 0 1 (of_int 0) in
  let tab := tab_set tab (a + t * N) 1 0 (of_int 0) in
  let tab := tab_set tab (a + t * N) 2 1 (of_int 0) in
  let tab := tab_set tab (a + t * N) 1 2 (of_int 0) in
  mkRun s tab tabAmplitude
    (run_cout r ++
     [mkCellLog a t alpha theta V averageDir guess isotropic (ltc s)
        (tab_get tab (a + t * N))]).

(** fit data.  [ltc0] is the lobe [LTC ltc;] as its constructor leaves it. *)
Definition fitTab (tab : list mat3) (tabAmplitude : list vec2) (N : Z) (brdf : Brdf)
    (ltc0 : Ltc) : Run :=
  (* loop over theta and alpha *)
  for_each (down_range N) (fun a r =>
  for_each (down_range N) (fun t r =>
    fitTab_cell N brdf a t r) r)
  (mkRun (mkLobe ltc0 []) tab tabAmplitude []).

(** [packTab]: the body of its loop, then the loop. *)
Definition packTab_cell (tab : list mat3) (tabAmplitude : list vec2) (i : Z)
    (tex : list vec4 * list vec2) : list vec4 * list vec2 :=
  let m := tab_get tab i in
  let a := mget m 0 0 in
  let b := mget m 0 2 in
  let c := mget m 1 1 in
  let d := mget m 2 0 in
  let e := mget m 2 2 in
  (* rescaled inverse of m:
     a 0 b   inverse  c*e     0     -b*c
     0 c 0     ==>     0  a*e - b*d   0
     d 0 e           -c*d     0      a*c *)
  let t0 := c * e in
  let t1 := - b * c in
  let t2 := a * e - b * d in
  let t3 := - c * d in
  let t4 := a * c in
  (* store the variable terms *)
  (<[Z.to_nat i := mkvec4 t0 t1 t2 t3]> (fst tex),
   <[Z.to_nat i := mkvec2 t4 (v2x (amp_get tabAmplitude i))]> (snd tex)).

Definition packTab (tex1 : list vec4) (tex2 : list vec2)
    (tab : list mat3) (tabAmplitude : list vec2) (N : Z) : list vec4 * list vec2 :=
  for_each (range (N * N)) (packTab_cell tab tabAmplitude) (tex1, tex2).

(** [main], up to the export.  [brdf] is the model [main] declares, [tab],
    [tabAmplitude], [tex1] and [tex2] are the four arrays as [new] returns
    them, [ltc0] is the lobe of [fitTab].  The writers of export.h and plot.h
    are not among the sources; the result is what [main] hands them: the
    variables of [fitTab] when it returns (the two tables and [cout]), the
    two textures, and the exit status 0. *)
Definition main (brdf : Brdf) (ltc0 : Ltc) (tab : list mat3) (tabAmplitude : list vec2)
    (tex1 : list vec4) (tex2 : list vec2) : Run * (list vec4 * list vec2) * Z :=
  (* fit *)
  let r := fitTab tab tabAmplitude N_table brdf ltc0 in
  (* pack tables (texture representation) *)
  let tex := packTab tex1 tex2 (run_tab r) (run_tabAmplitude r) N_table in
  (r, tex, 0%Z).
End Program.

Arguments LTC {_} Cache.
Arguments mkLTC {_ _}.
Arguments Lobe {_} Cache.
Arguments mkLobe {_ _}.
Arguments ltc {_ _}.
Arguments updates {_ _}.
Arguments LobeOps {_} Cache.
Arguments mkLobeOps {_ _}.
Arguments lobe_matrix {_ _}.
Arguments lobe_derived {_ _}.
Arguments ltc_sample {_ _}.
Arguments ltc_eval {_ _}.
Arguments recompute {_ _}.
Arguments ltc_update {_ _}.
Arguments set_amplitude {_ _}.
Arguments set_m11 {_ _}.
Arguments set_m22 {_ _}.
Arguments set_m13 {_ _}.
Arguments set_X {_ _}.
Arguments set_Y {_ _}.
Arguments set_Z {_ _}.
Arguments assign {_ _}.
Arguments NM_run {_ _}.
Arguments accumulateError {_ _}.
Arguments computeError {_ _}.
Arguments FitLTC_update {_ _}.
Arguments FitLTC_call {_ _}.
Arguments fit {_ _}.
Arguments CellLog {_} Cache.
Arguments mkCellLog {_ _}.
Arguments log_a {_ _}.
Arguments log_t {_ _}.
Arguments log_alpha {_ _}.
Arguments log_theta {_ _}.
Arguments log_V {_ _}.
Arguments log_averageDir {_ _}.
Arguments log_guess {_ _}.
Arguments log_isotropic {_ _}.
Arguments log_fit {_ _}.
Arguments log_stored {_ _}.
Arguments Run {_} Cache.
Arguments mkRun {_ _}.
Arguments run_lobe {_ _}.
Arguments run_tab {_ _}.
Arguments run_tabAmplitude {_ _}.
Arguments run_cout {_ _}.
Arguments first_guess {_ _}.
Arguments fitTab_cell {_ _}.
Arguments fitTab {_ _}.
Arguments main {_ _}.

(** ** What the statements below speak of *)

Section Vocabulary.
Context `{Scalar}.
Context {Cache : Type}.
Variable ops : LobeOps Cache.
Local Open Scope fl_scope.

(** The centre of cell [(i, j)] of the stratified [Nsample] x [Nsample] grid:
    [((i+0.5)/Nsample, (j+0.5)/Nsample)]. *)
Definition cell_center (i j : Z) : F * F :=
  ((of_int i + flit 1 2) / of_int Nsample, (of_int j + flit 1 2) / of_int Nsample).

(** All the cell centres, in the order the loops visit them. *)
Definition stratified_grid : list (F * F) :=
  flat_map (fun j => map (fun i => cell_center i j) (range Nsample)) (range Nsample).

(** Sums, added up from the left as a loop does. *)
Definition fsum (init : F) (l : list F) : F := fold_left fadd l init.
Definition vsum (init : vec3) (l : list vec3) : vec3 := fold_left vadd l init.
Definition dsum (init : D) (l : list D) : D := fold_left dadd l init.

(** What one sample adds to the norm: [eval/pdf] when the density is strictly
    positive, zero otherwise. *)
Definition norm_contribution (brdf : Brdf) (V : vec3) (alpha : F) (u : F * F) : F :=
  let L := brdf_sample brdf V alpha (fst u) (snd u) in
  if fltb (of_int 0) (snd (brdf_eval brdf V L alpha))
  then fst (brdf_eval brdf V L alpha) / snd (brdf_eval brdf V L alpha)
  else of_int 0.

(** What one sample adds to the average direction: the direction weighted by
    [eval/pdf] when the density is strictly positive, the zero vector
    otherwise. *)
Definition dir_contribution (brdf : Brdf) (V : vec3) (alpha : F) (u : F * F) : vec3 :=
  let L := brdf_sample brdf V alpha (fst u) (snd u) in
  if fltb (of_int 0) (snd (brdf_eval brdf V L alpha))
  then smul (fst (brdf_eval brdf V L alpha) / snd (brdf_eval brdf V L alpha)) L
  else vec3_zero.

(** The two densities of a direction [L]: the lobe's, [eval_ltc / amplitude],
    and the model's. *)
Definition pdf_ltc_at (l : LTC Cache) (L : vec3) : F := ltc_eval ops l L / amplitude l.
Definition pdf_brdf_at (brdf : Brdf) (V : vec3) (alpha : F) (L : vec3) : F :=
  snd (brdf_eval brdf V L alpha).

(** What one drawn direction [L] adds to the error: the absolute difference
    between the model's reflectance and the lobe's value, cubed, divided by
    the sum of the two densities. *)
Definition mis_contribution (l : LTC Cache) (brdf : Brdf) (V : vec3) (alpha : F)
    (L : vec3) : D :=
  let difference := to_double (fabsf (fst (brdf_eval brdf V L alpha) - ltc_eval ops l L)) in
  ddiv (dmul (dmul difference difference) difference)
       (to_double (pdf_ltc_at l L + pdf_brdf_at brdf V alpha L)).

(** The directions drawn for the stratified pair [u]: one from the lobe, one
    from the model. *)
Definition drawn_directions (l : LTC Cache) (brdf : Brdf) (V : vec3) (alpha : F)
    (u : F * F) : list vec3 :=
  [ltc_sample ops l (fst u) (snd u); brdf_sample brdf V alpha (fst u) (snd u)].

(** All the contributions to the error, both strategies, all pairs. *)
Definition error_contributions (l : LTC Cache) (brdf : Brdf) (V : vec3) (alpha : F)
  : list D :=
  flat_map (fun u => map (mis_contribution l brdf V alpha) (drawn_directions l brdf V alpha u))
    stratified_grid.

(** Two reflectance models that sample alike at the cell centres of the
    stratified grid, and evaluate alike everywhere. *)
Definition same_on_grid (brdf brdf' : Brdf) : Prop :=
  (forall (V : vec3) (alpha : F) (u : F * F),
     In u stratified_grid ->
     brdf_sample brdf V alpha (fst u) (snd u) = brdf_sample brdf' V alpha (fst u) (snd u)) /\
  (forall (V L : vec3) (alpha : F), brdf_eval brdf V L alpha = brdf_eval brdf' V L alpha).

(** The mean of a list of contributions: their sum over their number. *)
Definition mean_contribution (l : list D) : F :=
  to_float (dsum dzero l) / of_int (Z.of_nat (length l)).
End Vocabulary.

(** ** What the statements about the driver speak of *)

Section Driver.
Context `{Scalar}.
Context {Cache : Type}.
Variable ops : LobeOps Cache.
Variable NelderMead : Optimizer.
Local Open Scope fl_scope.

(** The cells in the order [fitTab] visits them: [a] from [N-1] down to 0 and,
    for each [a], [t] from [N-1] down to 0. *)
Definition cells (N : Z) : list (Z * Z) :=
  flat_map (fun a => map (fun t => (a, t)) (down_range N)) (down_range N).

(** The number of cells visited before the cell [(a, t)]. *)
Definition cell_index (N a t : Z) : nat := Z.to_nat ((N - 1 - a) * N + (N - 1 - t)).

(** The variables of [fitTab] when it enters its loops. *)
Definition fitTab_start (tab : list mat3) (tabAmplitude : list vec2) (ltc0 : LTC Cache)
  : Run Cache :=
  mkRun (mkLobe ltc0 []) tab tabAmplitude [].

(** The loop body run over a list of cells. *)
Definition fitTab_cells (N : Z) (brdf : Brdf) (cs : list (Z * Z)) (r : Run Cache)
  : Run Cache :=
  fold_left (fun r c => fitTab_cell ops NelderMead N brdf (fst c) (snd c) r) cs r.

(** The variables of [fitTab] when [k] cells are done. *)
Definition fitTab_upto (tab : list mat3) (tabAmplitude : list vec2) (N : Z) (brdf : Brdf)
    (ltc0 : LTC Cache) (k : nat) : Run Cache :=
  fitTab_cells N brdf (take k (cells N)) (fitTab_start tab tabAmplitude ltc0).

(** A property of every parameter vector an optimizer call evaluates or
    returns, whatever the objective answers. *)
Fixpoint NM_all (P : float3 -> Prop) (nm : NM) : Prop :=
  match nm with
  | NM_return pmin _ => P pmin
  | NM_eval p k => P p /\ forall e, NM_all P (k e)
  end.

(** The identity orientation: [X = (1,0,0)], [Y = (0,1,0)], [Z = (0,0,1)]. *)
Definition identity_frame (l : LTC Cache) : Prop :=
  ltcX l = mkvec3 (of_int 1) (of_int 0) (of_int 0) /\
  ltcY l = mkvec3 (of_int 0) (of_int 1) (of_int 0) /\
  ltcZ l = mkvec3 (of_int 0) (of_int 0) (of_int 1).

(** The frame built around the direction [L]: [X = (L.z, 0, -L.x)],
    [Y = (0,1,0)], [Z = L]. *)
Definition frame_around (L : vec3) (l : LTC Cache) : Prop :=
  ltcX l = mkvec3 (vz L) (of_int 0) (- vx L) /\
  ltcY l = mkvec3 (of_int 0) (of_int 1) (of_int 0) /\
  ltcZ l = L.

Definition same_frame (l l' : LTC Cache) : Prop :=
  ltcX l = ltcX l' /\ ltcY l = ltcY l' /\ ltcZ l = ltcZ l'.

Definition same_scalars (l l' : LTC Cache) : Prop :=
  m11 l = m11 l' /\ m22 l = m22 l' /\ m13 l = m13 l'.

(** The matrix and the derived data are those of the scalars and the frame:
    the lobe is as [update()] leaves it. *)
Definition up_to_date (l : LTC Cache) : Prop := recompute ops l = l.

(** Modelled from the spec: [LTC::update()] of LTC.h builds the matrix from
    "three free scalars (two diagonal scale factors, one skew factor) plus a
    fixed orthonormal frame".  Said of one pair of scales [a], [b]: the
    matrix [update()] makes of them in the identity frame and without skew
    has [a] at [0][0] and [b] at [1][1]. *)
Definition diagonal_scales (a b : F) : Prop :=
  let M := lobe_matrix ops a b (of_int 0)
             (mkvec3 (of_int 1) (of_int 0) (of_int 0))
             (mkvec3 (of_int 0) (of_int 1) (of_int 0))
             (mkvec3 (of_int 0) (of_int 0) (of_int 1)) in
  mget M 0 0 = a /\ mget M 1 1 = b.

(** The isotropic sub-case: equal scales, no skew. *)
Definition isotropic_lobe (l : LTC Cache) : Prop :=
  m22 l = m11 l /\ m13 l = of_int 0.

(** A matrix with the four entries [0][1], [1][0], [2][1], [1][2] cleared. *)
Definition kill_useless (m : mat3) : mat3 :=
  mset (mset (mset (mset m 0 1 (of_int 0)) 1 0 (of_int 0)) 2 1 (of_int 0)) 1 2 (of_int 0).

(** The view angle, the view direction and the roughness of a cell:
    [theta = min(1.57, acos(t/(N-1)))], [V = (sin theta, 0, cos theta)],
    [alpha = max((a/(N-1))^2, MIN_ALPHA)]. *)
Definition cell_theta (N t : Z) : F :=
  fmin (flit 157 100) (acosf (of_int t / of_int (N - 1))).
Definition cell_V (N t : Z) : vec3 :=
  mkvec3 (sinf (cell_theta N t)) (of_int 0) (cosf (cell_theta N t)).
Definition cell_alpha (N a : Z) : F :=
  fmax ((of_int a / of_int (N - 1)) * (of_int a / of_int (N - 1))) MIN_ALPHA.
End Driver.

(** ** What the statements about floats speak of *)

Section FloatVocabulary.
Import IEEE.
Variable lm : libm.
Let float32 : Scalar := binary32 lm.
Context {Cache : Type}.

(** Both scale factors of the lobe are at least [MIN_ALPHA]. *)
Definition scales_floored (l : @LTC float32 Cache) : Prop :=
  fle (@MIN_ALPHA float32) (m11 l) /\ fle (@MIN_ALPHA float32) (m22 l).


End FloatVocabulary.



(** ** Matrices, for the statement about [packTab] *)

Section Matrices.
Context `{Scalar}.
Local Open Scope fl_scope.

(** [glm]'s product of two matrices: column [i] of [m1 * m2] is [m1] applied to
    column [i] of [m2]. *)
Definition mat3_mul (m1 m2 : mat3) : mat3 :=
  let column (i : Z) :=
    mkvec3
      (mget m1 0 0 * mget m2 i 0 + mget m1 1 0 * mget m2 i 1 + mget m1 2 0 * mget m2 i 2)
      (mget m1 0 1 * mget m2 i 0 + mget m1 1 1 * mget m2 i 1 + mget m1 2 1 * mget m2 i 2)
      (mget m1 0 2 * mget m2 i 0 + mget m1 1 2 * mget m2 i 1 + mget m1 2 2 * mget m2 i 2) in
  mkmat3 (column 0%Z) (column 1%Z) (column 2%Z).

(** [glm::determinant] *)
Definition determinant (m : mat3) : F :=
  mget m 0 0 * (mget m 1 1 * mget m 2 2 - mget m 2 1 * mget m 1 2)
  - mget m 1 0 * (mget m 0 1 * mget m 2 2 - mget m 2 1 * mget m 0 2)
  + mget m 2 0 * (mget m 0 1 * mget m 1 2 - mget m 1 1 * mget m 0 2).

(** The adjugate of [m]: the transposed matrix of cofactors. *)
Definition adjugate (m : mat3) : mat3 :=
  mkmat3
    (mkvec3 (mget m 1 1 * mget m 2 2 - mget m 2 1 * mget m 1 2)
            (- (mget m 0 1 * mget m 2 2 - mget m 2 1 * mget m 0 2))
            (mget m 0 1 * mget m 1 2 - mget m 1 1 * mget m 0 2))
    (mkvec3 (- (mget m 1 0 * mget m 2 2 - mget m 2 0 * mget m 1 2))
            (mget m 0 0 * mget m 2 2 - mget m 2 0 * mget m 0 2)
            (- (mget m 0 0 * mget m 1 2 - mget m 1 0 * mget m 0 2)))
    (mkvec3 (mget m 1 0 * mget m 2 1 - mget m 2 0 * mget m 1 1)
            (- (mget m 0 0 * mget m 2 1 - mget m 2 0 * mget m 0 1))
            (mget m 0 0 * mget m 1 1 - mget m 1 0 * mget m 0 1)).

(** [s] times the identity. *)
Definition scalar_matrix (s : F) : mat3 :=
  mkmat3 (mkvec3 s (of_int 0) (of_int 0))
         (mkvec3 (of_int 0) s (of_int 0))
         (mkvec3 (of_int 0) (of_int 0) s).

(** The matrix a renderer rebuilds from the five packed terms, laid out as in
    the comment of [packTab]: [t0] at [0][0], [t1] at [0][2], [t2] at [1][1],
    [t3] at [2][0], [t4] at [2][2], zero elsewhere. *)
Definition reconstruct (tex1 : vec4) (tex2 : vec2) : mat3 :=
  mkmat3 (mkvec3 (v4x tex1) (of_int 0) (v4y tex1))
         (mkvec3 (of_int 0) (v4z tex1) (of_int 0))
         (mkvec3 (v4w tex1) (of_int 0) (v2x tex2)).

(** The five terms of the rescaled inverse of
    [(a 0 b / 0 c 0 / d 0 e)]: [t0 = c*e], [t1 = -b*c], [t2 = a*e - b*d],
    [t3 = -c*d], [t4 = a*c], the first four as a texel. *)
Definition inverse_terms (m : mat3) : vec4 * F :=
  let a := mget m 0 0 in
  let b := mget m 0 2 in
  let c := mget m 1 1 in
  let d := mget m 2 0 in
  let e := mget m 2 2 in
  (mkvec4 (c * e) (- b * c) (a * e - b * d) (- c * d), a * c).

(** The four entries [fitTab] clears are zero. *)
Definition sparse (m : mat3) : Prop :=
  mget m 0 1 = of_int 0 /\ mget m 1 0 = of_int 0 /\
  mget m 2 1 = of_int 0 /\ mget m 1 2 = of_int 0.
End Matrices.

(** ** Concrete inputs, for the examples *)

Module Demo.
Import IEEE.

(** Stand-ins for the C library, exact at the two ends: [acosf 1 = 0],
    [acosf 0 = 1.5707964f] (NaN elsewhere), a cubic [sinf] and a quadratic
    [cosf]. *)
Definition acosf_ends (x : f32) : f32 :=
  if SFeqb x (f32_of_Z 1) then S754_zero false
  else if SFeqb x (f32_of_Z 0) then S754_finite false 13176795 (-23)
  else S754_nan.
Definition sinf_cubic (x : f32) : f32 :=
  SFsub prec32 emax32 x
    (SFdiv prec32 emax32 (SFmul prec32 emax32 (SFmul prec32 emax32 x x) x) (f32_of_Z 6)).
Definition cosf_quadratic (x : f32) : f32 :=
  SFsub prec32 emax32 (f32_of_Z 1)
    (SFdiv prec32 emax32 (SFmul prec32 emax32 x x) (f32_of_Z 2)).

Definition libm0 : libm := mklibm acosf_ends sinf_cubic cosf_quadratic.

#[export] Instance float_arith : Scalar := binary32 libm0.

(** A reflectance model with constant reflectance 2 and constant density
    1/2, sampled at [(U1, U2, 1)]. *)
Definition flat_brdf : Brdf :=
  mkBrdf (fun V alpha U1 U2 => mkvec3 U1 U2 (of_int 1))
         (fun V L alpha => (of_int 2, flit 1 2)).

(** A reflectance model with constant reflectance 1 and constant density
    1/2, sampled at [(U1, U2, 1)]: the lobe of [flat_ops] evaluates to the
    same 1. *)
Definition matched_brdf : Brdf :=
  mkBrdf (fun V alpha U1 U2 => mkvec3 U1 U2 (of_int 1))
         (fun V L alpha => (of_int 1, flit 1 2)).

(** A reflectance model whose density vanishes everywhere. *)
Definition dark_brdf : Brdf :=
  mkBrdf (fun V alpha U1 U2 => mkvec3 U1 U2 (of_int 1))
         (fun V L alpha => (of_int 0, of_int 0)).

(** A lobe that keeps the matrix [(m11 0 0 / 0 m22 0 / m13 0 1)] whatever its
    frame, caches nothing, samples at [(U1, U2, 1)] and evaluates to 1. *)
Definition flat_ops : LobeOps unit :=
  mkLobeOps
    (fun m11 m22 m13 X Y Z =>
       mkmat3 (mkvec3 m11 (of_int 0) (of_int 0))
              (mkvec3 (of_int 0) m22 (of_int 0))
              (mkvec3 m13 (of_int 0) (of_int 1)))
    (fun _ _ _ _ _ _ => tt)
    (fun l U1 U2 => mkvec3 U1 U2 (of_int 1))
    (fun l L => of_int 1).

(** A lobe whose matrix is the product, in [float], of the frame [(X Y Z)]
    and [(m11 0 0 / 0 m22 0 / m13 0 1)]; it samples and evaluates as
    [flat_ops]. *)
Definition product_ops : LobeOps unit :=
  mkLobeOps
    (fun m11 m22 m13 X Y Z =>
       mat3_mul (mkmat3 X Y Z)
         (mkmat3 (mkvec3 m11 (of_int 0) (of_int 0))
                 (mkvec3 (of_int 0) m22 (of_int 0))
                 (mkvec3 m13 (of_int 0) (of_int 1))))
    (fun _ _ _ _ _ _ => tt)
    (fun l U1 U2 => mkvec3 U1 U2 (of_int 1))
    (fun l L => of_int 1).

(** A lobe that evaluates to 0 everywhere. *)
Definition dark_ops : LobeOps unit :=
  mkLobeOps (lobe_matrix flat_ops) (lobe_derived flat_ops) (ltc_sample flat_ops)
    (fun l L => of_int 0).

(** An optimizer that evaluates the objective at the start and returns the
    start. *)
Definition one_probe : Optimizer :=
  fun start delta tolerance maxIters => NM_eval start (fun e => NM_return start e).


(** The lobe with the given amplitude, unit scales, no skew, the identity
    frame and the identity matrix. *)
Definition unit_lobe (amplitude : f32) : LTC unit :=
  mkLTC amplitude (of_int 1) (of_int 1) (of_int 0)
    (mkvec3 (of_int 1) (of_int 0) (of_int 0))
    (mkvec3 (of_int 0) (of_int 1) (of_int 0))
    (mkvec3 (of_int 0) (of_int 0) (of_int 1))
    (mkmat3 (mkvec3 (of_int 1) (of_int 0) (of_int 0))
            (mkvec3 (of_int 0) (of_int 1) (of_int 0))
            (mkvec3 (of_int 0) (of_int 0) (of_int 1)))
    tt.

(** The view direction along the normal. *)
Definition V_normal : vec3 := mkvec3 (of_int 0) (of_int 0) (of_int 1).

(** Arrays for a 2 x 2 table and for a 1 x 1 table, zeroed; arrays for a
    2 x 2 table holding something else. *)
Definition tab4 : list mat3 := repeat mat3_zero 4.
Definition amp4 : list vec2 := repeat vec2_zero 4.
Definition tab1 : list mat3 := [mat3_zero].
Definition amp1 : list vec2 := [vec2_zero].
Definition tab4' : list mat3 := repeat (scalar_matrix (of_int 7)) 4.
Definition amp4' : list vec2 := repeat (mkvec2 (of_int 3) (of_int 5)) 4.

(** A matrix with the four cleared entries, in [float]:
    [(0.3 0 0.1 / 0 0.7 0 / 0.2 0 0.9)]. *)
Definition rounded_example : mat3 :=
  mkmat3 (mkvec3 (flit 3 10) (of_int 0) (flit 1 10))
         (mkvec3 (of_int 0) (flit 7 10) (of_int 0))
         (mkvec3 (flit 2 10) (of_int 0) (flit 9 10)).

(** Arrays of [n] elements, zeroed, and arrays of [n] elements holding
    something else. *)
Definition zeroed (n : nat) : list mat3 * list vec2 * list vec4 * list vec2 :=
  (repeat mat3_zero n, repeat vec2_zero n, repeat vec4_zero n, repeat vec2_zero n).
Definition stale (n : nat) : list mat3 * list vec2 * list vec4 * list vec2 :=
  (repeat (scalar_matrix (of_int 7)) n, repeat (mkvec2 (of_int 3) (of_int 5)) n,
   repeat (mkvec4 (of_int 1) (of_int 2) (of_int 3) (of_int 4)) n,
   repeat (mkvec2 (of_int 6) (of_int 8)) n).
End Demo.

(** A sparse integer matrix [(2 0 3 / 0 5 0 / 7 0 11)], and an amplitude. *)
Definition sparse_example : @mat3 exactZ :=
  @mkmat3 exactZ (@mkvec3 exactZ 2 0 3) (@mkvec3 exactZ 0 5 0) (@mkvec3 exactZ 7 0 11).
Definition amplitude_example : @vec2 exactZ := @mkvec2 exactZ 13 0.

(** The same with other numbers in the entries and in the component that
    [packTab] does not read: [(2 9 3 / 8 5 6 / 7 4 11)] and [(13, 1)]. *)
Definition dense_example : @mat3 exactZ :=
  @mkmat3 exactZ (@mkvec3 exactZ 2 9 3) (@mkvec3 exactZ 8 5 6) (@mkvec3 exactZ 7 4 11).
Definition amplitude_example' : @vec2 exactZ := @mkvec2 exactZ 13 1.

(** ** Loops *)

Section Loops.
Context {S A : Type}.

Lemma for_each_nil (body : Z -> S -> S) (s : S) : for_each [] body s = s.
Proof. reflexivity. Qed.

Lemma for_each_app (l1 l2 : list Z) (body : Z -> S -> S) (s : S) :
  for_each (l1 ++ l2) body s = for_each l2 body (for_each l1 body s).
Proof. unfold for_each. apply fold_left_app. Qed.

Lemma for_each_cons (i : Z) (l : list Z) (body : Z -> S -> S) (s : S) :
  for_each (i :: l) body s = for_each l body (body i s).
Proof. reflexivity. Qed.

(** Two nested loops visit the points [pt i j], the inner index running
    fastest. *)
Lemma for_each_nested (l1 l2 : list Z) (pt : Z -> Z -> A) (step : A -> S -> S) (s : S) :
  for_each l1 (fun j s => for_each l2 (fun i s => step (pt i j) s) s) s =
  fold_left (fun s u => step u s) (flat_map (fun j => map (fun i => pt i j) l2) l1) s.
Proof.
  revert s. induction l1 as [|j l1 IH]; intros s; [reflexivity|].
  rewrite for_each_cons, IH. cbn [flat_map]. rewrite fold_left_app. f_equal.
  clear IH. revert s. induction l2 as [|i l2 IH2]; intros s; [reflexivity|].
  rewrite for_each_cons. cbn [map fold_left]. apply IH2.
Qed.

Lemma for_each_ext (l : list Z) (f g : Z -> S -> S) (s : S) :
  (forall i s, f i s = g i s) -> for_each l f s = for_each l g s.
Proof.
  intros E. revert s. induction l as [|i l IH]; intros s; [reflexivity|].
  rewrite !for_each_cons, E. apply IH.
Qed.
End Loops.

Lemma fold_left_add_map {S A : Type} (add : S -> S -> S) (c : A -> S) (l : list A) (s : S) :
  fold_left (fun s u => add s (c u)) l s = fold_left add (map c l) s.
Proof. revert s. induction l as [|u l IH]; intros s; [reflexivity|]. cbn. apply IH. Qed.

(** ** The estimators *)

Section Estimators.
Context `{Scalar}.
Context {Cache : Type}.
Variable ops : LobeOps Cache.
Local Open Scope fl_scope.

Lemma length_range (n : Z) : length (range n) = Z.to_nat n.
Proof. unfold range. apply length_seqZ. Qed.

Lemma length_stratified_grid :
  length stratified_grid = Z.to_nat (Nsample * Nsample).
Proof.
  unfold stratified_grid.
  assert (forall (l1 l2 : list Z),
    length (flat_map (fun j => map (fun i => cell_center i j) l2) l1) =
    (length l1 * length l2)%nat) as E.
  { intros l1 l2. induction l1 as [|j l1 IH]; [reflexivity|].
    cbn [flat_map]. rewrite length_app, length_map, IH. cbn. lia. }
  rewrite E, length_range. reflexivity.
Qed.

Lemma computeNorm_sum (brdf : Brdf) (V : vec3) (alpha : F) :
  computeNorm brdf V alpha =
  fsum (to_float dzero) (map (norm_contribution brdf V alpha) stratified_grid)
  / of_int (Nsample * Nsample).
Proof.
  unfold computeNorm, fsum, stratified_grid. f_equal.
  rewrite <- fold_left_add_map.
  rewrite <- (for_each_nested (range Nsample) (range Nsample) cell_center
               (fun u s => s + norm_contribution brdf V alpha u)).
  apply for_each_ext; intros j s. apply for_each_ext; intros i s'.
  unfold norm_contribution, cell_center. cbn [fst snd].
  destruct (brdf_eval brdf V _ alpha) as [eval pdf]. reflexivity.
Qed.

Lemma accumulateDir_sum (brdf : Brdf) (V : vec3) (alpha : F) :
  accumulateDir brdf V alpha =
  vsum vec3_zero (map (dir_contribution brdf V alpha) stratified_grid).
Proof.
  unfold accumulateDir, vsum, stratified_grid.
  rewrite <- fold_left_add_map.
  rewrite <- (for_each_nested (range Nsample) (range Nsample) cell_center
               (fun u s => vadd s (dir_contribution brdf V alpha u))).
  apply for_each_ext; intros j s. apply for_each_ext; intros i s'.
  unfold dir_contribution, cell_center. cbn [fst snd].
  destruct (brdf_eval brdf V _ alpha) as [eval pdf]. reflexivity.
Qed.

Lemma accumulateError_sum (l : LTC Cache) (brdf : Brdf) (V : vec3) (alpha : F) :
  accumulateError ops l brdf V alpha =
  dsum dzero (error_contributions ops l brdf V alpha).
Proof.
  unfold accumulateError, dsum, error_contributions, stratified_grid.
  transitivity
    (fold_left
       (fun s u => fold_left dadd
          (map (mis_contribution ops l brdf V alpha) (drawn_directions ops l brdf V alpha u)) s)
       (flat_map (fun j => map (fun i => cell_center i j) (range Nsample)) (range Nsample))
       dzero).
  - rewrite <- (for_each_nested (range Nsample) (range Nsample) cell_center
                 (fun u s => fold_left dadd
                    (map (mis_contribution ops l brdf V alpha)
                       (drawn_directions ops l brdf V alpha u)) s)).
    apply for_each_ext; intros j s. apply for_each_ext; intros i s'.
    unfold drawn_directions, mis_contribution, pdf_ltc_at, pdf_brdf_at, cell_center.
    cbn [fst snd map fold_left].
    destruct (brdf_eval brdf V (ltc_sample ops l _ _) alpha) as [e1 p1].
    destruct (brdf_eval brdf V (brdf_sample brdf V alpha _ _) alpha) as [e2 p2].
    reflexivity.
  - generalize dzero.
    induction (flat_map (fun j => map (fun i => cell_center i j) (range Nsample))
                 (range Nsample)) as [|u us IH]; intros d; [reflexivity|].
    cbn [fold_left flat_map]. rewrite fold_left_app. apply IH.
Qed.

Lemma length_error_contributions (l : LTC Cache) (brdf : Brdf) (V : vec3) (alpha : F) :
  length (error_contributions ops l brdf V alpha) = Z.to_nat (2 * (Nsample * Nsample)).
Proof.
  unfold error_contributions.
  assert (forall us : list (F * F),
    length (flat_map (fun u => map (mis_contribution ops l brdf V alpha)
                                 (drawn_directions ops l brdf V alpha u)) us) =
    (2 * length us)%nat) as E.
  { induction us as [|u us IH]; [reflexivity|].
    cbn [flat_map]. rewrite length_app, IH. cbn. lia. }
  rewrite E, length_stratified_grid. reflexivity.
Qed.

(** C5: in [computeNorm] and [computeAverageDir] a sample whose density [pdf]
    is not strictly positive adds exactly zero (the zero vector), a sample
    with [pdf > 0] adds [eval/pdf] (times the direction, for the average
    direction); [computeNorm] returns the sum of these over the stratified
    grid divided by [Nsample*Nsample], and [computeAverageDir] the normalized
    sum with its y component cleared. *)
Theorem estimators_guard_zero_density (brdf : Brdf) (V : vec3) (alpha : F) :
  computeNorm brdf V alpha =
    fsum (to_float dzero) (map (norm_contribution brdf V alpha) stratified_grid)
    / of_int (Nsample * Nsample)
  /\ computeAverageDir brdf V alpha =
       normalize
         (vset (vsum vec3_zero (map (dir_contribution brdf V alpha) stratified_grid))
            1 (of_int 0))
  /\ forall u : F * F,
       let L := brdf_sample brdf V alpha (fst u) (snd u) in
       let eval := fst (brdf_eval brdf V L alpha) in
       let pdf := snd (brdf_eval brdf V L alpha) in
       (fltb (of_int 0) pdf = false ->
          norm_contribution brdf V alpha u = of_int 0 /\
          dir_contribution brdf V alpha u = vec3_zero)
       /\ (fltb (of_int 0) pdf = true ->
          norm_contribution brdf V alpha u = eval / pdf /\
          dir_contribution brdf V alpha u = smul (eval / pdf) L).
Proof.
  split; [apply computeNorm_sum|]. split.
  - unfold computeAverageDir. rewrite accumulateDir_sum. reflexivity.
  - intros u L eval pdf. unfold norm_contribution, dir_contribution.
    fold L. fold pdf. fold eval.
    split; intros E; rewrite E; split; reflexivity.
Qed.

(** C2, as amended: [computeError] returns the sum of the contributions
    [|eval_brdf - eval_ltc|^3 / (pdf_ltc + pdf_brdf)] of all the directions
    drawn, one from the lobe and one from the model for each stratified pair,
    divided by the number [Nsample*Nsample] of pairs; there are
    [2*Nsample*Nsample] contributions. *)
Theorem computeError_sum_over_pairs (l : LTC Cache) (brdf : Brdf) (V : vec3) (alpha : F) :
  computeError ops l brdf V alpha =
    to_float (dsum dzero (error_contributions ops l brdf V alpha))
    / of_int (Nsample * Nsample)
  /\ error_contributions ops l brdf V alpha =
       flat_map (fun u =>
         [mis_contribution ops l brdf V alpha (ltc_sample ops l (fst u) (snd u));
          mis_contribution ops l brdf V alpha (brdf_sample brdf V alpha (fst u) (snd u))])
         stratified_grid
  /\ length (error_contributions ops l brdf V alpha) = Z.to_nat (2 * (Nsample * Nsample))
  /\ length stratified_grid = Z.to_nat (Nsample * Nsample).
Proof.
  split; [|split; [|split]].
  - unfold computeError. rewrite accumulateError_sum. reflexivity.
  - reflexivity.
  - apply length_error_contributions.
  - apply length_stratified_grid.
Qed.
End Estimators.



(** ** Table packing *)

Section Packing.
Context `{Scalar}.
Local Open Scope fl_scope.

Lemma length_packTab_cell (tab : list mat3) (tabAmplitude : list vec2) (i : Z)
    (tex : list vec4 * list vec2) :
  length (fst (packTab_cell tab tabAmplitude i tex)) = length (fst tex) /\
  length (snd (packTab_cell tab tabAmplitude i tex)) = length (snd tex).
Proof. unfold packTab_cell. cbn [fst snd]. rewrite !length_insert. split; reflexivity. Qed.

Lemma packTab_cell_at (tab : list mat3) (tabAmplitude : list vec2) (i : Z)
    (tex : list vec4 * list vec2) :
  (Z.to_nat i < length (fst tex))%nat -> (Z.to_nat i < length (snd tex))%nat ->
  fst (packTab_cell tab tabAmplitude i tex) !! Z.to_nat i =
    Some (fst (inverse_terms (tab_get tab i))) /\
  snd (packTab_cell tab tabAmplitude i tex) !! Z.to_nat i =
    Some (mkvec2 (snd (inverse_terms (tab_get tab i))) (v2x (amp_get tabAmplitude i))).
Proof.
  intros L1 L2. unfold packTab_cell, inverse_terms. cbn [fst snd].
  rewrite !list_lookup_insert_eq by assumption. split; reflexivity.
Qed.

Lemma packTab_cell_other (tab : list mat3) (tabAmplitude : list vec2) (i k : Z)
    (tex : list vec4 * list vec2) :
  Z.to_nat k <> Z.to_nat i ->
  fst (packTab_cell tab tabAmplitude k tex) !! Z.to_nat i = fst tex !! Z.to_nat i /\
  snd (packTab_cell tab tabAmplitude k tex) !! Z.to_nat i = snd tex !! Z.to_nat i.
Proof.
  intros Hne. unfold packTab_cell. cbn [fst snd].
  rewrite !list_lookup_insert_ne by assumption. split; reflexivity.
Qed.

(** What the loop of [packTab] leaves at index [i]: the texels of the cell
    [i], once [i] has been visited. *)
Lemma packTab_loop_lookup (tab : list mat3) (tabAmplitude : list vec2) (l : list Z) (i : Z) :
  forall tex : list vec4 * list vec2,
  Forall (fun k => 0 <= k)%Z l -> (0 <= i)%Z ->
  (Z.to_nat i < length (fst tex))%nat -> (Z.to_nat i < length (snd tex))%nat ->
  In i l \/
    (fst tex !! Z.to_nat i = Some (fst (inverse_terms (tab_get tab i))) /\
     snd tex !! Z.to_nat i =
       Some (mkvec2 (snd (inverse_terms (tab_get tab i))) (v2x (amp_get tabAmplitude i)))) ->
  fst (for_each l (packTab_cell tab tabAmplitude) tex) !! Z.to_nat i =
    Some (fst (inverse_terms (tab_get tab i))) /\
  snd (for_each l (packTab_cell tab tabAmplitude) tex) !! Z.to_nat i =
    Some (mkvec2 (snd (inverse_terms (tab_get tab i))) (v2x (amp_get tabAmplitude i))).
Proof.
  induction l as [|k l IH]; intros tex Hl Hi L1 L2 Hin.
  - destruct Hin as [[]|E]. rewrite for_each_nil. exact E.
  - rewrite for_each_cons. inversion Hl as [|k' l' Hk Hl']; subst.
    destruct (length_packTab_cell tab tabAmplitude k tex) as [E1 E2].
    apply IH; try assumption; try (rewrite ?E1, ?E2; assumption).
    destruct (Z.eq_dec i k) as [->|Hne].
    + right. apply packTab_cell_at; assumption.
    + destruct Hin as [[E|Hin]|[F1 F2]]; [congruence|left; assumption|right].
      destruct (packTab_cell_other tab tabAmplitude i k tex) as [G1 G2]; [lia|].
      rewrite G1, G2. split; assumption.
Qed.

Lemma range_nonneg (n : Z) : Forall (fun k => 0 <= k)%Z (range n).
Proof.
  apply List.Forall_forall. intros k Hk. unfold range in Hk.
  apply list_elem_of_In in Hk. apply elem_of_seqZ in Hk. lia.
Qed.

Lemma In_range (n k : Z) : In k (range n) <-> (0 <= k < n)%Z.
Proof.
  unfold range. rewrite <- list_elem_of_In, elem_of_seqZ. lia.
Qed.

Section Exact.
(** Exact arithmetic: the operations form a commutative ring. *)
Hypothesis exact : ring_theory (of_int 0) (of_int 1) fadd fmul fsub fneg eq.
Add Ring exact_ring : exact.

Lemma adjugate_sparse (m : mat3) :
  sparse m ->
  adjugate m =
  mkmat3 (mkvec3 (mget m 1 1 * mget m 2 2) (of_int 0) (- mget m 0 2 * mget m 1 1))
         (mkvec3 (of_int 0) (mget m 0 0 * mget m 2 2 - mget m 0 2 * mget m 2 0) (of_int 0))
         (mkvec3 (- mget m 1 1 * mget m 2 0) (of_int 0) (mget m 0 0 * mget m 1 1)).
Proof.
  intros (E01 & E10 & E21 & E12). unfold adjugate. rewrite E01, E10, E21, E12.
  f_equal; f_equal; ring.
Qed.

Lemma adjugate_mul_l (m : mat3) :
  mat3_mul (adjugate m) m = scalar_matrix (determinant m).
Proof.
  unfold mat3_mul, adjugate, scalar_matrix, determinant. cbn [mget vget col0 col1 col2 vx vy vz].
  f_equal; f_equal; ring.
Qed.

Lemma adjugate_mul_r (m : mat3) :
  mat3_mul m (adjugate m) = scalar_matrix (determinant m).
Proof.
  unfold mat3_mul, adjugate, scalar_matrix, determinant. cbn [mget vget col0 col1 col2 vx vy vz].
  f_equal; f_equal; ring.
Qed.

End Exact.

(** C7, as amended: for a cell [i] of the table whose matrix [m] has zeros at
    [0][1], [1][0], [2][1] and [1][2], [packTab] writes the five terms
    [c*e], [-b*c], [a*e - b*d], [-c*d], [a*c], each computed in the
    arithmetic of the program, and, in [tex2[i].y], the stored amplitude.
    In exact arithmetic (when the operations form a commutative ring) the
    five terms, laid out in the pattern of [m], are the adjugate of [m],
    whose product with [m], on either side, is [det m] times the identity.
    [N*N] is taken to fit an [int]. *)
Theorem packTab_rescaled_inverse (tex1 : list vec4) (tex2 : list vec2)
    (tab : list mat3) (tabAmplitude : list vec2) (N i : Z) :
  (N * N < 2 ^ 31)%Z ->
  (0 <= i < N * N)%Z ->
  length tex1 = Z.to_nat (N * N) -> length tex2 = Z.to_nat (N * N) ->
  sparse (tab_get tab i) ->
  let m := tab_get tab i in
  let a := mget m 0 0 in
  let b := mget m 0 2 in
  let c := mget m 1 1 in
  let d := mget m 2 0 in
  let e := mget m 2 2 in
  exists (t1 : vec4) (t2 : vec2),
    fst (packTab tex1 tex2 tab tabAmplitude N) !! Z.to_nat i = Some t1 /\
    snd (packTab tex1 tex2 tab tabAmplitude N) !! Z.to_nat i = Some t2 /\
    t1 = mkvec4 (c * e) (- b * c) (a * e - b * d) (- c * d) /\
    v2x t2 = a * c /\
    v2y t2 = v2x (amp_get tabAmplitude i) /\
    (ring_theory (of_int 0) (of_int 1) fadd fmul fsub fneg eq ->
     reconstruct t1 t2 = adjugate m /\
     mat3_mul (reconstruct t1 t2) m = scalar_matrix (determinant m) /\
     mat3_mul m (reconstruct t1 t2) = scalar_matrix (determinant m)).
Proof.
  intros _ Hi L1 L2 Hs m a b c d e.
  destruct (packTab_loop_lookup tab tabAmplitude (range (N * N)) i (tex1, tex2))
    as [E1 E2].
  - apply range_nonneg.
  - lia.
  - cbn [fst]. lia.
  - cbn [snd]. lia.
  - left. apply In_range. assumption.
  - eexists _, _. split; [exact E1|]. split; [exact E2|].
    split; [reflexivity|]. split; [reflexivity|]. split; [reflexivity|].
    intros exact.
    assert (reconstruct (fst (inverse_terms (tab_get tab i)))
              (mkvec2 (snd (inverse_terms (tab_get tab i)))
                 (v2x (amp_get tabAmplitude i))) = adjugate m) as R.
    { subst m. rewrite (adjugate_sparse exact _ Hs). reflexivity. }
    split; [exact R|]. rewrite R.
    split; [apply adjugate_mul_l|apply adjugate_mul_r]; exact exact.
Qed.

End Packing.

(** ** The order of the cells *)

Lemma length_down_range (n : Z) : length (down_range n) = Z.to_nat n.
Proof. unfold down_range. rewrite length_reverse. apply length_seqZ. Qed.

Lemma lookup_down_range (n : Z) (i : nat) :
  (Z.of_nat i < n)%Z -> down_range n !! i = Some (n - 1 - Z.of_nat i)%Z.
Proof.
  intros Hi. unfold down_range. rewrite reverse_lookup by (rewrite length_seqZ; lia).
  rewrite length_seqZ, lookup_seqZ_lt by lia. f_equal. lia.
Qed.

Lemma lookup_flat_map_uniform {A B : Type} (f : A -> list B) (n : nat) (l : list A)
    (i j : nat) (x : A) :
  (forall y, length (f y) = n) -> l !! i = Some x -> (j < n)%nat ->
  flat_map f l !! (i * n + j)%nat = f x !! j.
Proof.
  intros Hn. revert i. induction l as [|y l IH]; intros i Hi Hj; [discriminate|].
  cbn [flat_map]. destruct i as [|i].
  - injection Hi as ->. cbn. apply lookup_app_l. rewrite Hn. assumption.
  - cbn in Hi. rewrite lookup_app_r by (rewrite Hn; lia).
    rewrite Hn. replace (S i * n + j - n)%nat with (i * n + j)%nat by lia.
    apply IH; assumption.
Qed.

Lemma length_cells (N : Z) : length (cells N) = (Z.to_nat N * Z.to_nat N)%nat.
Proof.
  unfold cells.
  assert (forall l : list Z,
    length (flat_map (fun a => map (fun t => (a, t)) (down_range N)) l) =
    (length l * Z.to_nat N)%nat) as E.
  { induction l as [|a l IH]; [reflexivity|].
    cbn [flat_map]. rewrite length_app, length_map, length_down_range, IH. cbn. lia. }
  rewrite E, length_down_range. reflexivity.
Qed.

Lemma lookup_cells (N a t : Z) :
  (0 <= a < N)%Z -> (0 <= t < N)%Z -> cells N !! cell_index N a t = Some (a, t).
Proof.
  intros Ha Ht. unfold cells, cell_index.
  replace (Z.to_nat ((N - 1 - a) * N + (N - 1 - t)))
    with (Z.to_nat (N - 1 - a) * Z.to_nat N + Z.to_nat (N - 1 - t))%nat by nia.
  rewrite (lookup_flat_map_uniform _ (Z.to_nat N) _ _ _ a).
  - rewrite list_lookup_fmap, lookup_down_range by lia. cbn. do 2 f_equal. lia.
  - intros y. rewrite length_map. apply length_down_range.
  - rewrite lookup_down_range by lia. f_equal. lia.
  - lia.
Qed.

Lemma cell_index_lt (N a t : Z) :
  (0 <= a < N)%Z -> (0 <= t < N)%Z -> (cell_index N a t < length (cells N))%nat.
Proof. intros Ha Ht. rewrite length_cells. unfold cell_index. nia. Qed.

(** Every visited cell is within the grid, and sits at its index. *)
Lemma cells_lookup_inv (N : Z) (k : nat) (a t : Z) :
  cells N !! k = Some (a, t) ->
  (0 <= a < N)%Z /\ (0 <= t < N)%Z /\ k = cell_index N a t.
Proof.
  intros Hk.
  assert (k < Z.to_nat N * Z.to_nat N)%nat as Hlt
    by (rewrite <- length_cells; eapply lookup_lt_Some; eassumption).
  assert (0 < N)%Z as HN by lia.
  set (q := (Z.of_nat k / N)%Z). set (r := (Z.of_nat k mod N)%Z).
  assert (Z.of_nat k = N * q + r)%Z as Ek by (apply Z.div_mod; lia).
  assert (0 <= r < N)%Z as Hr by (apply Z.mod_pos_bound; lia).
  assert (0 <= q < N)%Z as Hq.
  { split; [apply Z.div_pos; lia|]. apply Z.div_lt_upper_bound; nia. }
  assert (k = cell_index N (N - 1 - q) (N - 1 - r)) as Ek'
    by (unfold cell_index; nia).
  rewrite Ek', lookup_cells in Hk by lia. injection Hk as <- <-.
  repeat split; lia.
Qed.

(** ** The lobe, the objective and [fit] *)

Section Fitting.
Context `{Scalar}.
Context {Cache : Type}.
Variable ops : LobeOps Cache.
Variable NelderMead : Optimizer.
Local Open Scope fl_scope.

Lemma recompute_idem (l : LTC Cache) : up_to_date ops (recompute ops l).
Proof. reflexivity. Qed.

Lemma up_to_date_matrix (l : LTC Cache) :
  up_to_date ops l ->
  ltcM l = lobe_matrix ops (m11 l) (m22 l) (m13 l) (ltcX l) (ltcY l) (ltcZ l).
Proof. intros E. unfold up_to_date in E. rewrite <- E at 1. reflexivity. Qed.

(** What [FitLTC::update] leaves in the lobe. *)
Lemma FitLTC_update_spec (fitter : FitLTC) (params : float3) (s : Lobe Cache) :
  let s' := FitLTC_update ops fitter params s in
  amplitude (ltc s') = amplitude (ltc s) /\
  same_frame (ltc s') (ltc s) /\
  m11 (ltc s') = fmax (at0 params) MIN_ALPHA /\
  m22 (ltc s') =
    (if isotropic fitter then fmax (at0 params) MIN_ALPHA else fmax (at1 params) MIN_ALPHA) /\
  m13 (ltc s') = (if isotropic fitter then of_int 0 else at2 params) /\
  up_to_date ops (ltc s') /\
  updates s' = updates s ++ [ltc s'].
Proof.
  unfold FitLTC_update. destruct (isotropic fitter); cbn;
    repeat split; reflexivity.
Qed.

Lemma NM_all_impl (P Q : float3 -> Prop) (nm : NM) :
  (forall p, P p -> Q p) -> NM_all P nm -> NM_all Q nm.
Proof.
  intros PQ. induction nm as [p f|p k IH]; cbn; [apply PQ|].
  intros [Hp Hk]. split; [apply PQ; assumption|]. intros e. apply IH, Hk.
Qed.

Lemma NM_all_True (nm : NM) : NM_all (fun _ => True) nm.
Proof. induction nm as [p f|p k IH]; cbn; [exact I|]. split; [exact I|]. exact IH. Qed.

(** An invariant of the lobe that every evaluation of the objective at an
    admissible point keeps holds when the optimizer returns, and the point
    returned is admissible. *)
Lemma NM_run_invariant (P : float3 -> Prop) (Inv : Lobe Cache -> Prop)
    (objectiveFn : float3 -> Lobe Cache -> F * Lobe Cache) (nm : NM) :
  (forall p s, P p -> Inv s -> Inv (snd (objectiveFn p s))) ->
  forall s, NM_all P nm -> Inv s ->
  Inv (snd (NM_run nm objectiveFn s)) /\ P (fst (fst (NM_run nm objectiveFn s))).
Proof.
  intros Hobj. induction nm as [p f|p k IH]; intros s Hall Hs; cbn.
  - split; assumption.
  - destruct Hall as [Hp Hk]. specialize (Hobj p s Hp Hs).
    destruct (objectiveFn p s) as [e s1]. apply IH; [apply Hk|exact Hobj].
Qed.

(** What [fit] leaves in the lobe: the amplitude and the frame it found,
    the scalars of the point returned by the optimizer, floored, and in the
    isotropic sub-case [m22 = m11], [m13 = 0]; every [update()] on the way
    has been of the admissible kind [G]. *)
Lemma fit_spec (P : float3 -> Prop) (G : LTC Cache -> Prop)
    (s : Lobe Cache) (brdf : Brdf) (V : vec3) (alpha epsilon : F) (iso : bool) :
  NM_all P (NelderMead (mkfloat3 (m11 (ltc s)) (m22 (ltc s)) (m13 (ltc s)))
              epsilon (flit 1 100000) 100) ->
  (forall p s, P p -> G (ltc (FitLTC_update ops (mkFitLTC brdf iso V alpha) p s))) ->
  let s' := fit ops NelderMead s brdf V alpha epsilon iso in
  amplitude (ltc s') = amplitude (ltc s) /\
  same_frame (ltc s') (ltc s) /\
  up_to_date ops (ltc s') /\
  (exists p, P p /\
     m11 (ltc s') = fmax (at0 p) MIN_ALPHA /\
     m22 (ltc s') = (if iso then fmax (at0 p) MIN_ALPHA else fmax (at1 p) MIN_ALPHA) /\
     m13 (ltc s') = (if iso then of_int 0 else at2 p)) /\
  exists news, updates s' = updates s ++ news ++ [ltc s'] /\ Forall G (news ++ [ltc s']).
Proof.
  intros Hall HG. unfold fit.
  set (fitter := mkFitLTC brdf iso V alpha) in *.
  set (nm := NelderMead _ _ _ _) in *.
  pose (Inv := fun s1 : Lobe Cache =>
    amplitude (ltc s1) = amplitude (ltc s) /\ same_frame (ltc s1) (ltc s) /\
    exists news, updates s1 = updates s ++ news /\ Forall G news).
  destruct (NM_run_invariant P Inv (FitLTC_call ops fitter) nm) with (s := s)
    as [(Ea & Ef & news & Eu & Hn) Hp].
  - intros p s1 Hp (Ea & Ef & news & Eu & Hn). unfold FitLTC_call. cbn [snd].
    destruct (FitLTC_update_spec fitter p s1) as (Ea' & Ef' & _ & _ & _ & _ & Eu').
    split; [congruence|]. split.
    { unfold same_frame in *. intuition congruence. }
    exists (news ++ [ltc (FitLTC_update ops fitter p s1)]). split.
    + rewrite Eu', Eu, app_assoc. reflexivity.
    + apply Forall_app. split; [assumption|]. constructor; [|constructor].
      apply HG. assumption.
  - assumption.
  - split; [reflexivity|]. split; [repeat split|]. exists []. split; [|constructor].
    rewrite app_nil_r. reflexivity.
  - destruct (NM_run nm (FitLTC_call ops fitter) s) as [[p e] s1]. cbn [fst snd] in *.
    destruct (FitLTC_update_spec fitter p s1) as (Ea' & Ef' & E11 & E22 & E13 & Hup & Eu').
    split; [congruence|]. split.
    { unfold same_frame in *. intuition congruence. }
    split; [assumption|]. split.
    + exists p. repeat split; assumption.
    + exists news. split.
      * rewrite Eu', Eu, app_assoc. reflexivity.
      * apply Forall_app. split; [assumption|]. constructor; [|constructor].
        apply HG. assumption.
Qed.
End Fitting.

(** ** One cell *)

Section Cell.
Context `{Scalar}.
Context {Cache : Type}.
Variable ops : LobeOps Cache.
Variable NelderMead : Optimizer.
Local Open Scope fl_scope.

(** What the first guess leaves in the lobe. *)
Lemma first_guess_spec (N a t : Z) (averageDir : vec3) (tab : list mat3) (s : Lobe Cache) :
  let g := first_guess ops N a t averageDir tab s in
  amplitude (ltc (fst g)) = amplitude (ltc s) /\
  up_to_date ops (ltc (fst g)) /\
  updates (fst g) = updates s ++ [ltc (fst g)] /\
  (t = N - 1 ->
     snd g = true /\ identity_frame (ltc (fst g)) /\ m13 (ltc (fst g)) = of_int 0 /\
     (a = N - 1 -> m11 (ltc (fst g)) = of_int 1 /\ m22 (ltc (fst g)) = of_int 1) /\
     (a <> N - 1 ->
        m11 (ltc (fst g)) = fmax (mget (tab_get tab (a + 1 + t * N)) 0 0) MIN_ALPHA /\
        m22 (ltc (fst g)) = fmax (mget (tab_get tab (a + 1 + t * N)) 1 1) MIN_ALPHA))%Z /\
  (t <> N - 1 ->
     snd g = false /\ frame_around averageDir (ltc (fst g)) /\
     same_scalars (ltc (fst g)) (ltc s))%Z.
Proof.
  unfold first_guess. destruct (Z.eqb_spec t (N - 1)) as [Et|Et].
  - destruct (Z.eqb_spec a (N - 1)) as [Ea|Ea]; cbn;
      (split; [reflexivity|]); (split; [reflexivity|]); (split; [reflexivity|]);
      (split; [|intros []; assumption]); intros _;
      (split; [reflexivity|]); (split; [repeat split|]); (split; [reflexivity|]);
      split; intros E; try contradiction; split; reflexivity.
  - cbn. split; [reflexivity|]. split; [reflexivity|]. split; [reflexivity|].
    split; [intros E; contradiction|]. intros _. repeat split.
Qed.

Lemma tab_set_store (tab : list mat3) (i j k : Z) (x : F) (m : mat3) :
  (Z.to_nat i < length tab)%nat ->
  tab_set (tab_store tab i m) i j k x = tab_store tab i (mset m j k x).
Proof.
  intros Hi. unfold tab_set, tab_store, tab_get.
  rewrite list_lookup_insert_eq by assumption. cbn. apply list_insert_insert_eq.
Qed.

Lemma tab_get_store (tab : list mat3) (i : Z) (m : mat3) :
  (Z.to_nat i < length tab)%nat -> tab_get (tab_store tab i m) i = m.
Proof.
  intros Hi. unfold tab_store, tab_get. rewrite list_lookup_insert_eq by assumption.
  reflexivity.
Qed.

Lemma amp_set_twice (tabAmplitude : list vec2) (i : Z) (x y : F) :
  (Z.to_nat i < length tabAmplitude)%nat ->
  amp_set (amp_set tabAmplitude i 0 x) i 1 y = <[Z.to_nat i := mkvec2 x y]> tabAmplitude.
Proof.
  intros Hi. unfold amp_set, amp_get.
  rewrite list_lookup_insert_eq by assumption. cbn. apply list_insert_insert_eq.
Qed.

(** What one pass through the body of the loops does. *)
Lemma fitTab_cell_spec (N : Z) (brdf : Brdf) (a t : Z) (r : Run Cache) :
  (Z.to_nat (a + t * N) < length (run_tab r))%nat ->
  (Z.to_nat (a + t * N) < length (run_tabAmplitude r))%nat ->
  let V := cell_V N t in
  let alpha := cell_alpha N a in
  let averageDir := computeAverageDir brdf V alpha in
  let g := first_guess ops N a t averageDir (run_tab r)
             (assign (set_amplitude (computeNorm brdf V alpha)) (run_lobe r)) in
  let r' := fitTab_cell ops NelderMead N brdf a t r in
  exists c : CellLog Cache,
    run_cout r' = run_cout r ++ [c] /\
    log_a c = a /\ log_t c = t /\
    log_alpha c = alpha /\ log_theta c = cell_theta N t /\ log_V c = V /\
    log_averageDir c = averageDir /\
    log_guess c = ltc (fst g) /\ log_isotropic c = snd g /\
    run_lobe r' = fit ops NelderMead (fst g) brdf V alpha (flit 5 100) (snd g) /\
    log_fit c = ltc (run_lobe r') /\
    log_stored c = kill_useless (ltcM (log_fit c)) /\
    run_tab r' = <[Z.to_nat (a + t * N) := log_stored c]> (run_tab r) /\
    run_tabAmplitude r' =
      <[Z.to_nat (a + t * N) := mkvec2 (amplitude (log_fit c)) (of_int 0)]>
        (run_tabAmplitude r).
Proof.
  intros L1 L2 V alpha averageDir g r'.
  subst r'. unfold fitTab_cell.
  fold (cell_theta N t). fold (cell_V N t). fold V.
  fold (cell_alpha N a). fold alpha. fold averageDir. fold g.
  destruct g as [s iso]. cbn [fst snd].
  rewrite !tab_set_store by assumption. rewrite amp_set_twice by assumption.
  rewrite tab_get_store by assumption.
  eexists. cbn [run_cout run_lobe run_tab run_tabAmplitude].
  split; [reflexivity|]. cbn.
  repeat (split; [reflexivity|]). reflexivity.
Qed.

Lemma length_fitTab_cell (N : Z) (brdf : Brdf) (a t : Z) (r : Run Cache) :
  length (run_tab (fitTab_cell ops NelderMead N brdf a t r)) = length (run_tab r) /\
  length (run_tabAmplitude (fitTab_cell ops NelderMead N brdf a t r)) =
    length (run_tabAmplitude r).
Proof.
  unfold fitTab_cell. destruct (first_guess _ _ _ _ _ _ _) as [s iso].
  cbn [run_tab run_tabAmplitude]. unfold tab_set, tab_store, amp_set.
  rewrite !length_insert. split; reflexivity.
Qed.
End Cell.

(** ** The traversal *)

Section Traversal.
Context `{Scalar}.
Context {Cache : Type}.
Variable ops : LobeOps Cache.
Variable NelderMead : Optimizer.
Variable tab : list mat3.
Variable tabAmplitude : list vec2.
Variable N : Z.
Variable brdf : Brdf.
Variable ltc0 : LTC Cache.
Local Open Scope fl_scope.

Let run (k : nat) : Run Cache :=
  fitTab_upto ops NelderMead tab tabAmplitude N brdf ltc0 k.

Lemma fitTab_all_cells :
  fitTab ops NelderMead tab tabAmplitude N brdf ltc0 = run (length (cells N)).
Proof.
  unfold run, fitTab_upto, fitTab. rewrite take_ge by lia.
  unfold fitTab_cells, cells.
  rewrite <- (for_each_nested (down_range N) (down_range N) (fun t a => (a, t))
               (fun c r => fitTab_cell ops NelderMead N brdf (fst c) (snd c) r)).
  reflexivity.
Qed.

Lemma run_S (k : nat) (a t : Z) :
  cells N !! k = Some (a, t) ->
  run (S k) = fitTab_cell ops NelderMead N brdf a t (run k).
Proof.
  intros Hk. unfold run, fitTab_upto. rewrite (take_S_r _ _ _ Hk).
  unfold fitTab_cells. rewrite fold_left_app. reflexivity.
Qed.

Lemma length_run (k : nat) :
  length (run_tab (run k)) = length tab /\
  length (run_tabAmplitude (run k)) = length tabAmplitude.
Proof.
  unfold run, fitTab_upto. generalize (take k (cells N)). intros cs.
  unfold fitTab_cells.
  assert (forall r : Run Cache,
    length (run_tab (fold_left
      (fun r c => fitTab_cell ops NelderMead N brdf (fst c) (snd c) r) cs r)) =
      length (run_tab r) /\
    length (run_tabAmplitude (fold_left
      (fun r c => fitTab_cell ops NelderMead N brdf (fst c) (snd c) r) cs r)) =
      length (run_tabAmplitude r)) as E.
  { induction cs as [|c cs IH]; intros r; [split; reflexivity|].
    cbn [fold_left]. destruct (IH (fitTab_cell ops NelderMead N brdf (fst c) (snd c) r))
      as [E1 E2].
    destruct (length_fitTab_cell ops NelderMead N brdf (fst c) (snd c) r) as [F1 F2].
    split; congruence. }
  apply E.
Qed.

Lemma index_in_range (a t : Z) :
  (0 <= a < N)%Z -> (0 <= t < N)%Z -> (Z.to_nat (a + t * N) < Z.to_nat (N * N))%nat.
Proof. intros Ha Ht. nia. Qed.

Lemma index_injective (a t a' t' : Z) :
  (0 <= a < N)%Z -> (0 <= t < N)%Z -> (0 <= a' < N)%Z -> (0 <= t' < N)%Z ->
  Z.to_nat (a + t * N) = Z.to_nat (a' + t' * N) -> a = a' /\ t = t'.
Proof. intros Ha Ht Ha' Ht' E. assert (t = t') by nia. subst. split; nia. Qed.

Hypothesis length_tab : length tab = Z.to_nat (N * N).
Hypothesis length_tabAmplitude : length tabAmplitude = Z.to_nat (N * N).

(** The step from [k] cells done to [k+1], for the cell [(a, t)] at index
    [k]. *)
Lemma run_step (k : nat) (a t : Z) :
  cells N !! k = Some (a, t) ->
  let V := cell_V N t in
  let alpha := cell_alpha N a in
  let averageDir := computeAverageDir brdf V alpha in
  let g := first_guess ops N a t averageDir (run_tab (run k))
             (assign (set_amplitude (computeNorm brdf V alpha)) (run_lobe (run k))) in
  exists c : CellLog Cache,
    run_cout (run (S k)) = run_cout (run k) ++ [c] /\
    log_a c = a /\ log_t c = t /\
    log_alpha c = alpha /\ log_theta c = cell_theta N t /\ log_V c = V /\
    log_averageDir c = averageDir /\
    log_guess c = ltc (fst g) /\ log_isotropic c = snd g /\
    run_lobe (run (S k)) = fit ops NelderMead (fst g) brdf V alpha (flit 5 100) (snd g) /\
    log_fit c = ltc (run_lobe (run (S k))) /\
    log_stored c = kill_useless (ltcM (log_fit c)) /\
    run_tab (run (S k)) = <[Z.to_nat (a + t * N) := log_stored c]> (run_tab (run k)) /\
    run_tabAmplitude (run (S k)) =
      <[Z.to_nat (a + t * N) := mkvec2 (amplitude (log_fit c)) (of_int 0)]>
        (run_tabAmplitude (run k)).
Proof.
  intros Hk. rewrite (run_S k a t Hk).
  destruct (cells_lookup_inv N k a t Hk) as (Ha & Ht & _).
  destruct (length_run k) as [L1 L2].
  apply fitTab_cell_spec.
  - rewrite L1, length_tab. apply index_in_range; assumption.
  - rewrite L2, length_tabAmplitude. apply index_in_range; assumption.
Qed.

Lemma length_cout (k : nat) :
  (k <= length (cells N))%nat -> length (run_cout (run k)) = k.
Proof.
  induction k as [|k IH]; intros Hk; [reflexivity|].
  destruct (lookup_lt_is_Some_2 (cells N) k) as [[a t] Hc]; [lia|].
  destruct (run_step k a t Hc) as (c & Ec & _).
  rewrite Ec, length_app, IH by lia. cbn. lia.
Qed.

(** What is printed stays printed. *)
Lemma cout_stable (k k' j : nat) (c : CellLog Cache) :
  (k <= k')%nat -> (k' <= length (cells N))%nat ->
  run_cout (run k) !! j = Some c -> run_cout (run k') !! j = Some c.
Proof.
  intros Hk Hk' Hj. induction k' as [|k' IH].
  - replace k with 0%nat in Hj by lia. exact Hj.
  - destruct (Nat.eq_dec k (S k')) as [->|Hne]; [exact Hj|].
    destruct (lookup_lt_is_Some_2 (cells N) k') as [[a t] Hc]; [lia|].
    destruct (run_step k' a t Hc) as (c' & Ec & _).
    rewrite Ec. apply lookup_app_l_Some. apply IH; lia.
Qed.

(** The line of the cell at index [k] in the final output. *)
Lemma cout_entry (k : nat) (c : CellLog Cache) :
  (k < length (cells N))%nat ->
  run_cout (run (S k)) = run_cout (run k) ++ [c] ->
  run_cout (fitTab ops NelderMead tab tabAmplitude N brdf ltc0) !! k = Some c.
Proof.
  intros Hk Ec. rewrite fitTab_all_cells.
  apply (cout_stable (S k)); [lia|lia|].
  rewrite Ec, lookup_app_r by (rewrite length_cout; lia).
  rewrite length_cout by lia. replace (k - k)%nat with 0%nat by lia. reflexivity.
Qed.

Lemma length_final_cout :
  length (run_cout (fitTab ops NelderMead tab tabAmplitude N brdf ltc0)) =
  length (cells N).
Proof. rewrite fitTab_all_cells. apply length_cout. lia. Qed.

(** The table holds, for every cell done, what was stored for it. *)
Lemma table_holds (k : nat) :
  (k <= length (cells N))%nat ->
  forall (j : nat) (a t : Z) (c : CellLog Cache),
  cells N !! j = Some (a, t) -> run_cout (run k) !! j = Some c ->
  run_tab (run k) !! Z.to_nat (a + t * N) = Some (log_stored c) /\
  run_tabAmplitude (run k) !! Z.to_nat (a + t * N) =
    Some (mkvec2 (amplitude (log_fit c)) (of_int 0)).
Proof.
  induction k as [|k IH]; intros Hk j a t c Hj Hc; [discriminate|].
  destruct (lookup_lt_is_Some_2 (cells N) k) as [[ak tk] Hck]; [lia|].
  destruct (run_step k ak tk Hck)
    as (ck & Ec & _ & _ & _ & _ & _ & _ & _ & _ & _ & _ & _ & Et & Ea).
  destruct (cells_lookup_inv N k ak tk Hck) as (Hak & Htk & Ek).
  destruct (cells_lookup_inv N j a t Hj) as (Ha & Ht & Ej).
  destruct (length_run k) as [L1 L2].
  rewrite Ec in Hc. rewrite Et, Ea.
  destruct (Nat.eq_dec j k) as [->|Hne].
  - rewrite lookup_app_r, length_cout in Hc by (rewrite ?length_cout; lia).
    replace (k - k)%nat with 0%nat in Hc by lia. injection Hc as ->.
    assert (a = ak /\ t = tk) as [-> ->] by (rewrite Hck in Hj; injection Hj; auto).
    rewrite !list_lookup_insert_eq; [split; reflexivity| |].
    + rewrite L2, length_tabAmplitude. apply index_in_range; assumption.
    + rewrite L1, length_tab. apply index_in_range; assumption.
  - assert (j < k)%nat as Hlt.
    { apply lookup_lt_Some in Hc. rewrite length_app, length_cout in Hc by lia.
      cbn in Hc. lia. }
    rewrite lookup_app_l in Hc by (rewrite length_cout; lia).
    assert (Z.to_nat (ak + tk * N) <> Z.to_nat (a + t * N)) as Hi.
    { intros E. apply index_injective in E; try assumption.
      destruct E as [-> ->]. congruence. }
    rewrite !list_lookup_insert_ne by assumption. apply (IH ltac:(lia) j); assumption.
Qed.

(** The line of a cell of the grid, and what it says: where the cell is,
    its angle, view direction and roughness, the estimates, the first guess
    from the lobe and the table as they were, and the fit from that guess. *)
Lemma cell_entry (a t : Z) :
  (0 <= a < N)%Z -> (0 <= t < N)%Z ->
  let k := cell_index N a t in
  let V := cell_V N t in
  let alpha := cell_alpha N a in
  let averageDir := computeAverageDir brdf V alpha in
  let g := first_guess ops N a t averageDir (run_tab (run k))
             (assign (set_amplitude (computeNorm brdf V alpha)) (run_lobe (run k))) in
  exists c : CellLog Cache,
    run_cout (fitTab ops NelderMead tab tabAmplitude N brdf ltc0) !! k = Some c /\
    run_cout (run (S k)) = run_cout (run k) ++ [c] /\
    log_a c = a /\ log_t c = t /\
    log_alpha c = alpha /\ log_theta c = cell_theta N t /\ log_V c = V /\
    log_averageDir c = averageDir /\
    log_guess c = ltc (fst g) /\ log_isotropic c = snd g /\
    run_lobe (run (S k)) = fit ops NelderMead (fst g) brdf V alpha (flit 5 100) (snd g) /\
    log_fit c = ltc (run_lobe (run (S k))) /\
    log_stored c = kill_useless (ltcM (log_fit c)).
Proof.
  intros Ha Ht k V alpha averageDir g.
  pose proof (lookup_cells N a t Ha Ht) as Hk. fold k in Hk.
  pose proof (cell_index_lt N a t Ha Ht) as Hlt. fold k in Hlt.
  destruct (run_step k a t Hk)
    as (c & Ec & E1 & E2 & E3 & E4 & E5 & E6 & E7 & E8 & E9 & E10 & E11 & _).
  exists c. split; [apply cout_entry; assumption|].
  repeat (split; [assumption|]). assumption.
Qed.

(** The fit of a cell starts from the guess and keeps its amplitude and its
    frame. *)
Lemma cell_fit (a t : Z) (c : CellLog Cache) :
  (0 <= a < N)%Z -> (0 <= t < N)%Z ->
  run_cout (fitTab ops NelderMead tab tabAmplitude N brdf ltc0) !! cell_index N a t
    = Some c ->
  amplitude (log_guess c) = computeNorm brdf (cell_V N t) (cell_alpha N a) /\
  amplitude (log_fit c) = amplitude (log_guess c) /\
  same_frame (log_fit c) (log_guess c) /\
  up_to_date ops (log_guess c) /\
  up_to_date ops (log_fit c) /\
  (exists p,
     m11 (log_fit c) = fmax (at0 p) MIN_ALPHA /\
     m22 (log_fit c) =
       (if log_isotropic c then fmax (at0 p) MIN_ALPHA else fmax (at1 p) MIN_ALPHA) /\
     m13 (log_fit c) = (if log_isotropic c then of_int 0 else at2 p)).
Proof.
  intros Ha Ht Hc.
  destruct (cell_entry a t Ha Ht)
    as (c' & Hc' & _ & _ & _ & _ & _ & _ & _ & Eg & Ei & Er & Ef & _).
  rewrite Hc in Hc'. injection Hc' as <-.
  set (g := first_guess _ _ _ _ _ _ _) in *.
  destruct (first_guess_spec ops N a t
              (computeAverageDir brdf (cell_V N t) (cell_alpha N a))
              (run_tab (run (cell_index N a t)))
              (assign (set_amplitude (computeNorm brdf (cell_V N t) (cell_alpha N a)))
                 (run_lobe (run (cell_index N a t)))))
    as (Ga & Gu & _). fold g in Ga, Gu.
  destruct (fit_spec ops NelderMead (fun _ => True) (fun _ => True) (fst g) brdf
              (cell_V N t) (cell_alpha N a) (flit 5 100) (snd g))
    as (Fa & Ff & Fu & (p & _ & F11 & F22 & F13) & _).
  { apply NM_all_True. }
  { intros; exact I. }
  rewrite <- Er in Fa, Ff, Fu, F11, F22, F13. rewrite <- Ef in Fa, Ff, Fu, F11, F22, F13.
  rewrite <- Eg in Fa, Ff, Ga, Gu. rewrite <- Ei in F22, F13.
  split; [exact Ga|]. split; [exact Fa|]. split; [exact Ff|]. split; [exact Gu|].
  split; [exact Fu|]. exists p. repeat split; assumption.
Qed.

Let final : Run Cache := fitTab ops NelderMead tab tabAmplitude N brdf ltc0.

(** C6: the line of every cell [(a, t)] shows
    [theta = min(1.57, acos(t/(N-1)))] and
    [alpha = max((a/(N-1))^2, MIN_ALPHA)]; the view direction of the cell is
    [V = (sin theta, 0, cos theta)], and it is with this [V] and this [alpha]
    that the norm and the average direction of the cell are estimated. *)
Theorem cell_view_and_roughness (a t : Z) :
  (0 <= a < N)%Z -> (0 <= t < N)%Z ->
  exists c : CellLog Cache,
    run_cout final !! cell_index N a t = Some c /\
    log_a c = a /\ log_t c = t /\
    log_theta c = fmin (flit 157 100) (acosf (of_int t / of_int (N - 1))) /\
    log_V c = mkvec3 (sinf (log_theta c)) (of_int 0) (cosf (log_theta c)) /\
    log_alpha c =
      fmax ((of_int a / of_int (N - 1)) * (of_int a / of_int (N - 1))) MIN_ALPHA /\
    amplitude (log_fit c) = computeNorm brdf (log_V c) (log_alpha c) /\
    log_averageDir c = computeAverageDir brdf (log_V c) (log_alpha c).
Proof.
  intros Ha Ht.
  destruct (cell_entry a t Ha Ht)
    as (c & Hc & _ & E1 & E2 & E3 & E4 & E5 & E6 & _).
  destruct (cell_fit a t c Ha Ht Hc) as (Ga & Fa & _).
  exists c. split; [exact Hc|]. split; [exact E1|]. split; [exact E2|].
  split; [exact E4|]. split; [rewrite E5, E4; reflexivity|].
  split; [exact E3|]. split; [|rewrite E6, E5, E3; reflexivity].
  rewrite Fa, Ga, E5, E3. reflexivity.
Qed.

(** The cells of the column [t = N-1]: the first guess has the identity
    frame, no skew and the isotropic flag; its scales are 1 for [a = N-1] and
    otherwise the floored entries [0][0] and [1][1] of what the table holds
    for the cell [(a+1, t)]. *)
Lemma grazing_guess (a : Z) (c : CellLog Cache) :
  (0 <= a < N)%Z ->
  run_cout final !! cell_index N a (N - 1) = Some c ->
  log_isotropic c = true /\ identity_frame (log_guess c) /\
  m13 (log_guess c) = of_int 0 /\
  (a = N - 1 -> m11 (log_guess c) = of_int 1 /\ m22 (log_guess c) = of_int 1)%Z /\
  (a < N - 1 ->
   exists c' : CellLog Cache,
     run_cout final !! cell_index N (a + 1) (N - 1) = Some c' /\
     run_tab (run (cell_index N a (N - 1))) !! Z.to_nat (a + 1 + (N - 1) * N)
       = Some (log_stored c') /\
     m11 (log_guess c) = fmax (mget (log_stored c') 0 0) MIN_ALPHA /\
     m22 (log_guess c) = fmax (mget (log_stored c') 1 1) MIN_ALPHA)%Z.
Proof.
  intros Ha Hc.
  destruct (cell_entry a (N - 1) Ha ltac:(lia))
    as (c0 & Hc0 & _ & _ & _ & _ & _ & _ & _ & Eg & Ei & _).
  unfold final in Hc. rewrite Hc in Hc0. injection Hc0 as <-.
  set (k := cell_index N a (N - 1)) in *.
  set (g := first_guess _ _ _ _ _ _ _) in *.
  destruct (first_guess_spec ops N a (N - 1)
              (computeAverageDir brdf (cell_V N (N - 1)) (cell_alpha N a))
              (run_tab (run k))
              (assign (set_amplitude (computeNorm brdf (cell_V N (N - 1)) (cell_alpha N a)))
                 (run_lobe (run k))))
    as (_ & _ & _ & Hg & _). fold g in Hg.
  destruct (Hg eq_refl) as (G1 & G2 & G3 & G4 & G5).
  rewrite <- Eg in G2, G3, G4, G5. rewrite <- Ei in G1.
  split; [exact G1|]. split; [exact G2|]. split; [exact G3|]. split; [exact G4|].
  intros Hlt.
  destruct (cell_entry (a + 1) (N - 1) ltac:(lia) ltac:(lia))
    as (c' & Hc' & Ec' & _).
  set (j := cell_index N (a + 1) (N - 1)) in *.
  assert (S j <= k)%nat as Hjk by (unfold j, k, cell_index; nia).
  assert (k < length (cells N))%nat as Hk by (apply cell_index_lt; lia).
  assert (run_cout (run k) !! j = Some c') as Hj.
  { apply (cout_stable (S j)); [lia|lia|].
    rewrite Ec', lookup_app_r by (rewrite length_cout; lia).
    rewrite length_cout by lia. replace (j - j)%nat with 0%nat by lia. reflexivity. }
  destruct (table_holds k ltac:(lia) j (a + 1)%Z (N - 1)%Z c') as [T _].
  { apply lookup_cells; lia. }
  { exact Hj. }
  exists c'. split; [exact Hc'|]. split; [exact T|].
  destruct (G5 ltac:(lia)) as [E11 E22].
  unfold tab_get in E11, E22. rewrite T in E11, E22. cbn in E11, E22.
  split; assumption.
Qed.

(** The other cells: the first guess has the frame around the average
    direction, the anisotropic flag, and the scalars of the lobe as the cell
    before, [(a, t+1)], fitted it. *)
Lemma interior_guess (a t : Z) (c : CellLog Cache) :
  (0 <= a < N)%Z -> (0 <= t < N - 1)%Z ->
  run_cout final !! cell_index N a t = Some c ->
  log_isotropic c = false /\
  frame_around (log_averageDir c) (log_guess c) /\
  exists c' : CellLog Cache,
    run_cout final !! cell_index N a (t + 1) = Some c' /\
    cell_index N a t = S (cell_index N a (t + 1)) /\
    same_scalars (log_guess c) (log_fit c').
Proof.
  intros Ha Ht Hc.
  destruct (cell_entry a t Ha ltac:(lia))
    as (c0 & Hc0 & _ & _ & _ & _ & _ & _ & Ed & Eg & Ei & _).
  unfold final in Hc. rewrite Hc in Hc0. injection Hc0 as <-.
  destruct (cell_entry a (t + 1) Ha ltac:(lia))
    as (c' & Hc' & _ & _ & _ & _ & _ & _ & _ & _ & _ & _ & Ef' & _).
  assert (cell_index N a t = S (cell_index N a (t + 1))) as Ek
    by (unfold cell_index; nia).
  rewrite Ek in Eg, Ei.
  set (j := cell_index N a (t + 1)) in *.
  set (g := first_guess _ _ _ _ _ _ _) in *.
  destruct (first_guess_spec ops N a t
              (computeAverageDir brdf (cell_V N t) (cell_alpha N a))
              (run_tab (run (S j)))
              (assign (set_amplitude (computeNorm brdf (cell_V N t) (cell_alpha N a)))
                 (run_lobe (run (S j)))))
    as (_ & _ & _ & _ & Hg). fold g in Hg.
  destruct (Hg ltac:(lia)) as (G1 & G2 & G3).
  rewrite <- Eg in G2, G3. rewrite <- Ei in G1. rewrite <- Ed in G2.
  split; [exact G1|]. split; [exact G2|].
  exists c'. split; [exact Hc'|]. split; [exact Ek|].
  rewrite Ef'. exact G3.
Qed.

Lemma fmax_idem (x m : F) : fmax (fmax x m) m = fmax x m.
Proof.
  unfold fmax. destruct (fltb x m) eqn:E; [|rewrite E; reflexivity].
  destruct (fltb m m); reflexivity.
Qed.

Lemma mget_kill_useless_diag (m : mat3) :
  mget (kill_useless m) 0 0 = mget m 0 0 /\ mget (kill_useless m) 1 1 = mget m 1 1.
Proof. split; reflexivity. Qed.

(** What the column [t = N-1] stores: the matrix [update()] makes of the
    fitted scales, in the identity frame and without skew, with four entries
    cleared.  The fitted scales are equal and the floor leaves them as they
    are; they are the entries [0][0] and [1][1] stored when the matrix
    carries them on its diagonal. *)
Lemma grazing_stored (a : Z) (c : CellLog Cache) :
  (0 <= a < N)%Z ->
  run_cout final !! cell_index N a (N - 1) = Some c ->
  log_stored c = kill_useless (ltcM (log_fit c)) /\
  identity_frame (log_fit c) /\ isotropic_lobe (log_fit c) /\
  fmax (m11 (log_fit c)) MIN_ALPHA = m11 (log_fit c) /\
  fmax (m22 (log_fit c)) MIN_ALPHA = m22 (log_fit c) /\
  (diagonal_scales ops (m11 (log_fit c)) (m22 (log_fit c)) ->
   mget (log_stored c) 0 0 = m11 (log_fit c) /\
   mget (log_stored c) 1 1 = m22 (log_fit c)).
Proof.
  intros Ha Hc.
  destruct (grazing_guess a c Ha Hc) as (Hi & (GX & GY & GZ) & _).
  destruct (cell_fit a (N - 1) c Ha ltac:(lia) Hc)
    as (_ & _ & (FX & FY & FZ) & _ & Hup & (p & F11 & F22 & F13)).
  rewrite Hi in F22, F13.
  destruct (cell_entry a (N - 1) Ha ltac:(lia))
    as (c0 & Hc0 & _ & _ & _ & _ & _ & _ & _ & _ & _ & _ & _ & Es).
  unfold final in Hc. rewrite Hc in Hc0. injection Hc0 as <-.
  split; [exact Es|]. split; [repeat split; congruence|].
  split; [split; congruence|].
  split; [rewrite F11; apply fmax_idem|].
  split; [rewrite F22; apply fmax_idem|].
  intros [D0 D1].
  assert (ltcM (log_fit c) =
          lobe_matrix ops (m11 (log_fit c)) (m22 (log_fit c)) (of_int 0)
            (mkvec3 (of_int 1) (of_int 0) (of_int 0))
            (mkvec3 (of_int 0) (of_int 1) (of_int 0))
            (mkvec3 (of_int 0) (of_int 0) (of_int 1))) as EM.
  { rewrite (up_to_date_matrix ops _ Hup) at 1. congruence. }
  destruct (mget_kill_useless_diag (ltcM (log_fit c))) as [K0 K1].
  rewrite Es, K0, K1, EM. split; [exact D0|exact D1].
Qed.

(** C1: the first guess of every cell.  For [t = N-1] the frame is the
    identity, the fit is constrained isotropic and the skew is 0; the scales
    are 1 for [a = N-1], and otherwise [max(entry, MIN_ALPHA)] for the
    entries [0][0] and [1][1] of what the table holds at [a+1+t*N], stored
    there for the cell [(a+1, t)]: they are these entries themselves, and
    the scales that cell was fitted with, when the matrix [update()] made of
    those scales (which the floor leaves as they are) carries them on its
    diagonal.  For [t < N-1] the frame is built around the average
    direction, the fit is unconstrained, and [m11], [m22], [m13] are those
    the cell processed just before, [(a, t+1)], was fitted with. *)
Theorem warm_start (a t : Z) :
  (0 <= a < N)%Z -> (0 <= t < N)%Z ->
  exists c : CellLog Cache,
    run_cout final !! cell_index N a t = Some c /\
    log_a c = a /\ log_t c = t /\
    (t = N - 1 ->
       identity_frame (log_guess c) /\ log_isotropic c = true /\
       m13 (log_guess c) = of_int 0 /\
       (a = N - 1 -> m11 (log_guess c) = of_int 1 /\ m22 (log_guess c) = of_int 1) /\
       (a < N - 1 ->
        exists c' : CellLog Cache,
          run_cout final !! cell_index N (a + 1) t = Some c' /\
          log_a c' = a + 1 /\ log_t c' = t /\
          (cell_index N (a + 1) t < cell_index N a t)%nat /\
          run_tab (fitTab_upto ops NelderMead tab tabAmplitude N brdf ltc0
                     (cell_index N a t)) !! Z.to_nat (a + 1 + t * N)
            = Some (log_stored c') /\
          m11 (log_guess c) = fmax (mget (log_stored c') 0 0) MIN_ALPHA /\
          m22 (log_guess c) = fmax (mget (log_stored c') 1 1) MIN_ALPHA /\
          fmax (m11 (log_fit c')) MIN_ALPHA = m11 (log_fit c') /\
          fmax (m22 (log_fit c')) MIN_ALPHA = m22 (log_fit c') /\
          (diagonal_scales ops (m11 (log_fit c')) (m22 (log_fit c')) ->
           m11 (log_guess c) = mget (log_stored c') 0 0 /\
           m22 (log_guess c) = mget (log_stored c') 1 1 /\
           m11 (log_guess c) = m11 (log_fit c') /\
           m22 (log_guess c) = m22 (log_fit c'))))%Z /\
    (t < N - 1 ->
       frame_around (computeAverageDir brdf (log_V c) (log_alpha c)) (log_guess c) /\
       log_isotropic c = false /\
       exists c' : CellLog Cache,
         run_cout final !! cell_index N a (t + 1) = Some c' /\
         log_a c' = a /\ log_t c' = t + 1 /\
         cell_index N a t = S (cell_index N a (t + 1)) /\
         m11 (log_guess c) = m11 (log_fit c') /\
         m22 (log_guess c) = m22 (log_fit c') /\
         m13 (log_guess c) = m13 (log_fit c'))%Z.
Proof.
  intros Ha Ht.
  destruct (cell_entry a t Ha Ht) as (c & Hc & _ & E1 & E2 & E3 & _ & E5 & E6 & _).
  exists c. split; [exact Hc|]. split; [exact E1|]. split; [exact E2|]. split.
  - intros ->.
    destruct (grazing_guess a c Ha Hc) as (G1 & G2 & G3 & G4 & G5).
    split; [exact G2|]. split; [exact G1|]. split; [exact G3|]. split; [exact G4|].
    intros Hlt. destruct (G5 Hlt) as (c' & Hc' & T & E11 & E22).
    destruct (grazing_stored (a + 1) c' ltac:(lia) Hc')
      as (_ & _ & _ & M0 & M1 & HS).
    destruct (cell_entry (a + 1) (N - 1) ltac:(lia) ltac:(lia))
      as (c0 & Hc0 & _ & A1 & A2 & _).
    unfold final in Hc'. rewrite Hc' in Hc0. injection Hc0 as <-.
    exists c'. split; [exact Hc'|]. split; [exact A1|]. split; [exact A2|].
    split; [unfold cell_index; nia|]. split; [exact T|].
    split; [exact E11|]. split; [exact E22|]. split; [exact M0|]. split; [exact M1|].
    intros Hd. destruct (HS Hd) as [S0 S1].
    rewrite E11, E22, S0, S1, M0, M1. repeat split; reflexivity.
  - intros Hlt.
    destruct (interior_guess a t c Ha ltac:(lia) Hc) as (G1 & G2 & c' & Hc' & Ek & G3).
    rewrite E6 in G2. rewrite <- E5, <- E3 in G2.
    split; [exact G2|]. split; [exact G1|].
    destruct (cell_entry a (t + 1) Ha ltac:(lia))
      as (c0 & Hc0 & _ & A1 & A2 & _).
    unfold final in Hc'. rewrite Hc' in Hc0. injection Hc0 as <-.
    exists c'. split; [exact Hc'|]. split; [exact A1|]. split; [exact A2|].
    split; [exact Ek|]. exact G3.
Qed.

(** The calls of [update()] in one cell: one for the first guess, those of
    the optimizer's evaluations, and the last one of [fit].  When the
    optimizer only asks at points [P] and [FitLTC::update] at such points
    makes lobes [G], the lobes of the fit are all [G]. *)
Lemma cell_updates (P : float3 -> Prop) (G : LTC Cache -> Prop) (a t : Z)
    (c : CellLog Cache) :
  (0 <= a < N)%Z -> (0 <= t < N)%Z ->
  run_cout final !! cell_index N a t = Some c ->
  NM_all P (NelderMead
              (mkfloat3 (m11 (log_guess c)) (m22 (log_guess c)) (m13 (log_guess c)))
              (flit 5 100) (flit 1 100000) 100) ->
  (forall p s, P p ->
     G (ltc (FitLTC_update ops
               (mkFitLTC brdf (log_isotropic c) (log_V c) (log_alpha c)) p s))) ->
  exists news : list (LTC Cache),
    updates (run_lobe (run (S (cell_index N a t)))) =
      updates (run_lobe (run (cell_index N a t))) ++ [log_guess c] ++ news ++ [log_fit c] /\
    Forall G (news ++ [log_fit c]).
Proof.
  intros Ha Ht Hc Hall HG.
  destruct (cell_entry a t Ha Ht)
    as (c' & Hc' & _ & _ & _ & Eal & _ & EV & _ & Eg & Ei & Er & Ef & _).
  unfold final in Hc. rewrite Hc in Hc'. injection Hc' as <-.
  set (k := cell_index N a t) in *.
  set (g := first_guess _ _ _ _ _ _ _) in *.
  destruct (first_guess_spec ops N a t
              (computeAverageDir brdf (cell_V N t) (cell_alpha N a))
              (run_tab (run k))
              (assign (set_amplitude (computeNorm brdf (cell_V N t) (cell_alpha N a)))
                 (run_lobe (run k))))
    as (_ & _ & Gu & _). fold g in Gu. cbn [assign updates] in Gu.
  rewrite Eg in Hall. rewrite Ei, EV, Eal in HG.
  destruct (fit_spec ops NelderMead P G (fst g) brdf (cell_V N t) (cell_alpha N a)
              (flit 5 100) (snd g) Hall HG)
    as (_ & _ & _ & _ & news & Fu & Hn).
  rewrite <- Er in Fu, Hn. rewrite <- Ef in Fu, Hn.
  exists news. split; [|exact Hn].
  rewrite Fu, Gu, <- Eg, <- app_assoc. reflexivity.
Qed.

(** C3: for every roughness bucket [a], the cell [(a, N-1)] is fitted with
    the isotropic flag; every [update()] of its fit, the last one included,
    leaves [m22 = m11] and [m13 = 0], and so the fitted lobe has skew 0 and
    equal scales. *)
Theorem grazing_column_isotropic (a : Z) :
  (0 <= a < N)%Z ->
  exists c : CellLog Cache,
    run_cout final !! cell_index N a (N - 1) = Some c /\
    log_a c = a /\ log_t c = (N - 1)%Z /\
    log_isotropic c = true /\
    m13 (log_fit c) = of_int 0 /\
    m11 (log_fit c) = m22 (log_fit c) /\
    exists news : list (LTC Cache),
      updates (run_lobe (fitTab_upto ops NelderMead tab tabAmplitude N brdf ltc0
                           (S (cell_index N a (N - 1))))) =
        updates (run_lobe (fitTab_upto ops NelderMead tab tabAmplitude N brdf ltc0
                             (cell_index N a (N - 1))))
        ++ [log_guess c] ++ news ++ [log_fit c] /\
      Forall (fun l => m22 l = m11 l /\ m13 l = of_int 0) (news ++ [log_fit c]).
Proof.
  intros Ha.
  destruct (cell_entry a (N - 1) Ha ltac:(lia)) as (c & Hc & _ & E1 & E2 & _).
  destruct (grazing_guess a c Ha Hc) as (Hi & _).
  destruct (cell_updates (fun _ => True) (fun l => m22 l = m11 l /\ m13 l = of_int 0)
              a (N - 1) c Ha ltac:(lia) Hc) as (news & Eu & Hn).
  { apply NM_all_True. }
  { intros p s _. rewrite Hi.
    destruct (FitLTC_update_spec ops
                (mkFitLTC brdf true (log_V c) (log_alpha c)) p s)
      as (_ & _ & F11 & F22 & F13 & _).
    cbn [isotropic] in F22, F13. split; congruence. }
  exists c. split; [exact Hc|]. split; [exact E1|]. split; [exact E2|].
  split; [exact Hi|].
  assert (m22 (log_fit c) = m11 (log_fit c) /\ m13 (log_fit c) = of_int 0) as [I1 I2].
  { apply Forall_app in Hn. destruct Hn as [_ Hl].
    inversion Hl; subst. assumption. }
  split; [exact I2|]. split; [congruence|].
  exists news. split; [exact Eu|exact Hn].
Qed.

Section Floor.
(** [good]: a scale the floor lets stand. *)
Variable good : F -> Prop.
Hypothesis good_one : good (of_int 1).
Hypothesis good_floor : forall x, good (fmax x MIN_ALPHA).




End Floor.
End Traversal.

(** ** IEEE-754 facts *)

Module IEEEFacts.
Import IEEE.

Lemma SFcompare_antisym (x y : spec_float) :
  SFcompare y x = option_map CompOpp (SFcompare x y).
Proof.
  destruct x as [sx|sx| |sx mx ex], y as [sy|sy| |sy my ey]; cbn;
    try destruct sx; try destruct sy; try reflexivity;
    rewrite (Z.compare_antisym ex ey); destruct (ex ?= ey)%Z; cbn; try reflexivity;
    rewrite (Pos.compare_cont_antisym mx my Eq); reflexivity.
Qed.

(** Among numbers, [not (x < y)] is [y <= x]. *)
Lemma SFltb_false_SFleb (x y : spec_float) :
  is_nan x = false -> is_nan y = false -> SFltb x y = false -> SFleb y x = true.
Proof.
  intros Hx Hy. unfold SFltb, SFleb. rewrite (SFcompare_antisym x y).
  destruct (SFcompare x y) as [[]|] eqn:E; cbn; try congruence.
  destruct x, y; cbn in *; congruence.
Qed.

Lemma SFltb_SFleb (x y : spec_float) : SFltb x y = true -> SFleb x y = true.
Proof. unfold SFltb, SFleb. destruct (SFcompare x y) as [[]|]; congruence. Qed.

Lemma SFleb_not_nan (x y : spec_float) :
  SFleb x y = true -> is_nan x = false /\ is_nan y = false.
Proof. destruct x, y; cbn; intros E; split; congruence. Qed.

(** [0 <= x] and not [0 < x] leaves [x] a zero. *)
Lemma nonneg_not_pos_zero (x : spec_float) :
  SFleb (S754_zero false) x = true -> SFltb (S754_zero false) x = false ->
  is_zero x = true.
Proof. destruct x as [s|[]| |[] m e]; cbn; congruence. Qed.

Lemma is_zero_SFadd (prec emax : Z) (x y : spec_float) :
  is_zero x = true -> is_zero y = true -> is_zero (SFadd prec emax x y) = true.
Proof. destruct x as [[]| | |], y as [[]| | |]; cbn; congruence. Qed.

Lemma is_zero_convert (prec emax : Z) (x : spec_float) :
  is_zero x = true -> is_zero (convert prec emax x) = true.
Proof. destruct x; cbn; congruence. Qed.

(** Division by a zero never gives a finite number. *)
Lemma SFdiv_by_zero (prec emax : Z) (x y : spec_float) :
  is_zero y = true -> is_finite (SFdiv prec emax x y) = false.
Proof. destruct x, y; cbn; congruence. Qed.

(** A sum is finite only if both terms are. *)
Lemma SFadd_finite_inv (prec emax : Z) (x y : spec_float) :
  is_finite (SFadd prec emax x y) = true -> is_finite x = true /\ is_finite y = true.
Proof.
  destruct x as [sx|[]| |sx mx ex], y as [sy|[]| |sy my ey];
    try (intros _; split; reflexivity); cbn; intros E; discriminate.
Qed.

Lemma convert_finite_inv (prec emax : Z) (x : spec_float) :
  is_finite (convert prec emax x) = true -> is_finite x = true.
Proof. destruct x; cbn; congruence. Qed.

(** A quotient by a finite number is finite only if the dividend is. *)
Lemma SFdiv_finite_inv (prec emax : Z) (x y : spec_float) :
  is_finite y = true -> is_finite (SFdiv prec emax x y) = true -> is_finite x = true.
Proof.
  destruct x as [sx|sx| |sx mx ex], y as [sy|sy| |sy my ey];
    try (intros _ _; reflexivity); cbn; congruence.
Qed.

Lemma fold_SFadd_finite_inv (prec emax : Z) (l : list spec_float) (init : spec_float) :
  is_finite (fold_left (SFadd prec emax) l init) = true ->
  is_finite init = true /\ forall x, In x l -> is_finite x = true.
Proof.
  revert init. induction l as [|y l IH]; intros init Hf.
  - split; [exact Hf|]. intros x [].
  - cbn [fold_left] in Hf. destruct (IH _ Hf) as [Hi Hl].
    apply SFadd_finite_inv in Hi. destruct Hi as [Hi Hy].
    split; [exact Hi|]. intros x [<-|Hx]; [exact Hy|apply Hl, Hx].
Qed.

(** *** Rounding never makes a NaN *)

Lemma shr_1_nonneg (mrs : shr_record) : 0 <= shr_m mrs -> 0 <= shr_m (shr_1 mrs).
Proof. destruct mrs as [[|[p|p|]|p] r s]; cbn; lia. Qed.

Lemma iter_shr_1_nonneg (p : positive) :
  forall mrs, 0 <= shr_m mrs -> 0 <= shr_m (SpecFloat.iter_pos shr_1 p mrs).
Proof.
  induction p as [p IH|p IH|]; intros mrs Hm; cbn.
  - apply IH, IH, shr_1_nonneg, Hm.
  - apply IH, IH, Hm.
  - apply shr_1_nonneg, Hm.
Qed.

Lemma shr_fexp_nonneg (prec emax m e : Z) (l : location) :
  0 <= m -> 0 <= shr_m (fst (shr_fexp prec emax m e l)).
Proof.
  intros Hm. unfold shr_fexp, shr.
  assert (shr_m (shr_record_of_loc m l) = m) as E by (destruct l as [|[]]; reflexivity).
  destruct (fexp prec emax (Zdigits2 m + e) - e) as [|p|p]; cbn [fst]; rewrite ?E; try lia.
  apply iter_shr_1_nonneg. rewrite E. exact Hm.
Qed.

Lemma round_nearest_even_nonneg (m : Z) (l : location) :
  0 <= m -> 0 <= round_nearest_even m l.
Proof. intros Hm. destruct l as [|[]]; cbn; try destruct (Z.even m); lia. Qed.

(** Rounding a non-negative mantissa never makes a NaN. *)
Lemma binary_round_aux_not_nan (prec emax : Z) (s : bool) (m e : Z) (l : location) :
  0 <= m -> is_nan (binary_round_aux prec emax s m e l) = false.
Proof.
  intros Hm. unfold binary_round_aux.
  pose proof (shr_fexp_nonneg prec emax m e l Hm) as H1.
  destruct (shr_fexp prec emax m e l) as [mrs' e']. cbn [fst] in H1.
  pose proof (shr_fexp_nonneg prec emax
                (round_nearest_even (shr_m mrs') (loc_of_shr_record mrs')) e' loc_Exact
                (round_nearest_even_nonneg _ _ H1)) as H2.
  destruct (shr_fexp prec emax _ e' loc_Exact) as [mrs'' e'']. cbn [fst] in H2.
  destruct (shr_m mrs'') as [|p|p]; [reflexivity| |lia].
  destruct (e'' <=? emax - prec); reflexivity.
Qed.

Lemma SFmul_not_nan_square (prec emax : Z) (x : spec_float) :
  is_nan x = false -> is_nan (SFmul prec emax x x) = false.
Proof.
  destruct x as [s|s| |s m e]; cbn [SFmul is_nan]; try congruence.
  intros _. apply binary_round_aux_not_nan. lia.
Qed.

Lemma SFdiv_core_nonneg (prec emax : Z) (m1 m2 : positive) (e1 e2 : Z) :
  0 <= fst (fst (SFdiv_core_binary prec emax (Zpos m1) e1 (Zpos m2) e2)).
Proof.
  unfold SFdiv_core_binary.
  set (m' := match _ - _ - _ with Z0 => _ | Zpos _ => _ | Zneg _ => _ end).
  assert (0 <= m') as Hm'.
  { subst m'. destruct (_ - _ - _) as [|p|p]; try lia. apply Z.shiftl_nonneg. lia. }
  pose proof (Z_div_mod m' (Zpos m2) ltac:(lia)) as Hd.
  destruct (Z.div_eucl m' (Zpos m2)) as [q r]. cbn [fst]. nia.
Qed.

(** A number over a finite number that is not zero is not NaN. *)
Lemma SFdiv_not_nan (prec emax : Z) (x : spec_float) (s : bool) (m : positive) (e : Z) :
  is_nan x = false -> is_nan (SFdiv prec emax x (S754_finite s m e)) = false.
Proof.
  destruct x as [sx|sx| |sx mx ex]; cbn [SFdiv is_nan]; try congruence; intros _.
  pose proof (SFdiv_core_nonneg prec emax mx m ex e) as Hq.
  destruct (SFdiv_core_binary prec emax (Zpos mx) ex (Zpos m) e) as [[mz ez] lz].
  cbn [fst] in Hq. apply binary_round_aux_not_nan. exact Hq.
Qed.

Lemma binary_normalize_not_nan (prec emax m e : Z) (s : bool) :
  is_nan (binary_normalize prec emax m e s) = false.
Proof.
  destruct m as [|p|p]; cbn [binary_normalize]; [reflexivity| |];
    unfold binary_round; destruct (shl_align _ _ _) as [mz ez];
    apply binary_round_aux_not_nan; lia.
Qed.

(** Powers of two and the number of binary digits. *)
Lemma digits2_pos_lower (m : positive) :
  2 ^ (Zpos (digits2_pos m) - 1) <= Zpos m.
Proof.
  induction m as [p IH|p IH|]; cbn [digits2_pos]; [| |cbn; lia];
    rewrite Pos2Z.inj_succ;
    replace (Z.succ (Zpos (digits2_pos p)) - 1) with (Z.succ (Zpos (digits2_pos p) - 1)) by lia;
    rewrite Z.pow_succ_r by lia; lia.
Qed.

Lemma digits2_pos_iter_xO (k m : positive) :
  digits2_pos (Pos.iter xO m k) = (digits2_pos m + k)%positive.
Proof.
  induction k as [|k IH] using Pos.peano_ind.
  - cbn. lia.
  - rewrite Pos.iter_succ. cbn [digits2_pos]. rewrite IH. lia.
Qed.

(** An integer from 1 to [2^24 - 1] converts to a finite [float] that is not
    zero. *)
Lemma f32_of_small_pos (z : Z) :
  1 <= z < 2 ^ 24 ->
  exists (m : positive) (e : Z), binary_normalize 24 128 z 0 false = S754_finite false m e.
Proof.
  intros Hz. destruct z as [|p|p]; try lia.
  cbn [binary_normalize]. unfold binary_round.
  assert (Zpos (digits2_pos p) <= 24) as Hd.
  { destruct (Z.le_gt_cases (Zpos (digits2_pos p)) 24) as [Hle|Hgt]; [exact Hle|exfalso].
    pose proof (digits2_pos_lower p) as Hl.
    assert (2 ^ 24 <= 2 ^ (Zpos (digits2_pos p) - 1)) by (apply Z.pow_le_mono_r; lia).
    lia. }
  set (d := digits2_pos p) in *.
  assert (fexp 24 128 (Zpos d + 0) = Zpos d - 24) as Ef.
  { unfold fexp, emin. lia. }
  rewrite Ef.
  assert (exists mz, shl_align p 0 (Zpos d - 24) = (mz, Zpos d - 24) /\ digits2_pos mz = 24%positive)
    as (mz & Es & Edm).
  { unfold shl_align. destruct (Zpos d - 24 - 0) as [|k|k] eqn:Ek; try lia.
    - exists p. split; [f_equal; lia|]. fold d. lia.
    - exists (Pos.iter xO p k). split; [reflexivity|].
      rewrite digits2_pos_iter_xO. fold d. lia. }
  rewrite Es. unfold binary_round_aux, shr_fexp. cbn [Zdigits2]. rewrite Edm.
  assert (fexp 24 128 (24 + (Zpos d - 24)) - (Zpos d - 24) = 0) as E0.
  { unfold fexp, emin. lia. }
  rewrite E0. cbn [shr shr_record_of_loc shr_m loc_of_shr_record round_nearest_even Zdigits2].
  rewrite Edm, E0. cbn [shr shr_record_of_loc shr_m].
  assert ((Zpos d - 24 <=? 128 - 24) = true) as -> by (apply Z.leb_le; lia).
  eexists _, _. reflexivity.
Qed.

Section Float32.
Variable lm : libm.
#[local] Instance float32 : Scalar := binary32 lm.

Let floor : f32 := @MIN_ALPHA float32.
Let max_floor (x : f32) : f32 := @fmax float32 x floor.

Lemma MIN_ALPHA_value : floor = S754_finite false 13743895 (-37).
Proof. reflexivity. Qed.

Lemma one_value : @of_int float32 1 = S754_finite false 8388608 (-23).
Proof. reflexivity. Qed.

Lemma zero_value : @of_int float32 0 = S754_zero false.
Proof. reflexivity. Qed.


(** [std::max(x, MIN_ALPHA)] is at least [MIN_ALPHA] unless [x] is NaN. *)
Lemma floor_applies (x : f32) : is_nan x = false -> fle floor (max_floor x).
Proof.
  intros Hx. unfold max_floor, fmax, fle. cbn [fltb float32 binary32].
  destruct (SFltb x floor) eqn:E; [reflexivity|].
  apply SFltb_false_SFleb; [exact Hx|reflexivity|exact E].
Qed.

(** A NaN passes [std::max(x, MIN_ALPHA)] unchanged. *)
Lemma floor_misses_nan : max_floor S754_nan = S754_nan.
Proof. reflexivity. Qed.

Lemma above_floor_not_nan (x : f32) : fle floor x -> is_nan x = false.
Proof. intros E. apply SFleb_not_nan in E. apply E. Qed.

(** On a grid of at least 2 x 2 cells (and less than [2^24] a side, so that
    [N-1] is a [float]) the angle of a cell is at most 1.57 and its roughness
    at least [MIN_ALPHA], whatever [acosf] returns. *)
Lemma cell_bounds (N a t : Z) :
  (2 <= N <= 2 ^ 24)%Z ->
  fle (@cell_theta float32 N t) (@flit float32 157 100) /\
  fle floor (@cell_alpha float32 N a).
Proof.
  intros HN. split.
  - unfold cell_theta, fmin, fle. cbn [fltb float32 binary32].
    destruct (SFltb _ _) eqn:E; [apply SFltb_SFleb; exact E|reflexivity].
  - unfold cell_alpha. apply floor_applies.
    cbn [fmul fdiv of_int float32 binary32]. apply SFmul_not_nan_square.
    destruct (f32_of_small_pos (N - 1) ltac:(lia)) as (m & e & E).
    unfold f32_of_Z at 2. unfold prec32, emax32. rewrite E.
    apply SFdiv_not_nan. apply binary_normalize_not_nan.
Qed.

Context {Cache : Type}.
Variable ops : LobeOps Cache.
Variable NelderMead : Optimizer.
Variable tab : list mat3.
Variable tabAmplitude : list vec2.
Variable N : Z.
Variable brdf : Brdf.
Variable ltc0 : LTC Cache.



(** The angle and the roughness every cell of a grid of at least 2 x 2 cells
    is fitted with: at most 1.57, at least [MIN_ALPHA]. *)
Lemma cell_angle_and_roughness_bounds (a t : Z) :
  length tab = Z.to_nat (N * N) ->
  length tabAmplitude = Z.to_nat (N * N) ->
  (2 <= N <= 2 ^ 24)%Z -> (0 <= a < N)%Z -> (0 <= t < N)%Z ->
  exists c : CellLog Cache,
    run_cout (fitTab ops NelderMead tab tabAmplitude N brdf ltc0) !! cell_index N a t
      = Some c /\
    fle (log_theta c) (@flit float32 157 100) /\ fle floor (log_alpha c).
Proof.
  intros L1 L2 HN Ha Ht.
  destruct (cell_entry ops NelderMead tab tabAmplitude N brdf ltc0 L1 L2 a t Ha Ht)
    as (c & Hc & _ & _ & _ & Eal & Eth & _).
  exists c. split; [exact Hc|]. rewrite Eal, Eth. apply cell_bounds. exact HN.
Qed.

Lemma cell_center_in_grid (i j : Z) :
  (0 <= i < Nsample)%Z -> (0 <= j < Nsample)%Z ->
  In (@cell_center float32 i j) stratified_grid.
Proof.
  intros Hi Hj. unfold stratified_grid. apply in_flat_map. exists j.
  split; [apply In_range; exact Hj|].
  apply (in_map (fun i => cell_center i j)). apply In_range. exact Hi.
Qed.

Lemma sample_count_value :
  @of_int float32 (Nsample * Nsample) = S754_finite false 8388608 (-13).
Proof. reflexivity. Qed.

(** One contribution that is not finite makes the error not finite. *)
Lemma poisoned_sum (contributions : list f64) (bad : f64) (count : f32) :
  In bad contributions -> is_finite bad = false -> is_finite count = true ->
  is_finite
    (SFdiv prec32 emax32
       (convert prec32 emax32
          (fold_left (SFadd prec64 emax64) contributions (S754_zero false)))
       count) = false.
Proof.
  intros Hin Hbad Hcount.
  destruct (is_finite (SFdiv prec32 emax32 _ count)) eqn:Hf; [exfalso|reflexivity].
  apply (SFdiv_finite_inv prec32 emax32) in Hf; [|exact Hcount].
  apply convert_finite_inv in Hf.
  apply (fold_SFadd_finite_inv prec64 emax64) in Hf. destruct Hf as [_ Hall].
  rewrite (Hall bad Hin) in Hbad. discriminate.
Qed.

Lemma computeError_float (l : LTC Cache) (V : vec3) (alpha : f32) :
  computeError ops l brdf V alpha =
  SFdiv prec32 emax32
    (convert prec32 emax32
       (fold_left (SFadd prec64 emax64) (error_contributions ops l brdf V alpha)
          (S754_zero false)))
    (@of_int float32 (Nsample * Nsample)).
Proof. unfold computeError. rewrite accumulateError_sum. reflexivity. Qed.

Lemma mis_contribution_float (l : LTC Cache) (V : vec3) (alpha : f32) (L : vec3) :
  mis_contribution ops l brdf V alpha L =
  SFdiv prec64 emax64
    (let difference :=
       convert prec64 emax64
         (SFabs (SFsub prec32 emax32 (fst (brdf_eval brdf V L alpha)) (ltc_eval ops l L))) in
     SFmul prec64 emax64 (SFmul prec64 emax64 difference difference) difference)
    (convert prec64 emax64
       (SFadd prec32 emax32 (pdf_ltc_at ops l L) (pdf_brdf_at brdf V alpha L))).
Proof. reflexivity. Qed.

(** A direction at which both densities are zero makes the error not
    finite. *)
Lemma zero_densities_poison (l : LTC Cache) (V : vec3) (alpha : f32) (i j : Z) (L : vec3) :
  (0 <= i < Nsample)%Z -> (0 <= j < Nsample)%Z ->
  In L (drawn_directions ops l brdf V alpha (cell_center i j)) ->
  is_zero (pdf_ltc_at ops l L) = true -> is_zero (pdf_brdf_at brdf V alpha L) = true ->
  is_finite (computeError ops l brdf V alpha) = false.
Proof.
  intros Hi Hj HL Z1 Z2. rewrite computeError_float.
  apply (poisoned_sum _ (mis_contribution ops l brdf V alpha L)).
  - unfold error_contributions. apply in_flat_map.
    exists (cell_center i j). split; [apply cell_center_in_grid; assumption|].
    apply in_map. exact HL.
  - rewrite mis_contribution_float. apply SFdiv_by_zero.
    apply is_zero_convert. apply is_zero_SFadd; assumption.
  - rewrite sample_count_value. reflexivity.
Qed.

(** C10: each contribution to the error is a quotient by
    [pdf_ltc + pdf_brdf], with no test on the divisor, for the direction drawn
    from the lobe as for the one drawn from the model; and the error is a
    finite number only if, at every drawn direction where the two densities
    are non-negative, one of them is strictly positive. *)
Theorem computeError_needs_positive_density (l : LTC Cache) (V : vec3) (alpha : f32) :
  is_finite (computeError ops l brdf V alpha) = true ->
  (forall L : vec3,
     mis_contribution ops l brdf V alpha L =
     SFdiv prec64 emax64
       (let difference :=
          convert prec64 emax64
            (SFabs (SFsub prec32 emax32 (fst (brdf_eval brdf V L alpha)) (ltc_eval ops l L))) in
        SFmul prec64 emax64 (SFmul prec64 emax64 difference difference) difference)
       (convert prec64 emax64
          (SFadd prec32 emax32 (pdf_ltc_at ops l L) (pdf_brdf_at brdf V alpha L)))) /\
  forall (i j : Z) (L : vec3),
    (0 <= i < Nsample)%Z -> (0 <= j < Nsample)%Z ->
    L = ltc_sample ops l (fst (cell_center i j)) (snd (cell_center i j)) \/
    L = brdf_sample brdf V alpha (fst (cell_center i j)) (snd (cell_center i j)) ->
    fle (of_int 0) (pdf_ltc_at ops l L) ->
    fle (of_int 0) (pdf_brdf_at brdf V alpha L) ->
    flt (of_int 0) (pdf_ltc_at ops l L) \/ flt (of_int 0) (pdf_brdf_at brdf V alpha L).
Proof.
  intros Hf. split; [apply mis_contribution_float|].
  intros i j L Hi Hj HL P1 P2. unfold flt.
  destruct (SFltb (@of_int float32 0) (pdf_ltc_at ops l L)) eqn:E1; [left; reflexivity|].
  destruct (SFltb (@of_int float32 0) (pdf_brdf_at brdf V alpha L)) eqn:E2;
    [right; reflexivity|].
  exfalso.
  rewrite (zero_densities_poison l V alpha i j L Hi Hj) in Hf; [discriminate| | |].
  - unfold drawn_directions. destruct HL as [->| ->]; [left|right; left]; reflexivity.
  - apply nonneg_not_pos_zero; assumption.
  - apply nonneg_not_pos_zero; assumption.
Qed.

Lemma cells_one : cells 1 = [(0, 0)%Z].
Proof. reflexivity. Qed.

Lemma single_cell_alpha : is_nan (@cell_alpha float32 1 0) = true.
Proof. reflexivity. Qed.

(** The one line printed on the one-cell grid. *)
Lemma single_cell_line :
  length tab = 1%nat -> length tabAmplitude = 1%nat ->
  exists c : CellLog Cache,
    run_cout (fitTab ops NelderMead tab tabAmplitude 1 brdf ltc0) = [c] /\
    log_a c = 0%Z /\ log_t c = 0%Z /\
    log_alpha c = @cell_alpha float32 1 0 /\ log_theta c = @cell_theta float32 1 0.
Proof.
  intros L1 L2.
  destruct (cell_entry ops NelderMead tab tabAmplitude 1 brdf ltc0 L1 L2 0 0
              ltac:(lia) ltac:(lia))
    as (c & Hc & _ & E1 & E2 & E3 & E4 & _).
  pose proof (length_final_cout ops NelderMead tab tabAmplitude 1 brdf ltc0 L1 L2) as Hl.
  rewrite cells_one in Hl. cbn [length] in Hl.
  change (cell_index 1 0 0) with 0%nat in Hc.
  exists c. split.
  { destruct (run_cout _) as [|c0 [|c1 cs]]; cbn in Hl, Hc; try discriminate.
    injection Hc as ->. reflexivity. }
  repeat split; assumption.
Qed.

(** C9, as amended: for [N = 1] the driver visits the one cell [(0, 0)] and
    fills the one-cell table; the quotients [t/(N-1)] and [a/(N-1)] are
    [0/0], not numbers: [alpha] is NaN, since [std::max] lets a NaN through,
    and [theta] is [min(1.57, acosf(NaN))], which is 1.57 when [acosf(NaN)]
    is NaN; the first guess is the unit isotropic lobe. *)
Theorem single_cell_grid :
  length tab = 1%nat -> length tabAmplitude = 1%nat ->
  exists c : CellLog Cache,
    run_cout (fitTab ops NelderMead tab tabAmplitude 1 brdf ltc0) = [c] /\
    log_a c = 0%Z /\ log_t c = 0%Z /\
    is_nan (SFdiv prec32 emax32 (f32_of_Z 0) (f32_of_Z (1 - 1))) = true /\
    is_nan (log_alpha c) = true /\
    log_theta c = fmin (flit 157 100) (libm_acosf lm S754_nan) /\
    (is_nan (libm_acosf lm S754_nan) = true -> log_theta c = flit 157 100) /\
    log_isotropic c = true /\ identity_frame (log_guess c) /\
    m11 (log_guess c) = of_int 1 /\ m22 (log_guess c) = of_int 1 /\
    m13 (log_guess c) = of_int 0 /\
    run_tab (fitTab ops NelderMead tab tabAmplitude 1 brdf ltc0) = [log_stored c] /\
    run_tabAmplitude (fitTab ops NelderMead tab tabAmplitude 1 brdf ltc0) =
      [mkvec2 (amplitude (log_fit c)) (of_int 0)].
Proof.
  intros L1 L2.
  destruct (cell_entry ops NelderMead tab tabAmplitude 1 brdf ltc0 L1 L2 0 0
              ltac:(lia) ltac:(lia))
    as (c & Hc & _ & E1 & E2 & E3 & E4 & _).
  destruct (grazing_guess ops NelderMead tab tabAmplitude 1 brdf ltc0 L1 L2 0 c
              ltac:(lia) Hc) as (G1 & G2 & G3 & G4 & _).
  destruct (G4 eq_refl) as [G41 G42].
  pose proof (length_final_cout ops NelderMead tab tabAmplitude 1 brdf ltc0 L1 L2) as Hl.
  pose proof (table_holds ops NelderMead tab tabAmplitude 1 brdf ltc0 L1 L2 1
                ltac:(rewrite cells_one; cbn; lia) 0 0%Z 0%Z c eq_refl) as Ht.
  pose proof (length_run ops NelderMead tab tabAmplitude 1 brdf ltc0 1) as [R1 R2].
  rewrite fitTab_all_cells in *. rewrite cells_one in *. cbn [length] in *.
  change (cell_index 1 0 0) with 0%nat in Hc.
  destruct (Ht Hc) as [T1 T2].
  exists c. split.
  { destruct (run_cout _) as [|c0 [|c1 cs]]; cbn in Hl, Hc; try discriminate.
    injection Hc as ->. reflexivity. }
  split; [exact E1|]. split; [exact E2|]. split; [reflexivity|].
  split; [rewrite E3; exact single_cell_alpha|].
  split; [exact E4|]. split.
  { intros Hn. rewrite E4. unfold cell_theta, fmin.
    change (acosf (of_int 0 / of_int (1 - 1))%fl) with (libm_acosf lm S754_nan).
    destruct (libm_acosf lm S754_nan); try discriminate. reflexivity. }
  split; [exact G1|]. split; [exact G2|]. split; [exact G41|]. split; [exact G42|].
  split; [exact G3|]. split.
  - rewrite L1 in R1. destruct (run_tab _) as [|m0 [|m1 ms]]; cbn in R1, T1; try discriminate.
    injection T1 as ->. reflexivity.
  - rewrite L2 in R2.
    destruct (run_tabAmplitude _) as [|m0 [|m1 ms]]; cbn in R2, T2; try discriminate.
    injection T2 as ->. reflexivity.
Qed.
End Float32.
End IEEEFacts.

(** ** Two runs *)

Section Determinism.
Context `{Scalar}.
Context {Cache : Type}.
Variable ops : LobeOps Cache.
Variable NelderMead : Optimizer.
Local Open Scope fl_scope.

Section Models.
Variables brdf brdf' : Brdf.
Hypothesis same : same_on_grid brdf brdf'.

Lemma computeNorm_same (V : vec3) (alpha : F) :
  computeNorm brdf V alpha = computeNorm brdf' V alpha.
Proof.
  rewrite !computeNorm_sum. do 2 f_equal. apply map_ext_in. intros u Hu.
  destruct same as [Hs He]. unfold norm_contribution.
  rewrite (Hs V alpha u Hu), !He. reflexivity.
Qed.

Lemma computeAverageDir_same (V : vec3) (alpha : F) :
  computeAverageDir brdf V alpha = computeAverageDir brdf' V alpha.
Proof.
  unfold computeAverageDir. rewrite !accumulateDir_sum. do 3 f_equal.
  apply map_ext_in. intros u Hu.
  destruct same as [Hs He]. unfold dir_contribution.
  rewrite (Hs V alpha u Hu), !He. reflexivity.
Qed.

Lemma computeError_same (l : LTC Cache) (V : vec3) (alpha : F) :
  computeError ops l brdf V alpha = computeError ops l brdf' V alpha.
Proof.
  unfold computeError. rewrite !accumulateError_sum. do 3 f_equal.
  unfold error_contributions. rewrite !flat_map_concat_map. f_equal.
  apply map_ext_in. intros u Hu. destruct same as [Hs He].
  unfold drawn_directions, mis_contribution, pdf_brdf_at. cbn [map].
  rewrite (Hs V alpha u Hu), !He. reflexivity.
Qed.

Lemma NM_run_same (nm : NM) (f g : float3 -> Lobe Cache -> F * Lobe Cache) (s : Lobe Cache) :
  (forall p s, f p s = g p s) -> NM_run nm f s = NM_run nm g s.
Proof.
  intros E. revert s. induction nm as [p e|p k IH]; intros s; [reflexivity|].
  cbn. rewrite E. destruct (g p s) as [e s']. apply IH.
Qed.

Lemma fit_same (s : Lobe Cache) (V : vec3) (alpha epsilon : F) (iso : bool) :
  fit ops NelderMead s brdf V alpha epsilon iso =
  fit ops NelderMead s brdf' V alpha epsilon iso.
Proof.
  unfold fit.
  rewrite (NM_run_same _ (FitLTC_call ops (mkFitLTC brdf iso V alpha))
             (FitLTC_call ops (mkFitLTC brdf' iso V alpha))).
  - destruct (NM_run _ _ _) as [[p e] s']. reflexivity.
  - intros p s'. unfold FitLTC_call. cbn [fit_brdf fit_V fit_alpha].
    rewrite computeError_same. reflexivity.
Qed.

Lemma fitTab_cell_same (N a t : Z) (r : Run Cache) :
  fitTab_cell ops NelderMead N brdf a t r = fitTab_cell ops NelderMead N brdf' a t r.
Proof.
  unfold fitTab_cell. rewrite computeNorm_same, computeAverageDir_same.
  destruct (first_guess _ _ _ _ _ _ _) as [s iso]. rewrite fit_same. reflexivity.
Qed.

Lemma fitTab_same (tab : list mat3) (tabAmplitude : list vec2) (N : Z) (ltc0 : LTC Cache) :
  fitTab ops NelderMead tab tabAmplitude N brdf ltc0 =
  fitTab ops NelderMead tab tabAmplitude N brdf' ltc0.
Proof.
  unfold fitTab. apply for_each_ext. intros a r. apply for_each_ext. intros t r'.
  apply fitTab_cell_same.
Qed.
End Models.

Lemma CellLog_eq (c c' : CellLog Cache) :
  log_a c = log_a c' -> log_t c = log_t c' -> log_alpha c = log_alpha c' ->
  log_theta c = log_theta c' -> log_V c = log_V c' ->
  log_averageDir c = log_averageDir c' -> log_guess c = log_guess c' ->
  log_isotropic c = log_isotropic c' -> log_fit c = log_fit c' ->
  log_stored c = log_stored c' -> c = c'.
Proof. destruct c, c'; cbn; intros; subst; reflexivity. Qed.

(** The first guess of the first cell depends on the lobe through its
    amplitude alone, and not on the table. *)
Lemma first_guess_corner (N : Z) (averageDir : vec3) (tab tab' : list mat3)
    (s s' : Lobe Cache) :
  amplitude (ltc s) = amplitude (ltc s') -> updates s = updates s' ->
  first_guess ops N (N - 1) (N - 1) averageDir tab s =
  first_guess ops N (N - 1) (N - 1) averageDir tab' s'.
Proof.
  intros Ea Eu. unfold first_guess. rewrite Z.eqb_refl.
  unfold ltc_update, assign, recompute. cbn. rewrite Ea, Eu. reflexivity.
Qed.

(** The first guess depends on the table through the one entry it reads. *)
Lemma first_guess_table (N a t : Z) (averageDir : vec3) (tab tab' : list mat3)
    (s : Lobe Cache) :
  (t = N - 1 -> a <> N - 1 ->
   tab_get tab (a + 1 + t * N) = tab_get tab' (a + 1 + t * N))%Z ->
  first_guess ops N a t averageDir tab s = first_guess ops N a t averageDir tab' s.
Proof.
  intros E. unfold first_guess.
  destruct (Z.eqb_spec t (N - 1)%Z) as [Et|Et]; [|reflexivity].
  destruct (Z.eqb_spec a (N - 1)%Z) as [Ea|Ea]; [reflexivity|].
  rewrite (E Et Ea). reflexivity.
Qed.

Section Memory.
Variables tab tab' : list mat3.
Variables tabAmplitude tabAmplitude' : list vec2.
Variable N : Z.
Variable brdf : Brdf.
Variables ltc0 ltc0' : LTC Cache.
Hypothesis length_tab : length tab = Z.to_nat (N * N).
Hypothesis length_tab' : length tab' = Z.to_nat (N * N).
Hypothesis length_tabAmplitude : length tabAmplitude = Z.to_nat (N * N).
Hypothesis length_tabAmplitude' : length tabAmplitude' = Z.to_nat (N * N).

Local Abbreviation run k := (fitTab_upto ops NelderMead tab tabAmplitude N brdf ltc0 k).
Local Abbreviation run' k := (fitTab_upto ops NelderMead tab' tabAmplitude' N brdf ltc0' k).

(** Once a cell is done, the lobe and the output no longer tell the two
    runs apart. *)
Lemma runs_agree (k : nat) :
  (1 <= k <= length (cells N))%nat ->
  run_lobe (run k) = run_lobe (run' k) /\ run_cout (run k) = run_cout (run' k).
Proof.
  induction k as [|k IH]; intros Hk; [lia|].
  destruct (lookup_lt_is_Some_2 (cells N) k) as [[a t] Hck]; [lia|].
  destruct (cells_lookup_inv N k a t Hck) as (Ha & Ht & Ek).
  destruct (run_step ops NelderMead tab tabAmplitude N brdf ltc0
              length_tab length_tabAmplitude k a t Hck)
    as (c & Ec & A1 & A2 & A3 & A4 & A5 & A6 & A7 & A8 & A9 & A10 & A11 & _).
  destruct (run_step ops NelderMead tab' tabAmplitude' N brdf ltc0'
              length_tab' length_tabAmplitude' k a t Hck)
    as (c' & Ec' & B1 & B2 & B3 & B4 & B5 & B6 & B7 & B8 & B9 & B10 & B11 & _).
  set (g := first_guess _ _ _ _ _ (run_tab (run k)) _) in *.
  set (g' := first_guess _ _ _ _ _ (run_tab (run' k)) _) in *.
  assert (run_cout (run k) = run_cout (run' k) /\ g = g') as [Eco Eg].
  { destruct k as [|k].
    - split; [reflexivity|].
      assert (a = N - 1 /\ t = N - 1)%Z as [-> ->]
        by (unfold cell_index in Ek; nia).
      apply first_guess_corner; reflexivity.
    - destruct (IH ltac:(lia)) as [El Eco]. split; [exact Eco|].
      unfold g, g'. rewrite <- El. apply first_guess_table. intros -> Hne.
      assert (cells N !! cell_index N (a + 1) (N - 1) = Some (a + 1, N - 1)%Z) as Hj
        by (apply lookup_cells; lia).
      assert (cell_index N (a + 1) (N - 1) < S k)%nat as Hlt
        by (rewrite Ek; unfold cell_index; nia).
      destruct (lookup_lt_is_Some_2 (run_cout (run (S k))) (cell_index N (a + 1) (N - 1)))
        as [cj Hcj].
      { rewrite (length_cout ops NelderMead tab tabAmplitude N brdf ltc0
                   length_tab length_tabAmplitude) by lia. exact Hlt. }
      destruct (table_holds ops NelderMead tab tabAmplitude N brdf ltc0
                  length_tab length_tabAmplitude (S k) ltac:(lia) _ _ _ cj Hj Hcj)
        as [T _].
      rewrite Eco in Hcj.
      destruct (table_holds ops NelderMead tab' tabAmplitude' N brdf ltc0'
                  length_tab' length_tabAmplitude' (S k) ltac:(lia) _ _ _ cj Hj Hcj)
        as [T' _].
      unfold tab_get. rewrite T, T'. reflexivity. }
  rewrite <- Eg in B7, B8, B9.
  assert (run_lobe (run (S k)) = run_lobe (run' (S k))) as El by congruence.
  split; [exact El|].
  rewrite Ec, Ec', Eco. do 2 f_equal.
  apply CellLog_eq; congruence.
Qed.

(** Every index of the table is the index of a cell. *)
Lemma index_is_cell (i : nat) :
  (0 <= N)%Z -> (i < Z.to_nat (N * N))%nat ->
  exists a t : Z, (0 <= a < N)%Z /\ (0 <= t < N)%Z /\ i = Z.to_nat (a + t * N).
Proof.
  intros HN Hi. assert (0 < N)%Z as HN' by nia.
  exists (Z.of_nat i mod N)%Z, (Z.of_nat i / N)%Z.
  pose proof (Z.div_mod (Z.of_nat i) N ltac:(lia)) as E.
  pose proof (Z.mod_pos_bound (Z.of_nat i) N HN') as Hm.
  assert (0 <= Z.of_nat i / N < N)%Z as Hq.
  { split; [apply Z.div_pos; lia|]. apply Z.div_lt_upper_bound; nia. }
  split; [exact Hm|]. split; [exact Hq|]. nia.
Qed.

Lemma kill_useless_sparse (m : mat3) : sparse (kill_useless m).
Proof. repeat split. Qed.

(** Every matrix of the table [fitTab] leaves has the four entries
    cleared. *)
Lemma stored_cells_sparse (i : nat) (m : mat3) :
  (0 <= N)%Z ->
  run_tab (fitTab ops NelderMead tab tabAmplitude N brdf ltc0) !! i = Some m ->
  sparse m.
Proof.
  intros HN Hm. rewrite fitTab_all_cells in Hm.
  set (K := length (cells N)) in *.
  destruct (length_run ops NelderMead tab tabAmplitude N brdf ltc0 K) as [L1 _].
  assert (i < Z.to_nat (N * N))%nat as Hi
    by (apply lookup_lt_Some in Hm; lia).
  destruct (index_is_cell i HN Hi) as (a & t & Ha & Ht & ->).
  pose proof (lookup_cells N a t Ha Ht) as Hj.
  pose proof (cell_index_lt N a t Ha Ht) as Hlt. fold K in Hlt.
  destruct (lookup_lt_is_Some_2 (run_cout (run K)) (cell_index N a t)) as [c Hc].
  { rewrite (length_cout ops NelderMead tab tabAmplitude N brdf ltc0
               length_tab length_tabAmplitude) by (unfold K; lia). exact Hlt. }
  destruct (table_holds ops NelderMead tab tabAmplitude N brdf ltc0
              length_tab length_tabAmplitude K ltac:(unfold K; lia) _ _ _ c Hj Hc)
    as [T _].
  rewrite T in Hm. injection Hm as <-.
  destruct (cell_entry ops NelderMead tab tabAmplitude N brdf ltc0
              length_tab length_tabAmplitude a t Ha Ht)
    as (c' & Hc' & _ & _ & _ & _ & _ & _ & _ & _ & _ & _ & _ & Es).
  rewrite fitTab_all_cells in Hc'. fold K in Hc'. rewrite Hc in Hc'. injection Hc' as <-.
  rewrite Es. apply kill_useless_sparse.
Qed.

(** The tables two runs leave do not depend on what the arrays and the lobe
    held before. *)
Lemma tables_agree :
  (0 <= N)%Z ->
  run_tab (fitTab ops NelderMead tab tabAmplitude N brdf ltc0) =
    run_tab (fitTab ops NelderMead tab' tabAmplitude' N brdf ltc0') /\
  run_tabAmplitude (fitTab ops NelderMead tab tabAmplitude N brdf ltc0) =
    run_tabAmplitude (fitTab ops NelderMead tab' tabAmplitude' N brdf ltc0').
Proof.
  intros HN. rewrite !fitTab_all_cells.
  set (K := length (cells N)).
  destruct (length_run ops NelderMead tab tabAmplitude N brdf ltc0 K) as [L1 L2].
  destruct (length_run ops NelderMead tab' tabAmplitude' N brdf ltc0' K) as [L1' L2'].
  assert (forall i : nat,
    run_tab (run K) !! i = run_tab (run' K) !! i /\
    run_tabAmplitude (run K) !! i = run_tabAmplitude (run' K) !! i) as E.
  { intros i. destruct (Nat.lt_ge_cases i (Z.to_nat (N * N))) as [Hi|Hi].
    - destruct (index_is_cell i HN Hi) as (a & t & Ha & Ht & ->).
      pose proof (lookup_cells N a t Ha Ht) as Hj.
      pose proof (cell_index_lt N a t Ha Ht) as Hlt. fold K in Hlt.
      destruct (runs_agree K ltac:(lia)) as [_ Eco].
      destruct (lookup_lt_is_Some_2 (run_cout (run K)) (cell_index N a t)) as [c Hc].
      { rewrite (length_cout ops NelderMead tab tabAmplitude N brdf ltc0
                   length_tab length_tabAmplitude) by (unfold K; lia). exact Hlt. }
      destruct (table_holds ops NelderMead tab tabAmplitude N brdf ltc0
                  length_tab length_tabAmplitude K ltac:(unfold K; lia) _ _ _ c Hj Hc)
        as [T A].
      rewrite Eco in Hc.
      destruct (table_holds ops NelderMead tab' tabAmplitude' N brdf ltc0'
                  length_tab' length_tabAmplitude' K ltac:(unfold K; lia) _ _ _ c Hj Hc)
        as [T' A'].
      rewrite T, T', A, A'. split; reflexivity.
    - rewrite !lookup_ge_None_2 by lia. split; reflexivity. }
  split; apply list_eq; intros i; apply E.
Qed.
End Memory.

(** C8: two runs of [fitTab] with the same [N] and the same sample count, on
    reflectance models that sample alike at the cell centres
    [((i+0.5)/Nsample, (j+0.5)/Nsample)] of the stratified grid and evaluate
    alike, leave the same matrices and the same amplitudes, entry for entry,
    whatever the arrays and the lobe held before; and they print the same. *)
Theorem fitTab_deterministic (tab tab' : list mat3) (tabAmplitude tabAmplitude' : list vec2)
    (N : Z) (brdf brdf' : Brdf) (ltc0 ltc0' : LTC Cache) :
  (0 <= N)%Z ->
  length tab = Z.to_nat (N * N) -> length tab' = Z.to_nat (N * N) ->
  length tabAmplitude = Z.to_nat (N * N) -> length tabAmplitude' = Z.to_nat (N * N) ->
  same_on_grid brdf brdf' ->
  run_tab (fitTab ops NelderMead tab tabAmplitude N brdf ltc0) =
    run_tab (fitTab ops NelderMead tab' tabAmplitude' N brdf' ltc0') /\
  run_tabAmplitude (fitTab ops NelderMead tab tabAmplitude N brdf ltc0) =
    run_tabAmplitude (fitTab ops NelderMead tab' tabAmplitude' N brdf' ltc0') /\
  run_cout (fitTab ops NelderMead tab tabAmplitude N brdf ltc0) =
    run_cout (fitTab ops NelderMead tab' tabAmplitude' N brdf' ltc0').
Proof.
  intros HN L1 L1' L2 L2' Hsame.
  rewrite <- (fitTab_same brdf brdf' Hsame tab' tabAmplitude' N ltc0').
  destruct (tables_agree tab tab' tabAmplitude tabAmplitude' N brdf ltc0 ltc0'
              L1 L1' L2 L2' HN) as [E1 E2].
  split; [exact E1|]. split; [exact E2|].
  rewrite !fitTab_all_cells.
  destruct (Nat.eq_dec (length (cells N)) 0%nat) as [E0|E0].
  - rewrite E0. reflexivity.
  - apply (runs_agree tab tab' tabAmplitude tabAmplitude' N brdf ltc0 ltc0'
             L1 L1' L2 L2'). lia.
Qed.
End Determinism.

(** ** The table [fitTab] leaves *)

(** Every index below [N*N] is the index [a + t*N] of a cell of the grid. *)
Lemma table_index_cell (N : Z) (i : nat) :
  (0 <= N)%Z -> (i < Z.to_nat (N * N))%nat ->
  exists a t : Z, (0 <= a < N)%Z /\ (0 <= t < N)%Z /\ i = Z.to_nat (a + t * N).
Proof.
  intros HN Hi. assert (0 < N)%Z as HN' by nia.
  exists (Z.of_nat i mod N)%Z, (Z.of_nat i / N)%Z.
  pose proof (Z.div_mod (Z.of_nat i) N ltac:(lia)) as E.
  pose proof (Z.mod_pos_bound (Z.of_nat i) N HN') as Hm.
  assert (0 <= Z.of_nat i / N < N)%Z as Hq.
  { split; [apply Z.div_pos; lia|]. apply Z.div_lt_upper_bound; nia. }
  split; [exact Hm|]. split; [exact Hq|]. nia.
Qed.

(** The cells [fitTab] visits are all different. *)
Lemma NoDup_cells (N : Z) : NoDup (cells N).
Proof.
  apply NoDup_alt. intros i j [a t] Hi Hj.
  apply cells_lookup_inv in Hi, Hj. destruct Hi as (_ & _ & ->), Hj as (_ & _ & ->).
  reflexivity.
Qed.

(** The cells visited are those of the grid. *)
Lemma In_cells (N a t : Z) :
  In (a, t) (cells N) <-> (0 <= a < N)%Z /\ (0 <= t < N)%Z.
Proof.
  split.
  - intros Hin. apply list_elem_of_In, list_elem_of_lookup in Hin.
    destruct Hin as [k Hk]. apply cells_lookup_inv in Hk. split; apply Hk.
  - intros [Ha Ht]. apply list_elem_of_In, list_elem_of_lookup.
    exists (cell_index N a t). apply lookup_cells; assumption.
Qed.

Lemma cell_index_order (N a t a' t' : Z) :
  (0 <= a < N)%Z -> (0 <= t < N)%Z -> (0 <= a' < N)%Z -> (0 <= t' < N)%Z ->
  (cell_index N a t < cell_index N a' t')%nat <-> (a' < a \/ a' = a /\ t' < t)%Z.
Proof.
  intros Ha Ht Ha' Ht'. unfold cell_index. split; intros Hlt; nia.
Qed.

Section Table.
Context `{Scalar}.
Context {Cache : Type}.
Variable ops : LobeOps Cache.
Variable NelderMead : Optimizer.
Variable tab : list mat3.
Variable tabAmplitude : list vec2.
Variable N : Z.
Variable brdf : Brdf.
Variable ltc0 : LTC Cache.
Hypothesis length_tab : length tab = Z.to_nat (N * N).
Hypothesis length_tabAmplitude : length tabAmplitude = Z.to_nat (N * N).
Local Open Scope fl_scope.

Local Abbreviation final := (fitTab ops NelderMead tab tabAmplitude N brdf ltc0).

(** What the tables hold for a cell when [fitTab] returns: what was stored
    when the cell was visited. *)
Lemma final_table (a t : Z) (c : CellLog Cache) :
  (0 <= a < N)%Z -> (0 <= t < N)%Z ->
  run_cout final !! cell_index N a t = Some c ->
  run_tab final !! Z.to_nat (a + t * N) = Some (log_stored c) /\
  run_tabAmplitude final !! Z.to_nat (a + t * N) =
    Some (mkvec2 (amplitude (log_fit c)) (of_int 0)).
Proof.
  intros Ha Ht Hc. rewrite fitTab_all_cells in *.
  apply (table_holds ops NelderMead tab tabAmplitude N brdf ltc0
           length_tab length_tabAmplitude (length (cells N)) ltac:(lia)
           (cell_index N a t) a t c).
  - apply lookup_cells; assumption.
  - exact Hc.
Qed.

(** The frame of the fitted lobe of a cell: the identity in the column
    [t = N-1], the frame around the average direction elsewhere. *)
Lemma fitted_frame (a t : Z) (c : CellLog Cache) :
  (0 <= a < N)%Z -> (0 <= t < N)%Z ->
  run_cout final !! cell_index N a t = Some c ->
  (t = N - 1 -> identity_frame (log_fit c))%Z /\
  (t < N - 1 ->
   frame_around (computeAverageDir brdf (cell_V N t) (cell_alpha N a)) (log_fit c))%Z.
Proof.
  intros Ha Ht Hc.
  destruct (cell_fit ops NelderMead tab tabAmplitude N brdf ltc0
              length_tab length_tabAmplitude a t c Ha Ht Hc)
    as (_ & _ & (FX & FY & FZ) & _).
  destruct (cell_entry ops NelderMead tab tabAmplitude N brdf ltc0
              length_tab length_tabAmplitude a t Ha Ht)
    as (c' & Hc' & _ & _ & _ & _ & _ & _ & Ed & _).
  rewrite Hc in Hc'. injection Hc' as <-.
  split.
  - intros ->.
    destruct (grazing_guess ops NelderMead tab tabAmplitude N brdf ltc0
                length_tab length_tabAmplitude a c Ha Hc) as (_ & (GX & GY & GZ) & _).
    repeat split; congruence.
  - intros Hlt.
    destruct (interior_guess ops NelderMead tab tabAmplitude N brdf ltc0
                length_tab length_tabAmplitude a t c Ha ltac:(lia) Hc)
      as (_ & (GX & GY & GZ) & _).
    rewrite Ed in GX, GZ. repeat split; congruence.
Qed.

(** X1: when [fitTab] returns, the entry [a + t*N] of [tab] is the matrix of
    the lobe as the cell [(a, t)] was fitted, with the four entries [0][1],
    [1][0], [2][1], [1][2] cleared, and the entry of [tabAmplitude] is
    [(computeNorm(brdf, V, alpha), 0)]: no later cell has overwritten them.
    That matrix is the one [update()] makes of the fitted scalars and of the
    frame of the cell: the identity for [t = N-1], the frame around the
    average direction otherwise.  The arrays keep their lengths. *)
Theorem fitTab_fills_table (a t : Z) :
  (0 <= a < N)%Z -> (0 <= t < N)%Z ->
  exists c : CellLog Cache,
    run_cout final !! cell_index N a t = Some c /\
    run_tab final !! Z.to_nat (a + t * N) = Some (kill_useless (ltcM (log_fit c))) /\
    run_tabAmplitude final !! Z.to_nat (a + t * N) =
      Some (mkvec2 (computeNorm brdf (cell_V N t) (cell_alpha N a)) (of_int 0)) /\
    ltcM (log_fit c) =
      lobe_matrix ops (m11 (log_fit c)) (m22 (log_fit c)) (m13 (log_fit c))
        (ltcX (log_fit c)) (ltcY (log_fit c)) (ltcZ (log_fit c)) /\
    (t = N - 1 -> identity_frame (log_fit c))%Z /\
    (t < N - 1 ->
     frame_around (computeAverageDir brdf (cell_V N t) (cell_alpha N a)) (log_fit c))%Z /\
    length (run_tab final) = length tab /\
    length (run_tabAmplitude final) = length tabAmplitude.
Proof.
  intros Ha Ht.
  destruct (cell_entry ops NelderMead tab tabAmplitude N brdf ltc0
              length_tab length_tabAmplitude a t Ha Ht)
    as (c & Hc & _ & _ & _ & _ & _ & _ & _ & _ & _ & _ & _ & Es).
  destruct (final_table a t c Ha Ht Hc) as [T A].
  destruct (cell_fit ops NelderMead tab tabAmplitude N brdf ltc0
              length_tab length_tabAmplitude a t c Ha Ht Hc)
    as (Ga & Fa & _ & _ & Hup & _).
  destruct (fitted_frame a t c Ha Ht Hc) as [F1 F2].
  exists c. split; [exact Hc|]. split; [rewrite T, Es; reflexivity|].
  split; [rewrite A, Fa, Ga; reflexivity|].
  split; [apply up_to_date_matrix; exact Hup|].
  split; [exact F1|]. split; [exact F2|].
  rewrite fitTab_all_cells.
  apply (length_run ops NelderMead tab tabAmplitude N brdf ltc0).
Qed.

(** Every matrix and every amplitude [fitTab] leaves is one it stored. *)
Lemma stored_entries (i : nat) :
  (0 <= N)%Z -> (i < Z.to_nat (N * N))%nat ->
  exists c : CellLog Cache,
    run_tab final !! i = Some (kill_useless (ltcM (log_fit c))) /\
    run_tabAmplitude final !! i = Some (mkvec2 (amplitude (log_fit c)) (of_int 0)).
Proof.
  intros HN Hi.
  destruct (table_index_cell N i HN Hi) as (a & t & Ha & Ht & ->).
  destruct (cell_entry ops NelderMead tab tabAmplitude N brdf ltc0
              length_tab length_tabAmplitude a t Ha Ht)
    as (c & Hc & _ & _ & _ & _ & _ & _ & _ & _ & _ & _ & _ & Es).
  destruct (final_table a t c Ha Ht Hc) as [T A].
  exists c. rewrite T, A, Es. split; reflexivity.
Qed.

(** X2: when [fitTab] returns, on a grid with [N >= 0], each of the [N*N]
    matrices of [tab] has the four entries [0][1], [1][0], [2][1], [1][2]
    equal to zero, and each of the [N*N] elements of [tabAmplitude] has a
    zero second component, whatever the two arrays held before: every
    element has been written. *)
Theorem fitTab_table_pattern (i : nat) :
  (0 <= N)%Z -> (i < Z.to_nat (N * N))%nat ->
  exists (m : mat3) (v : vec2),
    run_tab final !! i = Some m /\ run_tabAmplitude final !! i = Some v /\
    mget m 0 1 = of_int 0 /\ mget m 1 0 = of_int 0 /\
    mget m 2 1 = of_int 0 /\ mget m 1 2 = of_int 0 /\
    v2y v = of_int 0.
Proof.
  intros HN Hi.
  destruct (stored_entries i HN Hi) as (c & T & A).
  eexists _, _. split; [exact T|]. split; [exact A|].
  repeat split.
Qed.

(** The lines of the output are those of the cells, in the order of the
    cells. *)
Lemma cout_cells :
  map (fun c => (log_a c, log_t c)) (run_cout final) = cells N.
Proof.
  apply list_eq. intros k. rewrite list_lookup_fmap.
  destruct (cells N !! k) as [[a t]|] eqn:Hk.
  - destruct (cells_lookup_inv N k a t Hk) as (Ha & Ht & ->).
    destruct (cell_entry ops NelderMead tab tabAmplitude N brdf ltc0
                length_tab length_tabAmplitude a t Ha Ht)
      as (c & Hc & _ & E1 & E2 & _).
    rewrite Hc. cbn. rewrite E1, E2. reflexivity.
  - apply lookup_ge_None in Hk. rewrite lookup_ge_None_2; [reflexivity|].
    rewrite (length_final_cout ops NelderMead tab tabAmplitude N brdf ltc0
               length_tab length_tabAmplitude). exact Hk.
Qed.

(** X3: [fitTab] visits every cell of the grid exactly once, and prints one
    line for each, in this order: the cell [(a, t)] comes before the cell
    [(a', t')] exactly when [a > a'], or [a = a'] and [t > t'] (roughness
    from the roughest down, and for each roughness the angle index from
    [N-1] down).  With [N <= 0] no cell is visited. *)
Theorem fitTab_visits_each_cell_once :
  map (fun c => (log_a c, log_t c)) (run_cout final) = cells N /\
  NoDup (cells N) /\
  length (run_cout final) = (Z.to_nat N * Z.to_nat N)%nat /\
  (forall a t : Z, In (a, t) (cells N) <-> (0 <= a < N)%Z /\ (0 <= t < N)%Z) /\
  forall a t a' t' : Z,
    (0 <= a < N)%Z -> (0 <= t < N)%Z -> (0 <= a' < N)%Z -> (0 <= t' < N)%Z ->
    cells N !! cell_index N a t = Some (a, t) /\
    ((cell_index N a t < cell_index N a' t')%nat <-> (a' < a \/ a' = a /\ t' < t)%Z).
Proof.
  split; [exact cout_cells|]. split; [apply NoDup_cells|]. split.
  { rewrite (length_final_cout ops NelderMead tab tabAmplitude N brdf ltc0
               length_tab length_tabAmplitude). apply length_cells. }
  split; [intros a t; apply In_cells|].
  intros a t a' t' Ha Ht Ha' Ht'. split; [apply lookup_cells; assumption|].
  apply cell_index_order; assumption.
Qed.
End Table.

(** ** More on the objective and [fit] *)

Section Objective.
Context `{Scalar}.
Context {Cache : Type}.
Variable ops : LobeOps Cache.
Variable NelderMead : Optimizer.
Local Open Scope fl_scope.

(** The lobe [FitLTC::update] leaves, from the lobe it finds. *)
Lemma FitLTC_update_ltc (fitter : FitLTC) (p : float3) (s : Lobe Cache) :
  ltc (FitLTC_update ops fitter p s) =
  recompute ops
    (set_m13 (if isotropic fitter then of_int 0 else at2 p)
       (set_m22 (if isotropic fitter then fmax (at0 p) MIN_ALPHA
                 else fmax (at1 p) MIN_ALPHA)
          (set_m11 (fmax (at0 p) MIN_ALPHA) (ltc s)))).
Proof. unfold FitLTC_update. destruct (isotropic fitter); reflexivity. Qed.

(** [update()] after the three scalars are set reads the amplitude and the
    frame of the lobe, and nothing else of it. *)
Lemma recompute_set_scalars (a b c : F) (l l' : LTC Cache) :
  amplitude l = amplitude l' -> same_frame l l' ->
  recompute ops (set_m13 c (set_m22 b (set_m11 a l))) =
  recompute ops (set_m13 c (set_m22 b (set_m11 a l'))).
Proof.
  intros Ea (EX & EY & EZ). unfold recompute, set_m13, set_m22, set_m11. cbn.
  rewrite Ea, EX, EY, EZ. reflexivity.
Qed.

(** Every evaluation of the objective keeps the amplitude and the frame. *)
Lemma NM_run_keeps_frame (fitter : FitLTC) (nm : NM) (s : Lobe Cache) :
  amplitude (ltc (snd (NM_run nm (FitLTC_call ops fitter) s))) = amplitude (ltc s) /\
  same_frame (ltc (snd (NM_run nm (FitLTC_call ops fitter) s))) (ltc s).
Proof.
  apply (NM_run_invariant (fun _ => True)
           (fun s1 : Lobe Cache =>
              amplitude (ltc s1) = amplitude (ltc s) /\ same_frame (ltc s1) (ltc s))).
  - intros p s1 _ (Ea & EX & EY & EZ). unfold FitLTC_call. cbn [snd].
    destruct (FitLTC_update_spec ops fitter p s1) as (Fa & (FX & FY & FZ) & _).
    split; [congruence|]. repeat split; congruence.
  - apply NM_all_True.
  - repeat split.
Qed.

(** X4: the lobe [fit] leaves is the lobe it was given with the three
    scalars replaced and [update()] applied: [m11] is the first parameter
    returned by the optimizer, floored at [MIN_ALPHA]; in the isotropic case
    [m22] is that same value and [m13] is 0, otherwise [m22] is the floored
    second parameter and [m13] the third.  The amplitude and the frame are
    those on entry: of all the evaluations the optimizer made, only the
    point it returned leaves a trace in the lobe. *)
Theorem fit_result (s : Lobe Cache) (brdf : Brdf) (V : vec3) (alpha epsilon : F)
    (iso : bool) :
  let startFit := mkfloat3 (m11 (ltc s)) (m22 (ltc s)) (m13 (ltc s)) in
  let resultFit :=
    fst (fst (NM_run (NelderMead startFit epsilon (flit 1 100000) 100)
                (FitLTC_call ops (mkFitLTC brdf iso V alpha)) s)) in
  ltc (fit ops NelderMead s brdf V alpha epsilon iso) =
  recompute ops
    (set_m13 (if iso then of_int 0 else at2 resultFit)
       (set_m22 (if iso then fmax (at0 resultFit) MIN_ALPHA
                 else fmax (at1 resultFit) MIN_ALPHA)
          (set_m11 (fmax (at0 resultFit) MIN_ALPHA) (ltc s)))).
Proof.
  intros startFit resultFit. subst resultFit. unfold fit. fold startFit.
  destruct (NM_run_keeps_frame (mkFitLTC brdf iso V alpha)
              (NelderMead startFit epsilon (flit 1 100000) 100) s) as [Ea Ef].
  destruct (NM_run _ _ s) as [[p e] s1]. cbn [fst snd] in *.
  rewrite FitLTC_update_ltc. cbn [isotropic].
  apply recompute_set_scalars; assumption.
Qed.

(** The calls of [update()] an optimizer run makes: each leaves the
    amplitude and the frame alone. *)
Lemma NM_run_updates (fitter : FitLTC) (nm : NM) (s : Lobe Cache) :
  let G := fun l : LTC Cache =>
    amplitude l = amplitude (ltc s) /\ same_frame l (ltc s) /\ up_to_date ops l /\
    (isotropic fitter = true -> isotropic_lobe l) in
  let s1 := snd (NM_run nm (FitLTC_call ops fitter) s) in
  amplitude (ltc s1) = amplitude (ltc s) /\ same_frame (ltc s1) (ltc s) /\
  exists news, updates s1 = updates s ++ news /\ Forall G news.
Proof.
  intros G s1. subst s1.
  apply (NM_run_invariant (fun _ => True)
           (fun s1 : Lobe Cache =>
              amplitude (ltc s1) = amplitude (ltc s) /\ same_frame (ltc s1) (ltc s) /\
              exists news, updates s1 = updates s ++ news /\ Forall G news)).
  - intros p s1 _ (Ea & (EX & EY & EZ) & news & Eu & Hn). unfold FitLTC_call. cbn [snd].
    destruct (FitLTC_update_spec ops fitter p s1)
      as (Fa & (FX & FY & FZ) & F11 & F22 & F13 & Fup & Fu).
    assert (amplitude (ltc (FitLTC_update ops fitter p s1)) = amplitude (ltc s)) as Ga
      by congruence.
    assert (same_frame (ltc (FitLTC_update ops fitter p s1)) (ltc s)) as Gf
      by (repeat split; congruence).
    split; [exact Ga|]. split; [exact Gf|].
    exists (news ++ [ltc (FitLTC_update ops fitter p s1)]). split.
    + rewrite Fu, Eu, app_assoc. reflexivity.
    + apply Forall_app. split; [exact Hn|]. constructor; [|constructor].
      split; [exact Ga|]. split; [exact Gf|]. split; [exact Fup|].
      intros Hi. rewrite Hi in F22, F13. split; congruence.
  - apply NM_all_True.
  - split; [reflexivity|]. split; [repeat split|]. exists []. split; [|constructor].
    rewrite app_nil_r. reflexivity.
Qed.

(** X17: [fit] changes nothing of the lobe but the three scalars and what
    [update()] derives from them.  It calls [update()] at least once; every
    call leaves the amplitude and the frame the lobe had on entry, a matrix
    that is up to date and, when the fit is isotropic, [m22 = m11] and
    [m13 = 0]; the last of these lobes is the one [fit] leaves. *)
Theorem fit_changes_only_scalars (s : Lobe Cache) (brdf : Brdf) (V : vec3)
    (alpha epsilon : F) (iso : bool) :
  let s' := fit ops NelderMead s brdf V alpha epsilon iso in
  exists news : list (LTC Cache),
    updates s' = updates s ++ news ++ [ltc s'] /\
    Forall (fun l => amplitude l = amplitude (ltc s) /\ same_frame l (ltc s) /\
                     up_to_date ops l /\ (iso = true -> isotropic_lobe l))
      (news ++ [ltc s']).
Proof.
  intros s'. subst s'. unfold fit.
  set (fitter := mkFitLTC brdf iso V alpha).
  set (nm := NelderMead _ _ _ _).
  destruct (NM_run_updates fitter nm s) as (Ea & (EX & EY & EZ) & news & Eu & Hn).
  destruct (NM_run nm (FitLTC_call ops fitter) s) as [[p e] s1]. cbn [fst snd] in *.
  destruct (FitLTC_update_spec ops fitter p s1)
    as (Fa & (FX & FY & FZ) & F11 & F22 & F13 & Fup & Fu).
  exists news. split.
  - rewrite Fu, Eu, app_assoc. reflexivity.
  - apply Forall_app. split; [exact Hn|]. constructor; [|constructor].
    split; [congruence|]. split; [repeat split; congruence|]. split; [exact Fup|].
    intros Hi. subst fitter. cbn [isotropic] in F22, F13. rewrite Hi in F22, F13.
    split; congruence.
Qed.

(** One evaluation of the objective, from two lobes with the same amplitude
    and the same frame, at two points with the same effect. *)
Lemma FitLTC_call_agree (fitter : FitLTC) (p p' : float3) (s s' : Lobe Cache) :
  amplitude (ltc s) = amplitude (ltc s') -> same_frame (ltc s) (ltc s') ->
  fmax (at0 p) MIN_ALPHA = fmax (at0 p') MIN_ALPHA ->
  (isotropic fitter = false ->
   fmax (at1 p) MIN_ALPHA = fmax (at1 p') MIN_ALPHA /\ at2 p = at2 p') ->
  ltc (FitLTC_update ops fitter p s) = ltc (FitLTC_update ops fitter p' s').
Proof.
  intros Ea Ef E0 E12. rewrite !FitLTC_update_ltc, E0.
  destruct (isotropic fitter).
  - apply recompute_set_scalars; assumption.
  - destruct (E12 eq_refl) as [E1 E2]. rewrite E1, E2.
    apply recompute_set_scalars; assumption.
Qed.

(** X5: the value of the objective [FitLTC::operator()] depends on the lobe
    it works on through the amplitude and the frame alone, and on the
    parameters through their floored values: two calls on lobes with the
    same amplitude and frame, at points [p] and [p'] with
    [max(p[0], MIN_ALPHA) = max(p'[0], MIN_ALPHA)] and, unless the fit is
    isotropic, [max(p[1], MIN_ALPHA) = max(p'[1], MIN_ALPHA)] and
    [p[2] = p'[2]], return the same error and leave the same lobe.  So an
    isotropic fit ignores the second and third parameter, the error is flat
    below the floor, and what the optimizer returns does not depend on the
    scalars and the matrix the lobe held before its first evaluation. *)
Theorem objective_is_a_function (fitter : FitLTC) (s s' : Lobe Cache) :
  amplitude (ltc s) = amplitude (ltc s') -> same_frame (ltc s) (ltc s') ->
  (forall p p' : float3,
     fmax (at0 p) MIN_ALPHA = fmax (at0 p') MIN_ALPHA ->
     (isotropic fitter = false ->
      fmax (at1 p) MIN_ALPHA = fmax (at1 p') MIN_ALPHA /\ at2 p = at2 p') ->
     fst (FitLTC_call ops fitter p s) = fst (FitLTC_call ops fitter p' s') /\
     ltc (snd (FitLTC_call ops fitter p s)) = ltc (snd (FitLTC_call ops fitter p' s'))) /\
  forall nm : NM,
    fst (NM_run nm (FitLTC_call ops fitter) s) =
    fst (NM_run nm (FitLTC_call ops fitter) s').
Proof.
  intros Ea Ef. split.
  - intros p p' E0 E12. unfold FitLTC_call. cbn [fst snd].
    rewrite (FitLTC_call_agree fitter p p' s s' Ea Ef E0 E12). split; reflexivity.
  - intros nm. revert s s' Ea Ef.
    induction nm as [p e|p k IH]; intros s s' Ea Ef; [reflexivity|].
    cbn [NM_run]. unfold FitLTC_call.
    assert (ltc (FitLTC_update ops fitter p s) = ltc (FitLTC_update ops fitter p s')) as E.
    { apply FitLTC_call_agree; [assumption|assumption|reflexivity|].
      intros _. split; reflexivity. }
    rewrite E. apply IH; rewrite E; [reflexivity|repeat split].
Qed.
End Objective.

(** ** More on [packTab], and [main] *)

Lemma for_each_ext_in {S : Type} (l : list Z) (f g : Z -> S -> S) (s : S) :
  (forall i, In i l -> forall s, f i s = g i s) -> for_each l f s = for_each l g s.
Proof.
  revert s. induction l as [|i l IH]; intros s E; [reflexivity|].
  rewrite !for_each_cons, (E i (or_introl eq_refl)).
  apply IH. intros k Hk. apply E. right. exact Hk.
Qed.

Section PackingFrame.
Context `{Scalar}.
Local Open Scope fl_scope.

Lemma length_packTab_loop (tab : list mat3) (tabAmplitude : list vec2) (l : list Z) :
  forall tex : list vec4 * list vec2,
  length (fst (for_each l (packTab_cell tab tabAmplitude) tex)) = length (fst tex) /\
  length (snd (for_each l (packTab_cell tab tabAmplitude) tex)) = length (snd tex).
Proof.
  induction l as [|k l IH]; intros tex; [split; reflexivity|].
  rewrite for_each_cons.
  destruct (IH (packTab_cell tab tabAmplitude k tex)) as [E1 E2].
  destruct (length_packTab_cell tab tabAmplitude k tex) as [F1 F2].
  split; congruence.
Qed.

(** The loop of [packTab] leaves alone the texels whose index it does not
    take. *)
Lemma packTab_loop_outside (tab : list mat3) (tabAmplitude : list vec2) (l : list Z)
    (i : nat) :
  forall tex : list vec4 * list vec2,
  (forall k, In k l -> Z.to_nat k <> i) ->
  fst (for_each l (packTab_cell tab tabAmplitude) tex) !! i = fst tex !! i /\
  snd (for_each l (packTab_cell tab tabAmplitude) tex) !! i = snd tex !! i.
Proof.
  induction l as [|k l IH]; intros tex Hl; [split; reflexivity|].
  rewrite for_each_cons.
  destruct (IH (packTab_cell tab tabAmplitude k tex)) as [E1 E2].
  { intros k' Hk'. apply Hl. right. exact Hk'. }
  rewrite E1, E2. unfold packTab_cell. cbn [fst snd].
  rewrite !list_lookup_insert_ne by (apply Hl; left; reflexivity).
  split; reflexivity.
Qed.

(** The texels of an index below [N*N]. *)
Lemma packTab_texel (tex1 : list vec4) (tex2 : list vec2) (tab : list mat3)
    (tabAmplitude : list vec2) (N : Z) (i : nat) :
  (i < Z.to_nat (N * N))%nat -> (i < length tex1)%nat -> (i < length tex2)%nat ->
  fst (packTab tex1 tex2 tab tabAmplitude N) !! i =
    Some (fst (inverse_terms (tab_get tab (Z.of_nat i)))) /\
  snd (packTab tex1 tex2 tab tabAmplitude N) !! i =
    Some (mkvec2 (snd (inverse_terms (tab_get tab (Z.of_nat i))))
            (v2x (amp_get tabAmplitude (Z.of_nat i)))).
Proof.
  intros Hi L1 L2.
  destruct (packTab_loop_lookup tab tabAmplitude (range (N * N)) (Z.of_nat i) (tex1, tex2))
    as [E1 E2].
  - apply range_nonneg.
  - lia.
  - cbn [fst]. rewrite Nat2Z.id. exact L1.
  - cbn [snd]. rewrite Nat2Z.id. exact L2.
  - left. apply In_range. lia.
  - rewrite Nat2Z.id in E1, E2. split; assumption.
Qed.

(** X6: on arrays of at least [N*N] elements, with [N*N] fitting an [int],
    [packTab] keeps the lengths of the two textures, leaves every texel of
    index [N*N] or more as it was, and writes every texel of index
    [i < N*N]: [tex1[i]] becomes [(c*e, -b*c, a*e - b*d, -c*d)] and [tex2[i]]
    becomes [(a*c, tabAmplitude[i].x)], for [a], [b], [c], [d], [e] the
    entries [0][0], [0][2], [1][1], [2][0], [2][2] of [tab[i]], whatever the
    other entries of the matrix are. *)
Theorem packTab_writes_first_texels (tex1 : list vec4) (tex2 : list vec2)
    (tab : list mat3) (tabAmplitude : list vec2) (N : Z) :
  (N * N < 2 ^ 31)%Z ->
  (Z.to_nat (N * N) <= length tex1)%nat -> (Z.to_nat (N * N) <= length tex2)%nat ->
  (Z.to_nat (N * N) <= length tab)%nat ->
  (Z.to_nat (N * N) <= length tabAmplitude)%nat ->
  let tex := packTab tex1 tex2 tab tabAmplitude N in
  length (fst tex) = length tex1 /\ length (snd tex) = length tex2 /\
  (forall i : nat, (Z.to_nat (N * N) <= i)%nat ->
     fst tex !! i = tex1 !! i /\ snd tex !! i = tex2 !! i) /\
  (forall i : nat, (i < Z.to_nat (N * N))%nat ->
     exists (m : mat3) (v : vec2),
       tab !! i = Some m /\ tabAmplitude !! i = Some v /\
       fst tex !! i =
         Some (mkvec4 (mget m 1 1 * mget m 2 2) (- mget m 0 2 * mget m 1 1)
                 (mget m 0 0 * mget m 2 2 - mget m 0 2 * mget m 2 0)
                 (- mget m 1 1 * mget m 2 0)) /\
       snd tex !! i = Some (mkvec2 (mget m 0 0 * mget m 1 1) (v2x v))).
Proof.
  intros _ T1 T2 L1 L2 tex. subst tex. unfold packTab at 1 2.
  destruct (length_packTab_loop tab tabAmplitude (range (N * N)) (tex1, tex2)) as [K1 K2].
  split; [exact K1|]. split; [exact K2|]. split.
  - intros i Hi. apply (packTab_loop_outside tab tabAmplitude (range (N * N)) i (tex1, tex2)).
    intros k Hk. apply In_range in Hk. lia.
  - intros i Hi.
    destruct (lookup_lt_is_Some_2 tab i) as [m Hm]; [lia|].
    destruct (lookup_lt_is_Some_2 tabAmplitude i) as [v Hv]; [lia|].
    destruct (packTab_texel tex1 tex2 tab tabAmplitude N i Hi) as [E1 E2]; [lia|lia|].
    unfold tab_get, amp_get in E1, E2. rewrite Nat2Z.id in E1, E2.
    rewrite Hm in E1, E2. rewrite Hv in E2. cbn [default] in E1, E2.
    exists m, v. split; [exact Hm|]. split; [exact Hv|]. split; [exact E1|exact E2].
Qed.

(** X7: [packTab] reads of each matrix the five entries [0][0], [0][2],
    [1][1], [2][0], [2][2], and of each amplitude the first component: two
    tables that agree on these for every index below [N*N] are packed into
    the same textures. *)
Theorem packTab_reads_five_entries (tex1 : list vec4) (tex2 : list vec2)
    (tab tab' : list mat3) (tabAmplitude tabAmplitude' : list vec2) (N : Z) :
  (forall i : Z, (0 <= i < N * N)%Z ->
     mget (tab_get tab i) 0 0 = mget (tab_get tab' i) 0 0 /\
     mget (tab_get tab i) 0 2 = mget (tab_get tab' i) 0 2 /\
     mget (tab_get tab i) 1 1 = mget (tab_get tab' i) 1 1 /\
     mget (tab_get tab i) 2 0 = mget (tab_get tab' i) 2 0 /\
     mget (tab_get tab i) 2 2 = mget (tab_get tab' i) 2 2 /\
     v2x (amp_get tabAmplitude i) = v2x (amp_get tabAmplitude' i)) ->
  packTab tex1 tex2 tab tabAmplitude N = packTab tex1 tex2 tab' tabAmplitude' N.
Proof.
  intros E. unfold packTab. apply for_each_ext_in. intros i Hi tex.
  apply In_range in Hi. destruct (E i Hi) as (Ea & Eb & Ec & Ed & Ee & Ex).
  unfold packTab_cell. rewrite Ea, Eb, Ec, Ed, Ee, Ex. reflexivity.
Qed.

(** The textures do not depend on what they held, when they have [N*N]
    texels. *)
Lemma packTab_fresh (tex1 tex1' : list vec4) (tex2 tex2' : list vec2)
    (tab : list mat3) (tabAmplitude : list vec2) (N : Z) :
  length tex1 = Z.to_nat (N * N) -> length tex1' = Z.to_nat (N * N) ->
  length tex2 = Z.to_nat (N * N) -> length tex2' = Z.to_nat (N * N) ->
  packTab tex1 tex2 tab tabAmplitude N = packTab tex1' tex2' tab tabAmplitude N.
Proof.
  intros L1 L1' L2 L2'.
  destruct (length_packTab_loop tab tabAmplitude (range (N * N)) (tex1, tex2)) as [K1 K2].
  destruct (length_packTab_loop tab tabAmplitude (range (N * N)) (tex1', tex2')) as [K1' K2'].
  cbn [fst snd] in K1, K2, K1', K2'.
  assert (forall i : nat,
    fst (packTab tex1 tex2 tab tabAmplitude N) !! i =
      fst (packTab tex1' tex2' tab tabAmplitude N) !! i /\
    snd (packTab tex1 tex2 tab tabAmplitude N) !! i =
      snd (packTab tex1' tex2' tab tabAmplitude N) !! i) as E.
  { intros i. destruct (Nat.lt_ge_cases i (Z.to_nat (N * N))) as [Hi|Hi].
    - destruct (packTab_texel tex1 tex2 tab tabAmplitude N i Hi) as [E1 E2];
        [rewrite L1; exact Hi|rewrite L2; exact Hi|].
      destruct (packTab_texel tex1' tex2' tab tabAmplitude N i Hi) as [E1' E2'];
        [rewrite L1'; exact Hi|rewrite L2'; exact Hi|].
      rewrite E1, E2, E1', E2'. split; reflexivity.
    - unfold packTab. rewrite !lookup_ge_None_2; [split; reflexivity| | | |]; lia. }
  destruct (packTab tex1 tex2 tab tabAmplitude N) as [t1 t2].
  destruct (packTab tex1' tex2' tab tabAmplitude N) as [t1' t2'].
  cbn [fst snd] in E. f_equal; apply list_eq; intros i; apply E.
Qed.
End PackingFrame.

Section Main.
Context `{Scalar}.
Context {Cache : Type}.
Variable ops : LobeOps Cache.
Variable NelderMead : Optimizer.
Variable brdf : Brdf.
Local Open Scope fl_scope.

(** The table fitted, then packed: every texel is made of the fitted lobe of
    its cell. *)
Lemma fit_then_pack (N : Z) (ltc0 : LTC Cache) (tab : list mat3)
    (tabAmplitude : list vec2) (tex1 : list vec4) (tex2 : list vec2) (i : nat) :
  (0 <= N)%Z ->
  length tab = Z.to_nat (N * N) -> length tabAmplitude = Z.to_nat (N * N) ->
  length tex1 = Z.to_nat (N * N) -> length tex2 = Z.to_nat (N * N) ->
  (i < Z.to_nat (N * N))%nat ->
  let r := fitTab ops NelderMead tab tabAmplitude N brdf ltc0 in
  let tex := packTab tex1 tex2 (run_tab r) (run_tabAmplitude r) N in
  exists c : CellLog Cache,
    In c (run_cout r) /\
    run_tab r !! i = Some (kill_useless (ltcM (log_fit c))) /\
    run_tabAmplitude r !! i = Some (mkvec2 (amplitude (log_fit c)) (of_int 0)) /\
    fst tex !! i = Some (fst (inverse_terms (ltcM (log_fit c)))) /\
    snd tex !! i =
      Some (mkvec2 (snd (inverse_terms (ltcM (log_fit c)))) (amplitude (log_fit c))).
Proof.
  intros HN L1 L2 T1 T2 Hi r tex. subst tex r.
  destruct (table_index_cell N i HN Hi) as (a & t & Ha & Ht & Ei).
  destruct (cell_entry ops NelderMead tab tabAmplitude N brdf ltc0 L1 L2 a t Ha Ht)
    as (c & Hc & _ & _ & _ & _ & _ & _ & _ & _ & _ & _ & _ & Es).
  destruct (final_table ops NelderMead tab tabAmplitude N brdf ltc0 L1 L2 a t c
              Ha Ht Hc) as [HT HA].
  rewrite <- Ei in HT, HA. rewrite Es in HT.
  destruct (packTab_texel tex1 tex2
              (run_tab (fitTab ops NelderMead tab tabAmplitude N brdf ltc0))
              (run_tabAmplitude (fitTab ops NelderMead tab tabAmplitude N brdf ltc0))
              N i Hi) as [P1 P2]; [rewrite T1; exact Hi|rewrite T2; exact Hi|].
  exists c. split.
  { apply list_elem_of_In, list_elem_of_lookup. eexists. exact Hc. }
  split; [exact HT|]. split; [exact HA|].
  unfold tab_get, amp_get in P1, P2. rewrite Nat2Z.id in P1, P2.
  rewrite HT in P1, P2. rewrite HA in P2. cbn [default] in P1, P2.
  split; [exact P1|exact P2].
Qed.

(** The table fitted, then packed, from two states of the memory. *)
Lemma fit_then_pack_fresh (N : Z) (ltc0 ltc0' : LTC Cache) (tab tab' : list mat3)
    (tabAmplitude tabAmplitude' : list vec2) (tex1 tex1' : list vec4)
    (tex2 tex2' : list vec2) :
  (0 < N)%Z ->
  length tab = Z.to_nat (N * N) -> length tab' = Z.to_nat (N * N) ->
  length tabAmplitude = Z.to_nat (N * N) -> length tabAmplitude' = Z.to_nat (N * N) ->
  length tex1 = Z.to_nat (N * N) -> length tex1' = Z.to_nat (N * N) ->
  length tex2 = Z.to_nat (N * N) -> length tex2' = Z.to_nat (N * N) ->
  let r := fitTab ops NelderMead tab tabAmplitude N brdf ltc0 in
  let r' := fitTab ops NelderMead tab' tabAmplitude' N brdf ltc0' in
  run_tab r = run_tab r' /\ run_tabAmplitude r = run_tabAmplitude r' /\
  run_cout r = run_cout r' /\
  packTab tex1 tex2 (run_tab r) (run_tabAmplitude r) N =
    packTab tex1' tex2' (run_tab r') (run_tabAmplitude r') N.
Proof.
  intros HN L1 L1' L2 L2' T1 T1' T2 T2' r r'. subst r r'.
  destruct (tables_agree ops NelderMead tab tab' tabAmplitude tabAmplitude' N brdf
              ltc0 ltc0' L1 L1' L2 L2' ltac:(lia)) as [Et Ea].
  split; [exact Et|]. split; [exact Ea|]. split.
  - rewrite !fitTab_all_cells.
    apply (runs_agree ops NelderMead tab tab' tabAmplitude tabAmplitude' N brdf
             ltc0 ltc0' L1 L1' L2 L2').
    rewrite length_cells. nia.
  - rewrite <- Et, <- Ea. apply packTab_fresh; assumption.
Qed.

(** X8: what [main] hands to the writers.  The exit status is 0.  The two
    tables, the output and the two textures do not depend on what the four
    arrays of [64*64] elements and the lobe held when they were created;
    [fitTab] prints [64*64] lines.  For every index [i < 64*64] there is a
    fitted lobe of the traversal such that [tab[i]] is its matrix [M] with
    four entries cleared, [tabAmplitude[i]] is [(amplitude, 0)], [tex1[i]]
    holds the four terms [(c*e, -b*c, a*e - b*d, -c*d)] of [M] and [tex2[i]]
    is [(a*c, amplitude)]. *)
Theorem main_output (ltc0 ltc0' : LTC Cache) (tab tab' : list mat3)
    (tabAmplitude tabAmplitude' : list vec2) (tex1 tex1' : list vec4)
    (tex2 tex2' : list vec2) :
  length tab = Z.to_nat (N_table * N_table) ->
  length tab' = Z.to_nat (N_table * N_table) ->
  length tabAmplitude = Z.to_nat (N_table * N_table) ->
  length tabAmplitude' = Z.to_nat (N_table * N_table) ->
  length tex1 = Z.to_nat (N_table * N_table) ->
  length tex1' = Z.to_nat (N_table * N_table) ->
  length tex2 = Z.to_nat (N_table * N_table) ->
  length tex2' = Z.to_nat (N_table * N_table) ->
  let out := main ops NelderMead brdf ltc0 tab tabAmplitude tex1 tex2 in
  let out' := main ops NelderMead brdf ltc0' tab' tabAmplitude' tex1' tex2' in
  let r := fst (fst out) in
  let tex := snd (fst out) in
  N_table = 64%Z /\
  snd out = 0%Z /\
  run_tab r = run_tab (fst (fst out')) /\
  run_tabAmplitude r = run_tabAmplitude (fst (fst out')) /\
  run_cout r = run_cout (fst (fst out')) /\
  tex = snd (fst out') /\
  length (run_cout r) = Z.to_nat (N_table * N_table) /\
  forall i : nat, (i < Z.to_nat (N_table * N_table))%nat ->
    exists c : CellLog Cache,
      In c (run_cout r) /\
      run_tab r !! i = Some (kill_useless (ltcM (log_fit c))) /\
      run_tabAmplitude r !! i = Some (mkvec2 (amplitude (log_fit c)) (of_int 0)) /\
      fst tex !! i = Some (fst (inverse_terms (ltcM (log_fit c)))) /\
      snd tex !! i =
        Some (mkvec2 (snd (inverse_terms (ltcM (log_fit c)))) (amplitude (log_fit c))).
Proof.
  intros L1 L1' L2 L2' T1 T1' T2 T2' out out' r tex.
  assert (0 < N_table)%Z as HN by reflexivity.
  destruct (fit_then_pack_fresh N_table ltc0 ltc0' tab tab' tabAmplitude tabAmplitude'
              tex1 tex1' tex2 tex2' HN L1 L1' L2 L2' T1 T1' T2 T2')
    as (Et & Ea & Ec & Ep).
  split; [reflexivity|]. split; [reflexivity|].
  split; [exact Et|]. split; [exact Ea|]. split; [exact Ec|]. split; [exact Ep|].
  split.
  - exact (eq_trans
             (length_final_cout ops NelderMead tab tabAmplitude N_table brdf ltc0 L1 L2)
             (eq_trans (length_cells N_table) (eq_sym (Z2Nat.inj_mul N_table N_table
                ltac:(lia) ltac:(lia))))).
  - intros i Hi.
    exact (fit_then_pack N_table ltc0 tab tabAmplitude tex1 tex2 i ltac:(lia)
             L1 L2 T1 T2 Hi).
Qed.
End Main.

(** ** Edge cases in IEEE-754 arithmetic *)

Module IEEEEdges.
Import IEEE.

Lemma SFleb_SFltb_false (x y : spec_float) : SFleb y x = true -> SFltb x y = false.
Proof.
  unfold SFleb, SFltb. rewrite (IEEEFacts.SFcompare_antisym y x).
  destruct (SFcompare y x) as [[]|]; cbn; congruence.
Qed.

(** [x - x] is [+0] for every finite [x]. *)
Lemma SFsub_diag (prec emax : Z) (x : spec_float) :
  is_finite x = true -> SFsub prec emax x x = S754_zero false.
Proof.
  destruct x as [[]|[]| |s m e]; try discriminate; try reflexivity.
  intros _. unfold SFsub. rewrite Z.sub_diag. reflexivity.
Qed.

Lemma SFadd_zeros (prec emax : Z) (x : spec_float) :
  is_zero x = true -> SFadd prec emax (S754_zero false) x = S754_zero false.
Proof. destruct x as [[]| | |]; cbn; congruence. Qed.

(** A sum of zeros, started at [+0], is [+0]. *)
Lemma fold_SFadd_zeros (prec emax : Z) (l : list spec_float) :
  Forall (fun x => is_zero x = true) l ->
  fold_left (SFadd prec emax) l (S754_zero false) = S754_zero false.
Proof.
  induction 1 as [|x l Hx Hl IH]; cbn [fold_left]; [reflexivity|].
  rewrite SFadd_zeros by exact Hx. exact IH.
Qed.

(** [+0] over anything but a zero or a NaN is a zero. *)
Lemma SFdiv_zero_num (prec emax : Z) (y : spec_float) :
  is_zero y = false -> is_nan y = false ->
  is_zero (SFdiv prec emax (S754_zero false) y) = true.
Proof. destruct y; cbn; congruence. Qed.

Lemma is_nan_convert (prec emax : Z) (x : spec_float) :
  is_nan x = false -> is_nan (convert prec emax x) = false.
Proof.
  destruct x as [s|s| |s m e]; cbn [convert]; try (intros E; exact E).
  intros _. apply IEEEFacts.binary_normalize_not_nan.
Qed.

(** *** Signs *)

Lemma not_negative_round_aux (prec emax m e : Z) (l : location) :
  not_negative (binary_round_aux prec emax false m e l) = true.
Proof.
  unfold binary_round_aux.
  destruct (shr_fexp prec emax m e l) as [mrs' e'].
  destruct (shr_fexp prec emax _ e' loc_Exact) as [mrs'' e''].
  destruct (shr_m mrs'') as [|p|p]; [reflexivity| |reflexivity].
  destruct (e'' <=? emax - prec); reflexivity.
Qed.

Lemma not_negative_normalize (prec emax : Z) (m : positive) (e : Z) :
  not_negative (binary_normalize prec emax (Zpos m) e false) = true.
Proof.
  cbn [binary_normalize]. unfold binary_round.
  destruct (shl_align _ _ _) as [mz ez]. apply not_negative_round_aux.
Qed.

Lemma not_negative_convert (prec emax : Z) (x : spec_float) :
  not_negative x = true -> not_negative (convert prec emax x) = true.
Proof.
  destruct x as [s|s| |[] m e]; cbn [convert]; try (intros E; exact E);
    cbn [not_negative negb]; [discriminate|].
  intros _. apply not_negative_normalize.
Qed.

Lemma not_negative_SFabs (x : spec_float) : not_negative (SFabs x) = true.
Proof. destruct x; reflexivity. Qed.

Lemma not_negative_SFmul (prec emax : Z) (x y : spec_float) :
  not_negative x = true -> not_negative y = true ->
  not_negative (SFmul prec emax x y) = true.
Proof.
  destruct x as [[]|[]| |[] mx ex], y as [[]|[]| |[] my ey];
    cbn [not_negative negb]; try discriminate; intros _ _; try reflexivity.
  unfold SFmul. apply not_negative_round_aux.
Qed.

Lemma not_negative_SFdiv (prec emax : Z) (x y : spec_float) :
  not_negative x = true -> not_negative y = true ->
  not_negative (SFdiv prec emax x y) = true.
Proof.
  destruct x as [[]|[]| |[] mx ex], y as [[]|[]| |[] my ey];
    cbn [not_negative negb]; try discriminate; intros _ _; try reflexivity.
  unfold SFdiv. destruct (SFdiv_core_binary _ _ _ _ _ _) as [[mz ez] lz].
  apply not_negative_round_aux.
Qed.

Lemma not_negative_SFadd (prec emax : Z) (x y : spec_float) :
  not_negative x = true -> not_negative y = true ->
  not_negative (SFadd prec emax x y) = true.
Proof.
  destruct x as [[]|[]| |[] mx ex], y as [[]|[]| |[] my ey];
    cbn [not_negative negb]; try discriminate; intros _ _; try reflexivity.
  unfold SFadd. cbn [cond_Zopp].
  match goal with
  | |- context [(Zpos ?a + Zpos ?b)%Z] => change (Zpos a + Zpos b)%Z with (Zpos (a + b))
  end.
  apply not_negative_normalize.
Qed.

Lemma not_negative_fold_SFadd (prec emax : Z) (l : list spec_float) :
  Forall (fun x => not_negative x = true) l ->
  forall init, not_negative init = true ->
  not_negative (fold_left (SFadd prec emax) l init) = true.
Proof.
  induction 1 as [|x l Hx Hl IH]; intros init Hi; cbn [fold_left]; [exact Hi|].
  apply IH. apply not_negative_SFadd; assumption.
Qed.

(** What is not negative is not below zero. *)
Lemma not_negative_not_below (x : spec_float) :
  not_negative x = true -> SFltb x (S754_zero false) = false.
Proof. destruct x as [[]|[]| |[] m e]; cbn; congruence. Qed.

Section Float32.
Variable lm : libm.
#[local] Instance float32_arith : Scalar := binary32 lm.
Context {Cache : Type}.
Variable ops : LobeOps Cache.
Variable brdf : Brdf.

(** [std::max(x, MIN_ALPHA)] is [x] when [x] is at least [MIN_ALPHA]. *)
Lemma floor_keeps (x : f32) : fle MIN_ALPHA x -> fmax x MIN_ALPHA = x.
Proof.
  intros Hx. unfold fmax. cbn [fltb float32_arith binary32].
  rewrite (SFleb_SFltb_false x (@MIN_ALPHA float32_arith) Hx). reflexivity.
Qed.

(** X9: a lobe that is as [update()] leaves it, with both scales at least
    [MIN_ALPHA] (and, when the fit is isotropic, with equal scales and no
    skew), is left unchanged by [FitLTC::update] at its own scalars
    [{m11, m22, m13}], the point [fit] starts from; the objective there is
    the error of that lobe. *)
Theorem update_at_own_scalars (fitter : FitLTC) (s : Lobe Cache) :
  up_to_date ops (ltc s) -> scales_floored lm (ltc s) ->
  (isotropic fitter = true -> isotropic_lobe (ltc s)) ->
  let startFit := mkfloat3 (m11 (ltc s)) (m22 (ltc s)) (m13 (ltc s)) in
  ltc (FitLTC_update ops fitter startFit s) = ltc s /\
  fst (FitLTC_call ops fitter startFit s) =
    computeError ops (ltc s) (fit_brdf fitter) (fit_V fitter) (fit_alpha fitter).
Proof.
  intros Hup [H11 H22] Hiso startFit.
  assert (ltc (FitLTC_update ops fitter startFit s) = ltc s) as E.
  { rewrite FitLTC_update_ltc. subst startFit. cbn [at0 at1 at2].
    rewrite (floor_keeps (m11 (ltc s)) H11), (floor_keeps (m22 (ltc s)) H22).
    transitivity (recompute ops (ltc s)); [|exact Hup].
    f_equal. destruct (isotropic fitter).
    - destruct (Hiso eq_refl) as [E22 E13]. revert E22 E13.
      destruct (ltc s); cbn. intros -> ->. reflexivity.
    - destruct (ltc s); reflexivity. }
  split; [exact E|]. unfold FitLTC_call. cbn [fst]. rewrite E. reflexivity.
Qed.

(** X16: what the floor of [FitLTC::update] does to one parameter vector.
    [m11] is at least [MIN_ALPHA] when the first parameter is a number, and
    NaN when it is NaN ([std::max] lets a NaN through); so is [m22] for the
    second parameter, or for the first when the fit is isotropic.  The skew
    [m13] is the third parameter as it comes, or 0 when the fit is
    isotropic. *)
Theorem update_floor_or_nan (fitter : FitLTC) (p : float3) (s : Lobe Cache) :
  let l := ltc (FitLTC_update ops fitter p s) in
  let q := if isotropic fitter then at0 p else at1 p in
  (is_nan (at0 p) = false -> fle MIN_ALPHA (m11 l)) /\
  (is_nan (at0 p) = true -> is_nan (m11 l) = true) /\
  (is_nan q = false -> fle MIN_ALPHA (m22 l)) /\
  (is_nan q = true -> is_nan (m22 l) = true) /\
  m13 l = (if isotropic fitter then of_int 0 else at2 p).
Proof.
  intros l q.
  destruct (FitLTC_update_spec ops fitter p s) as (_ & _ & E11 & E22 & E13 & _).
  fold l in E11, E22, E13.
  assert (m22 l = fmax q MIN_ALPHA) as E22'.
  { rewrite E22. subst q. destruct (isotropic fitter); reflexivity. }
  assert (forall x : f32, is_nan x = true -> is_nan (fmax x MIN_ALPHA) = true) as Hnan.
  { intros x Hx. destruct x; try discriminate. reflexivity. }
  rewrite E11, E22', E13.
  split; [apply (IEEEFacts.floor_applies lm)|]. split; [apply Hnan|].
  split; [apply (IEEEFacts.floor_applies lm)|]. split; [apply Hnan|]. reflexivity.
Qed.

(** *** The estimators on a model without density *)

Lemma computeNorm_float (V : vec3) (alpha : f32) :
  computeNorm brdf V alpha =
  SFdiv prec32 emax32
    (fold_left (SFadd prec32 emax32) (map (norm_contribution brdf V alpha) stratified_grid)
       (S754_zero false))
    (f32_of_Z (Nsample * Nsample)).
Proof. rewrite computeNorm_sum. reflexivity. Qed.

Lemma norm_contribution_zero (V : vec3) (alpha : f32) (u : f32 * f32) :
  ~ flt (of_int 0) (pdf_brdf_at brdf V alpha (brdf_sample brdf V alpha (fst u) (snd u))) ->
  norm_contribution brdf V alpha u = S754_zero false /\
  dir_contribution brdf V alpha u = vec3_zero.
Proof.
  intros Hd. unfold norm_contribution, dir_contribution, flt, pdf_brdf_at in *.
  cbn [fltb float32_arith binary32].
  destruct (SFltb _ _); [contradiction Hd; reflexivity|]. split; reflexivity.
Qed.

Lemma vsum_zeros (l : list vec3) :
  Forall (fun v => v = vec3_zero) l -> vsum vec3_zero l = vec3_zero.
Proof.
  unfold vsum. induction 1 as [|v l Hv Hl IH]; cbn [fold_left]; [reflexivity|].
  rewrite Hv. exact IH.
Qed.

(** Without a strictly positive density on the grid, both sums stay zero. *)
Lemma sums_without_density (V : vec3) (alpha : f32) :
  (forall u : f32 * f32, In u stratified_grid ->
     ~ flt (of_int 0)
         (pdf_brdf_at brdf V alpha (brdf_sample brdf V alpha (fst u) (snd u)))) ->
  fold_left (SFadd prec32 emax32) (map (norm_contribution brdf V alpha) stratified_grid)
    (S754_zero false) = S754_zero false /\
  accumulateDir brdf V alpha = vec3_zero.
Proof.
  intros Hd. split.
  - apply fold_SFadd_zeros. apply Forall_map, List.Forall_forall. intros u Hu.
    destruct (norm_contribution_zero V alpha u (Hd u Hu)) as [-> _]. reflexivity.
  - rewrite accumulateDir_sum. apply vsum_zeros.
    apply Forall_map, List.Forall_forall. intros u Hu.
    apply (norm_contribution_zero V alpha u (Hd u Hu)).
Qed.

(** X10: when no sample of the stratified grid has a strictly positive
    density, [computeNorm] returns exactly [+0]: every sample is skipped. *)
Theorem computeNorm_without_density (V : vec3) (alpha : f32) :
  (forall u : f32 * f32, In u stratified_grid ->
     ~ flt (of_int 0)
         (pdf_brdf_at brdf V alpha (brdf_sample brdf V alpha (fst u) (snd u)))) ->
  computeNorm brdf V alpha = S754_zero false.
Proof.
  intros Hd. destruct (sums_without_density V alpha Hd) as [E _].
  rewrite computeNorm_float, E. reflexivity.
Qed.

(** X11: when no sample of the stratified grid has a strictly positive
    density, the sum of [computeAverageDir] is the zero vector and its
    normalization is [0 * (1/sqrt(0))]: the three components of the
    direction returned are NaN. *)
Theorem computeAverageDir_without_density (V : vec3) (alpha : f32) :
  (forall u : f32 * f32, In u stratified_grid ->
     ~ flt (of_int 0)
         (pdf_brdf_at brdf V alpha (brdf_sample brdf V alpha (fst u) (snd u)))) ->
  accumulateDir brdf V alpha = vec3_zero /\
  computeAverageDir brdf V alpha = mkvec3 S754_nan S754_nan S754_nan.
Proof.
  intros Hd. destruct (sums_without_density V alpha Hd) as [_ E].
  split; [exact E|]. unfold computeAverageDir. rewrite E. reflexivity.
Qed.

(** X12: the y component of the direction [computeAverageDir] returns is
    never a number other than zero: it is the cleared component times the
    normalization factor, so a zero, or NaN when that factor is infinite or
    NaN. *)
Theorem computeAverageDir_y (V : vec3) (alpha : f32) :
  let averageDir := computeAverageDir brdf V alpha in
  let factor :=
    SFdiv prec32 emax32 (f32_of_Z 1)
      (SFsqrt prec32 emax32
         (dot (vset (accumulateDir brdf V alpha) 1 (of_int 0))
              (vset (accumulateDir brdf V alpha) 1 (of_int 0)))) in
  vy averageDir = SFmul prec32 emax32 (S754_zero false) factor /\
  (is_finite factor = true -> is_zero (vy averageDir) = true) /\
  (is_finite factor = false -> is_nan (vy averageDir) = true).
Proof.
  intros averageDir factor.
  assert (vy averageDir = SFmul prec32 emax32 (S754_zero false) factor) as E by reflexivity.
  split; [exact E|]. rewrite E.
  split; destruct factor as [[]|[]| |[] m e]; cbn; congruence.
Qed.

(** *** The error *)

Lemma computeError_float32 (l : LTC Cache) (V : vec3) (alpha : f32) :
  computeError ops l brdf V alpha =
  SFdiv prec32 emax32
    (convert prec32 emax32
       (fold_left (SFadd prec64 emax64) (error_contributions ops l brdf V alpha)
          (S754_zero false)))
    (f32_of_Z (Nsample * Nsample)).
Proof. unfold computeError. rewrite accumulateError_sum. reflexivity. Qed.

Lemma mis_contribution_float32 (l : LTC Cache) (V : vec3) (alpha : f32) (L : vec3) :
  mis_contribution ops l brdf V alpha L =
  SFdiv prec64 emax64
    (SFmul prec64 emax64
       (SFmul prec64 emax64
          (convert prec64 emax64
             (SFabs (SFsub prec32 emax32 (fst (brdf_eval brdf V L alpha)) (ltc_eval ops l L))))
          (convert prec64 emax64
             (SFabs (SFsub prec32 emax32 (fst (brdf_eval brdf V L alpha)) (ltc_eval ops l L)))))
       (convert prec64 emax64
          (SFabs (SFsub prec32 emax32 (fst (brdf_eval brdf V L alpha)) (ltc_eval ops l L)))))
    (convert prec64 emax64
       (SFadd prec32 emax32 (pdf_ltc_at ops l L) (pdf_brdf_at brdf V alpha L))).
Proof. reflexivity. Qed.

(** A property of every contribution follows from the property at every
    drawn direction. *)
Lemma Forall_error_contributions (P : f64 -> Prop) (l : LTC Cache) (V : vec3)
    (alpha : f32) :
  (forall (u : f32 * f32) (L : vec3),
     In u stratified_grid -> In L (drawn_directions ops l brdf V alpha u) ->
     P (mis_contribution ops l brdf V alpha L)) ->
  Forall P (error_contributions ops l brdf V alpha).
Proof.
  intros HP. apply List.Forall_forall. intros x Hx.
  unfold error_contributions in Hx. apply in_flat_map in Hx.
  destruct Hx as (u & Hu & Hx). apply in_map_iff in Hx.
  destruct Hx as (L & <- & HL). apply (HP u L Hu HL).
Qed.

(** X13: when, at every direction drawn, the lobe evaluates to the same
    finite value as the model, and the sum of the two densities is a number
    that, as a [double], is not zero, [computeError] returns exactly [+0]. *)
Theorem computeError_of_perfect_fit (l : LTC Cache) (V : vec3) (alpha : f32) :
  (forall (u : f32 * f32) (L : vec3),
     In u stratified_grid -> In L (drawn_directions ops l brdf V alpha u) ->
     is_finite (ltc_eval ops l L) = true /\
     fst (brdf_eval brdf V L alpha) = ltc_eval ops l L /\
     is_nan (SFadd prec32 emax32 (pdf_ltc_at ops l L) (pdf_brdf_at brdf V alpha L)) = false /\
     is_zero (convert prec64 emax64
                (SFadd prec32 emax32 (pdf_ltc_at ops l L) (pdf_brdf_at brdf V alpha L)))
       = false) ->
  computeError ops l brdf V alpha = S754_zero false.
Proof.
  intros Hfit. rewrite computeError_float32.
  rewrite fold_SFadd_zeros; [reflexivity|].
  apply Forall_error_contributions. intros u L Hu HL.
  destruct (Hfit u L Hu HL) as (Hf & He & Hn & Hz).
  rewrite mis_contribution_float32, He, (SFsub_diag _ _ _ Hf).
  apply SFdiv_zero_num; [exact Hz|]. apply is_nan_convert. exact Hn.
Qed.

(** X14: when neither density is negative at any direction drawn (each is
    NaN or has its sign bit clear), no contribution to the error is
    negative and [computeError] is never below zero: it returns [+0], a
    positive number, [+inf] or NaN. *)
Theorem computeError_never_negative (l : LTC Cache) (V : vec3) (alpha : f32) :
  (forall (u : f32 * f32) (L : vec3),
     In u stratified_grid -> In L (drawn_directions ops l brdf V alpha u) ->
     not_negative (pdf_ltc_at ops l L) = true /\
     not_negative (pdf_brdf_at brdf V alpha L) = true) ->
  Forall (fun x => not_negative x = true) (error_contributions ops l brdf V alpha) /\
  not_negative (computeError ops l brdf V alpha) = true /\
  SFltb (computeError ops l brdf V alpha) (S754_zero false) = false.
Proof.
  intros Hd.
  assert (Forall (fun x => not_negative x = true) (error_contributions ops l brdf V alpha))
    as Hc.
  { apply Forall_error_contributions. intros u L Hu HL.
    destruct (Hd u L Hu HL) as [H1 H2].
    rewrite mis_contribution_float32.
    apply not_negative_SFdiv.
    - repeat apply not_negative_SFmul; apply not_negative_convert, not_negative_SFabs.
    - apply not_negative_convert, not_negative_SFadd; assumption. }
  assert (not_negative (computeError ops l brdf V alpha) = true) as Hn.
  { rewrite computeError_float32. apply not_negative_SFdiv; [|reflexivity].
    apply not_negative_convert, not_negative_fold_SFadd; [exact Hc|reflexivity]. }
  split; [exact Hc|]. split; [exact Hn|]. apply not_negative_not_below. exact Hn.
Qed.

(** *** The angle and the roughness of a cell *)

(** The smoothest bucket [a = 0] gets the floor itself. *)
Lemma smoothest_alpha (N : Z) :
  (2 <= N <= 2 ^ 24)%Z -> cell_alpha N 0 = MIN_ALPHA.
Proof.
  intros HN. unfold cell_alpha. cbn [fmul fdiv of_int float32_arith binary32].
  destruct (IEEEFacts.f32_of_small_pos (N - 1) ltac:(lia)) as (m & e & E).
  unfold f32_of_Z at 2 4. unfold prec32, emax32. rewrite E. reflexivity.
Qed.

Variable NelderMead : Optimizer.
Variable tab : list mat3.
Variable tabAmplitude : list vec2.
Variable N : Z.
Variable ltc0 : LTC Cache.

(** X15: on a grid of [2 <= N <= 2^24] cells a side, every cell is fitted
    with an angle [theta] of at most 1.57, whatever [acosf] returns, and
    with a roughness [alpha] of at least [MIN_ALPHA]; the cells of the
    smoothest bucket [a = 0] get [alpha = MIN_ALPHA] exactly; and the view
    direction has a zero y component. *)
Theorem cell_angle_and_roughness_range (a t : Z) :
  length tab = Z.to_nat (N * N) ->
  length tabAmplitude = Z.to_nat (N * N) ->
  (2 <= N <= 2 ^ 24)%Z -> (0 <= a < N)%Z -> (0 <= t < N)%Z ->
  exists c : CellLog Cache,
    run_cout (fitTab ops NelderMead tab tabAmplitude N brdf ltc0) !! cell_index N a t
      = Some c /\
    fle (log_theta c) (flit 157 100) /\
    fle MIN_ALPHA (log_alpha c) /\
    (a = 0%Z -> log_alpha c = MIN_ALPHA) /\
    vy (log_V c) = S754_zero false.
Proof.
  intros L1 L2 HN Ha Ht.
  destruct (cell_entry ops NelderMead tab tabAmplitude N brdf ltc0 L1 L2 a t Ha Ht)
    as (c & Hc & _ & _ & _ & Eal & Eth & EV & _).
  destruct (IEEEFacts.cell_bounds lm N a t HN) as [B1 B2].
  exists c. split; [exact Hc|]. rewrite Eal, Eth, EV.
  split; [exact B1|]. split; [exact B2|]. split; [|reflexivity].
  intros ->. apply smoothest_alpha. exact HN.
Qed.
(** X18: a cell [(a, t)] with [t < N-1] for which no sample of the model has
    a strictly positive density is fitted all the same: its amplitude is
    [+0], stored as [(+0, +0)], and the NaN average direction becomes the
    frame of the lobe, [Z = (NaN, NaN, NaN)], [X = (NaN, 0, NaN)],
    [Y = (0, 1, 0)]. *)
Theorem cell_without_density (a t : Z) :
  length tab = Z.to_nat (N * N) ->
  length tabAmplitude = Z.to_nat (N * N) ->
  (0 <= a < N)%Z -> (0 <= t < N - 1)%Z ->
  (forall u : f32 * f32, In u stratified_grid ->
     ~ flt (of_int 0)
         (pdf_brdf_at brdf (cell_V N t) (cell_alpha N a)
            (brdf_sample brdf (cell_V N t) (cell_alpha N a) (fst u) (snd u)))) ->
  exists c : CellLog Cache,
    run_cout (fitTab ops NelderMead tab tabAmplitude N brdf ltc0) !! cell_index N a t
      = Some c /\
    amplitude (log_fit c) = S754_zero false /\
    run_tabAmplitude (fitTab ops NelderMead tab tabAmplitude N brdf ltc0)
      !! Z.to_nat (a + t * N) = Some (mkvec2 (S754_zero false) (S754_zero false)) /\
    log_averageDir c = mkvec3 S754_nan S754_nan S754_nan /\
    ltcZ (log_fit c) = mkvec3 S754_nan S754_nan S754_nan /\
    ltcX (log_fit c) = mkvec3 S754_nan (S754_zero false) S754_nan /\
    ltcY (log_fit c) = mkvec3 (S754_zero false) (f32_of_Z 1) (S754_zero false).
Proof.
  intros L1 L2 Ha Ht Hd.
  destruct (sums_without_density _ _ Hd) as [En Ed].
  assert (computeNorm brdf (cell_V N t) (cell_alpha N a) = S754_zero false) as EN
    by (rewrite computeNorm_float, En; reflexivity).
  assert (computeAverageDir brdf (cell_V N t) (cell_alpha N a) =
          mkvec3 S754_nan S754_nan S754_nan) as ED
    by (unfold computeAverageDir; rewrite Ed; reflexivity).
  destruct (cell_entry ops NelderMead tab tabAmplitude N brdf ltc0 L1 L2 a t Ha
              ltac:(lia))
    as (c & Hc & _ & _ & _ & _ & _ & _ & Eav & _).
  destruct (cell_fit ops NelderMead tab tabAmplitude N brdf ltc0 L1 L2 a t c Ha
              ltac:(lia) Hc) as (Ga & Fa & _).
  destruct (final_table ops NelderMead tab tabAmplitude N brdf ltc0 L1 L2 a t c Ha
              ltac:(lia) Hc) as [_ HA].
  destruct (fitted_frame ops NelderMead tab tabAmplitude N brdf ltc0 L1 L2 a t c Ha
              ltac:(lia) Hc) as [_ Hf].
  destruct (Hf ltac:(lia)) as (FX & FY & FZ).
  assert (amplitude (log_fit c) = S754_zero false) as EA by congruence.
  exists c. split; [exact Hc|]. split; [exact EA|].
  split; [rewrite HA, EA; reflexivity|].
  split; [rewrite Eav; exact ED|].
  split; [rewrite FZ; exact ED|].
  split; [rewrite FX, ED; reflexivity|].
  rewrite FY. reflexivity.
Qed.
End Float32.
End IEEEEdges.

(** ** Examples *)

Module Examples.
Import IEEE.
Import Demo.

Lemma flat_ops_diagonal (a b : f32) : diagonal_scales flat_ops a b.
Proof. split; reflexivity. Qed.

(** With [one_probe], [fit] leaves the scales it started from, floored. *)
Lemma one_probe_fit (ops : LobeOps unit) (s : Lobe unit) (brdf : Brdf) (V : vec3)
    (alpha epsilon : f32) (iso : bool) :
  m11 (ltc (fit ops one_probe s brdf V alpha epsilon iso)) = fmax (m11 (ltc s)) MIN_ALPHA /\
  m22 (ltc (fit ops one_probe s brdf V alpha epsilon iso)) =
    (if iso then fmax (m11 (ltc s)) MIN_ALPHA else fmax (m22 (ltc s)) MIN_ALPHA).
Proof.
  unfold fit, one_probe. cbn [NM_run].
  destruct (FitLTC_call ops (mkFitLTC brdf iso V alpha) _ s) as [e s1].
  destruct (FitLTC_update_spec ops (mkFitLTC brdf iso V alpha)
              (mkfloat3 (m11 (ltc s)) (m22 (ltc s)) (m13 (ltc s))) s1)
    as (_ & _ & E11 & E22 & _).
  cbn [isotropic at0 at1] in E11, E22. split; assumption.
Qed.

(** The first cell of a 2 x 2 grid, fitted with [one_probe] on the lobe whose
    matrix is a product of floats: its scales are 1, and the product carries
    them on its diagonal. *)
Lemma product_first_cell (c' : CellLog unit) :
  run_cout (fitTab product_ops one_probe tab4 amp4 2 flat_brdf (unit_lobe (f32_of_Z 1)))
    !! 0%nat = Some c' ->
  m11 (log_fit c') = of_int 1 /\ m22 (log_fit c') = of_int 1 /\
  diagonal_scales product_ops (m11 (log_fit c')) (m22 (log_fit c')).
Proof.
  intros Hc'.
  destruct (cell_entry product_ops one_probe tab4 amp4 2 flat_brdf (unit_lobe (f32_of_Z 1))
              eq_refl eq_refl 1 1 ltac:(lia) ltac:(lia))
    as (c0 & Hc0 & _ & _ & _ & _ & _ & _ & _ & Eg & Ei & Er & Ef & _).
  change (cell_index 2 1 1) with 0%nat in *.
  rewrite Hc' in Hc0. injection Hc0 as <-.
  destruct (grazing_guess product_ops one_probe tab4 amp4 2 flat_brdf
              (unit_lobe (f32_of_Z 1)) eq_refl eq_refl 1 c' ltac:(lia) Hc')
    as (Hi & _ & _ & G4 & _).
  destruct (G4 eq_refl) as [G11 G22].
  set (g := first_guess _ _ _ _ _ _ _) in *.
  destruct (one_probe_fit product_ops (fst g) flat_brdf (@cell_V float_arith 2 1)
              (@cell_alpha float_arith 2 1) (@flit float_arith 5 100) (snd g))
    as [F11 F22].
  rewrite <- Er in F11, F22. rewrite <- Ef in F11, F22.
  rewrite <- Eg in F11, F22. rewrite <- Ei, Hi in F22.
  rewrite G11 in F11, F22.
  assert (m11 (log_fit c') = of_int 1) as E11 by exact F11.
  assert (m22 (log_fit c') = of_int 1) as E22 by exact F22.
  split; [exact E11|]. split; [exact E22|].
  rewrite E11, E22. split; reflexivity.
Qed.

(** C2, as stated, fails: for the constant model and the constant lobe every
    one of the 2048 contributions is 1, so their mean is 1, and
    [computeError] returns 2. *)
Lemma computeError_not_mean :
  computeError flat_ops (unit_lobe (f32_of_Z 2)) flat_brdf V_normal (f32_of_Z 1)
    = f32_of_Z 2 /\
  mean_contribution
    (error_contributions flat_ops (unit_lobe (f32_of_Z 2)) flat_brdf V_normal (f32_of_Z 1))
    = f32_of_Z 1 /\
  computeError flat_ops (unit_lobe (f32_of_Z 2)) flat_brdf V_normal (f32_of_Z 1)
  <> mean_contribution
       (error_contributions flat_ops (unit_lobe (f32_of_Z 2)) flat_brdf V_normal
          (f32_of_Z 1)).
Proof.
  split; [vm_compute; reflexivity|]. split; [vm_compute; reflexivity|].
  vm_compute. discriminate.
Qed.

(** C9, as stated, fails: on the one-cell grid [t/(N-1)] and [a/(N-1)] are
    [0/0], which is NaN, and the roughness [alpha] of the cell is NaN. *)
Lemma single_cell_roughness_nan :
  SFdiv prec32 emax32 (f32_of_Z 0) (f32_of_Z (1 - 1)) = S754_nan /\
  exists c : CellLog unit,
    run_cout (fitTab flat_ops one_probe tab1 amp1 1 flat_brdf (unit_lobe (f32_of_Z 1)))
      = [c] /\
    log_a c = 0%Z /\ log_t c = 0%Z /\ is_nan (log_alpha c) = true.
Proof.
  split; [reflexivity|].
  destruct (IEEEFacts.single_cell_line libm0 flat_ops one_probe tab1 amp1 flat_brdf
              (unit_lobe (f32_of_Z 1)) eq_refl eq_refl)
    as (c & Hc & Ea & Et & Hal & _).
  exists c. split; [exact Hc|]. split; [exact Ea|]. split; [exact Et|].
  exact (eq_trans (f_equal is_nan Hal) (IEEEFacts.single_cell_alpha libm0)).
Qed.

Lemma warm_start_witness :
  exists c c' : CellLog unit,
    run_cout (fitTab product_ops one_probe tab4 amp4 2 flat_brdf (unit_lobe (f32_of_Z 1)))
      !! 2%nat = Some c /\
    run_cout (fitTab product_ops one_probe tab4 amp4 2 flat_brdf (unit_lobe (f32_of_Z 1)))
      !! 0%nat = Some c' /\
    log_isotropic c = true /\
    diagonal_scales product_ops (m11 (log_fit c')) (m22 (log_fit c')) /\
    m11 (log_guess c) = fmax (mget (log_stored c') 0 0) MIN_ALPHA /\
    m11 (log_guess c) = mget (log_stored c') 0 0 /\
    m22 (log_guess c) = mget (log_stored c') 1 1 /\
    m11 (log_guess c) = m11 (log_fit c').
Proof.
  destruct (warm_start product_ops one_probe tab4 amp4 2 flat_brdf (unit_lobe (f32_of_Z 1))
              eq_refl eq_refl 0 1 ltac:(lia) ltac:(lia))
    as (c & Hc & _ & _ & Hg & _).
  destruct (Hg eq_refl) as (_ & Hi & _ & _ & Hs).
  destruct (Hs ltac:(lia)) as (c' & Hc' & _ & _ & _ & _ & F11 & _ & _ & _ & Hd).
  destruct (product_first_cell c' Hc') as (_ & _ & D).
  destruct (Hd D) as (E11 & E22 & S11 & _).
  exists c, c'. split; [exact Hc|]. split; [exact Hc'|]. split; [exact Hi|].
  split; [exact D|]. split; [exact F11|]. split; [exact E11|].
  split; [exact E22|exact S11].
Defined.

Lemma grazing_column_isotropic_witness :
  exists c : CellLog unit,
    run_cout (fitTab flat_ops one_probe tab4 amp4 2 flat_brdf (unit_lobe (f32_of_Z 1)))
      !! 2%nat = Some c /\
    m13 (log_fit c) = f32_of_Z 0 /\ m11 (log_fit c) = m22 (log_fit c).
Proof.
  destruct (grazing_column_isotropic flat_ops one_probe tab4 amp4 2 flat_brdf
              (unit_lobe (f32_of_Z 1)) eq_refl eq_refl 0 ltac:(lia))
    as (c & Hc & _ & _ & _ & E13 & E & _).
  exists c. repeat split; assumption.
Defined.



Lemma cell_view_and_roughness_witness :
  exists c : CellLog unit,
    run_cout (fitTab flat_ops one_probe tab4 amp4 2 flat_brdf (unit_lobe (f32_of_Z 1)))
      !! 3%nat = Some c /\
    log_theta c = flit 157 100 /\ log_alpha c = MIN_ALPHA.
Proof.
  destruct (cell_view_and_roughness flat_ops one_probe tab4 amp4 2 flat_brdf
              (unit_lobe (f32_of_Z 1)) eq_refl eq_refl 0 0 ltac:(lia) ltac:(lia))
    as (c & Hc & _ & _ & Eth & _ & Eal & _).
  exists c. split; [exact Hc|]. split; [rewrite Eth|rewrite Eal]; reflexivity.
Defined.

Lemma packTab_rescaled_inverse_witness :
  sparse sparse_example /\
  exists (t1 : @vec4 exactZ) (t2 : @vec2 exactZ),
    fst (packTab [vec4_zero] [vec2_zero] [sparse_example] [amplitude_example] 1)
      !! 0%nat = Some t1 /\
    snd (packTab [vec4_zero] [vec2_zero] [sparse_example] [amplitude_example] 1)
      !! 0%nat = Some t2 /\
    t1 = @mkvec4 exactZ 55 (-15) 1 (-35) /\ t2 = @mkvec2 exactZ 10 13 /\
    mat3_mul (reconstruct t1 t2) sparse_example = scalar_matrix (of_int 5) /\
    determinant sparse_example = of_int 5.
Proof.
  split; [repeat split|].
  destruct (packTab_rescaled_inverse (H := exactZ)
              [vec4_zero] [vec2_zero] [sparse_example] [amplitude_example] 1 0
              ltac:(lia) ltac:(lia) eq_refl eq_refl ltac:(repeat split))
    as (t1 & t2 & E1 & E2 & -> & Ex & Ey & Hring).
  destruct (Hring Zth) as (_ & Hmul & _).
  eexists _, t2. split; [exact E1|]. split; [exact E2|].
  split; [reflexivity|]. split; [destruct t2; cbn in Ex, Ey; subst; reflexivity|].
  split; [exact Hmul|reflexivity].
Defined.

(** C7, as stated, fails in the arithmetic [packTab] runs in: for the
    stored matrix [(0.3 0 0.1 / 0 0.7 0 / 0.2 0 0.9)] in [float], the matrix
    rebuilt from the five packed terms, multiplied by [m], has
    [11744051 * 2^-26] at [1][1], where [det m] is [11744052 * 2^-26]: the
    product is not [det m] times the identity. *)
Lemma packTab_float_rounds :
  sparse rounded_example /\
  exists (t1 : vec4) (t2 : vec2),
    fst (packTab [vec4_zero] [vec2_zero] [rounded_example]
           [mkvec2 (of_int 13) (of_int 0)] 1) !! 0%nat = Some t1 /\
    snd (packTab [vec4_zero] [vec2_zero] [rounded_example]
           [mkvec2 (of_int 13) (of_int 0)] 1) !! 0%nat = Some t2 /\
    mget (mat3_mul (reconstruct t1 t2) rounded_example) 1 1
      = S754_finite false 11744051 (-26) /\
    determinant rounded_example = S754_finite false 11744052 (-26) /\
    mat3_mul (reconstruct t1 t2) rounded_example
      <> scalar_matrix (determinant rounded_example).
Proof.
  split; [repeat split|].
  eexists _, _. split; [reflexivity|]. split; [reflexivity|].
  split; [vm_compute; reflexivity|]. split; [vm_compute; reflexivity|].
  intros E. apply (f_equal (fun m : mat3 => mget m 1 1)) in E.
  vm_compute in E. discriminate E.
Qed.

Lemma fitTab_deterministic_witness :
  same_on_grid flat_brdf flat_brdf /\
  run_tab (fitTab flat_ops one_probe tab4 amp4 2 flat_brdf (unit_lobe (f32_of_Z 1))) =
    run_tab (fitTab flat_ops one_probe tab4' amp4' 2 flat_brdf (unit_lobe (f32_of_Z 2))) /\
  run_tabAmplitude
    (fitTab flat_ops one_probe tab4 amp4 2 flat_brdf (unit_lobe (f32_of_Z 1))) =
    run_tabAmplitude
      (fitTab flat_ops one_probe tab4' amp4' 2 flat_brdf (unit_lobe (f32_of_Z 2))).
Proof.
  assert (same_on_grid flat_brdf flat_brdf) as Hs by (split; reflexivity).
  split; [exact Hs|].
  destruct (fitTab_deterministic flat_ops one_probe tab4 tab4' amp4 amp4' 2
              flat_brdf flat_brdf (unit_lobe (f32_of_Z 1)) (unit_lobe (f32_of_Z 2))
              ltac:(lia) eq_refl eq_refl eq_refl eq_refl Hs) as (E1 & E2 & _).
  split; assumption.
Defined.

Lemma single_cell_grid_witness :
  exists c : CellLog unit,
    run_cout (fitTab flat_ops one_probe tab1 amp1 1 flat_brdf (unit_lobe (f32_of_Z 1)))
      = [c] /\
    is_nan (log_alpha c) = true /\ log_theta c = flit 157 100.
Proof.
  destruct (IEEEFacts.single_cell_grid libm0 flat_ops one_probe tab1 amp1 flat_brdf
              (unit_lobe (f32_of_Z 1)) eq_refl eq_refl)
    as (c & Hc & _ & _ & _ & Hal & _ & Hth & _).
  exists c. split; [exact Hc|]. split; [exact Hal|]. apply Hth. reflexivity.
Defined.

Lemma computeError_needs_positive_density_witness :
  is_finite (computeError flat_ops (unit_lobe (f32_of_Z 2)) flat_brdf V_normal (f32_of_Z 1))
    = true /\
  (flt (f32_of_Z 0)
     (pdf_ltc_at flat_ops (unit_lobe (f32_of_Z 2))
        (ltc_sample flat_ops (unit_lobe (f32_of_Z 2))
           (fst (cell_center 0 0)) (snd (cell_center 0 0))))
   \/ flt (f32_of_Z 0)
        (pdf_brdf_at flat_brdf V_normal (f32_of_Z 1)
           (ltc_sample flat_ops (unit_lobe (f32_of_Z 2))
              (fst (cell_center 0 0)) (snd (cell_center 0 0))))).
Proof.
  assert (is_finite
            (computeError flat_ops (unit_lobe (f32_of_Z 2)) flat_brdf V_normal (f32_of_Z 1))
          = true) as Hf by (vm_compute; reflexivity).
  split; [exact Hf|].
  destruct (IEEEFacts.computeError_needs_positive_density libm0 flat_ops flat_brdf
              (unit_lobe (f32_of_Z 2)) V_normal (f32_of_Z 1) Hf) as [_ Hpos].
  apply (Hpos 0%Z 0%Z); [unfold Nsample; lia|unfold Nsample; lia|left; reflexivity| |];
    vm_compute; reflexivity.
Defined.

(** A NaN among the parameters passes the floor of [FitLTC::update]. *)
Lemma update_with_nan :
  m11 (ltc (FitLTC_update flat_ops (mkFitLTC flat_brdf false V_normal (f32_of_Z 1))
              (mkfloat3 S754_nan (f32_of_Z 1) (f32_of_Z 0))
              (mkLobe (unit_lobe (f32_of_Z 1)) [])))
  = S754_nan.
Proof. reflexivity. Qed.

(** [packTab] in [float]: on small integers nothing is rounded, and the
    packed terms are those of the integer example. *)
Lemma packTab_float :
  let tex :=
    packTab [vec4_zero] [vec2_zero]
      [mkmat3 (mkvec3 (f32_of_Z 2) (f32_of_Z 0) (f32_of_Z 3))
              (mkvec3 (f32_of_Z 0) (f32_of_Z 5) (f32_of_Z 0))
              (mkvec3 (f32_of_Z 7) (f32_of_Z 0) (f32_of_Z 11))]
      [mkvec2 (f32_of_Z 13) (f32_of_Z 0)] 1 in
  map (fun v => (v4x v, v4y v, v4z v, v4w v)) (fst tex)
    = [(f32_of_Z 55, f32_of_Z (-15), f32_of_Z 1, f32_of_Z (-35))] /\
  map (fun v => (v2x v, v2y v)) (snd tex) = [(f32_of_Z 10, f32_of_Z 13)].
Proof. split; vm_compute; reflexivity. Qed.

(** With both densities zero everywhere the error is [0/0]: not a number. *)
Lemma computeError_dark :
  computeError dark_ops (unit_lobe (f32_of_Z 1)) dark_brdf V_normal (f32_of_Z 1)
  = S754_nan.
Proof. vm_compute. reflexivity. Qed.
Lemma fitTab_fills_table_witness :
  exists c : CellLog unit,
    run_cout (fitTab flat_ops one_probe tab4 amp4 2 flat_brdf (unit_lobe (f32_of_Z 1)))
      !! 3%nat = Some c /\
    run_tab (fitTab flat_ops one_probe tab4 amp4 2 flat_brdf (unit_lobe (f32_of_Z 1)))
      !! 0%nat = Some (kill_useless (ltcM (log_fit c))) /\
    run_tabAmplitude (fitTab flat_ops one_probe tab4 amp4 2 flat_brdf (unit_lobe (f32_of_Z 1)))
      !! 0%nat = Some (mkvec2 (computeNorm flat_brdf (cell_V 2 0) (cell_alpha 2 0)) (of_int 0)).
Proof.
  destruct (fitTab_fills_table flat_ops one_probe tab4 amp4 2 flat_brdf
              (unit_lobe (f32_of_Z 1)) eq_refl eq_refl 0 0 ltac:(lia) ltac:(lia))
    as (c & Hc & T & A & _).
  exists c. split; [exact Hc|]. split; [exact T|exact A].
Defined.

Lemma fitTab_table_pattern_witness :
  exists (m : mat3) (v : vec2),
    run_tab (fitTab flat_ops one_probe tab4' amp4' 2 flat_brdf (unit_lobe (f32_of_Z 1)))
      !! 1%nat = Some m /\
    run_tabAmplitude
      (fitTab flat_ops one_probe tab4' amp4' 2 flat_brdf (unit_lobe (f32_of_Z 1)))
      !! 1%nat = Some v /\
    mget m 0 1 = f32_of_Z 0 /\ mget m 1 0 = f32_of_Z 0 /\ v2y v = f32_of_Z 0.
Proof.
  destruct (fitTab_table_pattern flat_ops one_probe tab4' amp4' 2 flat_brdf
              (unit_lobe (f32_of_Z 1)) eq_refl eq_refl 1 ltac:(lia) ltac:(cbn; lia))
    as (m & v & Hm & Hv & E01 & E10 & _ & _ & Ey).
  exists m, v. split; [exact Hm|]. split; [exact Hv|].
  split; [exact E01|]. split; [exact E10|exact Ey].
Defined.

Lemma fitTab_visits_each_cell_once_witness :
  map (fun c => (log_a c, log_t c))
    (run_cout (fitTab flat_ops one_probe tab4 amp4 2 flat_brdf (unit_lobe (f32_of_Z 1))))
  = [(1, 1); (1, 0); (0, 1); (0, 0)]%Z.
Proof.
  destruct (fitTab_visits_each_cell_once flat_ops one_probe tab4 amp4 2 flat_brdf
              (unit_lobe (f32_of_Z 1)) eq_refl eq_refl) as (E & _).
  exact E.
Defined.

Lemma objective_is_a_function_witness :
  m11 (set_m11 (of_int 3) (unit_lobe (f32_of_Z 1))) <> m11 (unit_lobe (f32_of_Z 1)) /\
  fst (NM_run (one_probe (mkfloat3 (of_int 2) (of_int 2) (of_int 0))
                 (flit 5 100) (flit 1 100000) 100)
         (FitLTC_call flat_ops (mkFitLTC flat_brdf false V_normal (f32_of_Z 1)))
         (mkLobe (unit_lobe (f32_of_Z 1)) [])) =
  fst (NM_run (one_probe (mkfloat3 (of_int 2) (of_int 2) (of_int 0))
                 (flit 5 100) (flit 1 100000) 100)
         (FitLTC_call flat_ops (mkFitLTC flat_brdf false V_normal (f32_of_Z 1)))
         (mkLobe (set_m11 (of_int 3) (unit_lobe (f32_of_Z 1))) [])).
Proof.
  split; [discriminate|].
  destruct (objective_is_a_function flat_ops
              (mkFitLTC flat_brdf false V_normal (f32_of_Z 1))
              (mkLobe (unit_lobe (f32_of_Z 1)) [])
              (mkLobe (set_m11 (of_int 3) (unit_lobe (f32_of_Z 1))) [])
              eq_refl ltac:(repeat split)) as [_ Hrun].
  apply Hrun.
Defined.

Lemma packTab_writes_first_texels_witness :
  let tex := packTab [vec4_zero; vec4_zero] [vec2_zero; vec2_zero]
               [sparse_example] [amplitude_example] 1 in
  fst tex !! 0%nat = Some (@mkvec4 exactZ 55 (-15) 1 (-35)) /\
  snd tex !! 0%nat = Some (@mkvec2 exactZ 10 13) /\
  fst tex !! 1%nat = Some vec4_zero /\ snd tex !! 1%nat = Some vec2_zero /\
  length (fst tex) = 2%nat /\ length (snd tex) = 2%nat.
Proof.
  destruct (packTab_writes_first_texels (H := exactZ)
              [vec4_zero; vec4_zero] [vec2_zero; vec2_zero]
              [sparse_example] [amplitude_example] 1
              ltac:(lia) ltac:(cbn; lia) ltac:(cbn; lia) ltac:(cbn; lia) ltac:(cbn; lia))
    as (L1 & L2 & Hout & Hin).
  destruct (Hin 0%nat ltac:(cbn; lia)) as (m & v & Hm & Hv & E1 & E2).
  injection Hm as <-. injection Hv as <-.
  destruct (Hout 1%nat ltac:(cbn; lia)) as [O1 O2].
  split; [exact E1|]. split; [exact E2|]. split; [exact O1|]. split; [exact O2|].
  split; [exact L1|exact L2].
Defined.

Lemma packTab_reads_five_entries_witness :
  mget dense_example 0 1 <> mget sparse_example 0 1 /\
  packTab [vec4_zero] [vec2_zero] [dense_example] [amplitude_example'] 1 =
  packTab [vec4_zero] [vec2_zero] [sparse_example] [amplitude_example] 1.
Proof.
  split; [discriminate|].
  apply (packTab_reads_five_entries (H := exactZ)).
  intros i Hi. assert (i = 0)%Z as -> by lia. repeat split.
Defined.

Lemma main_output_witness :
  let '(tab, tabAmplitude, tex1, tex2) := zeroed (Z.to_nat (N_table * N_table)) in
  let '(tab', tabAmplitude', tex1', tex2') := stale (Z.to_nat (N_table * N_table)) in
  snd (main flat_ops one_probe flat_brdf (unit_lobe (f32_of_Z 1))
         tab tabAmplitude tex1 tex2) = 0%Z /\
  snd (fst (main flat_ops one_probe flat_brdf (unit_lobe (f32_of_Z 1))
              tab tabAmplitude tex1 tex2)) =
  snd (fst (main flat_ops one_probe flat_brdf (unit_lobe (f32_of_Z 2))
              tab' tabAmplitude' tex1' tex2')).
Proof.
  unfold zeroed, stale.
  destruct (main_output flat_ops one_probe flat_brdf
              (unit_lobe (f32_of_Z 1)) (unit_lobe (f32_of_Z 2))
              (repeat mat3_zero (Z.to_nat (N_table * N_table)))
              (repeat (scalar_matrix (of_int 7)) (Z.to_nat (N_table * N_table)))
              (repeat vec2_zero (Z.to_nat (N_table * N_table)))
              (repeat (mkvec2 (of_int 3) (of_int 5)) (Z.to_nat (N_table * N_table)))
              (repeat vec4_zero (Z.to_nat (N_table * N_table)))
              (repeat (mkvec4 (of_int 1) (of_int 2) (of_int 3) (of_int 4))
                 (Z.to_nat (N_table * N_table)))
              (repeat vec2_zero (Z.to_nat (N_table * N_table)))
              (repeat (mkvec2 (of_int 6) (of_int 8)) (Z.to_nat (N_table * N_table)))
              (repeat_length _ _) (repeat_length _ _) (repeat_length _ _)
              (repeat_length _ _) (repeat_length _ _) (repeat_length _ _)
              (repeat_length _ _) (repeat_length _ _))
    as (_ & E0 & _ & _ & _ & Ep & _).
  split; [exact E0|exact Ep].
Defined.

Lemma update_at_own_scalars_witness :
  ltc (FitLTC_update flat_ops (mkFitLTC flat_brdf false V_normal (f32_of_Z 1))
         (mkfloat3 (of_int 1) (of_int 1) (of_int 0))
         (mkLobe (unit_lobe (f32_of_Z 1)) []))
  = unit_lobe (f32_of_Z 1).
Proof.
  exact (proj1 (IEEEEdges.update_at_own_scalars libm0 flat_ops
                  (mkFitLTC flat_brdf false V_normal (f32_of_Z 1))
                  (mkLobe (unit_lobe (f32_of_Z 1)) [])
                  eq_refl (conj eq_refl eq_refl)
                  (fun E : false = true => False_ind _ (diff_false_true E)))).
Defined.

Lemma dark_brdf_no_density (V : vec3) (alpha : f32) (u : f32 * f32) :
  ~ flt (of_int 0)
      (pdf_brdf_at dark_brdf V alpha (brdf_sample dark_brdf V alpha (fst u) (snd u))).
Proof. intros Hf. discriminate Hf. Qed.

Lemma computeNorm_without_density_witness :
  computeNorm dark_brdf V_normal (f32_of_Z 1) = S754_zero false.
Proof.
  apply (IEEEEdges.computeNorm_without_density libm0 dark_brdf).
  intros u _. apply dark_brdf_no_density.
Defined.

Lemma computeAverageDir_without_density_witness :
  computeAverageDir dark_brdf V_normal (f32_of_Z 1) = mkvec3 S754_nan S754_nan S754_nan.
Proof.
  apply (IEEEEdges.computeAverageDir_without_density libm0 dark_brdf).
  intros u _. apply dark_brdf_no_density.
Defined.

Lemma computeError_of_perfect_fit_witness :
  computeError flat_ops (unit_lobe (f32_of_Z 2)) matched_brdf V_normal (f32_of_Z 1)
  = S754_zero false.
Proof.
  apply (IEEEEdges.computeError_of_perfect_fit libm0 flat_ops matched_brdf).
  intros u L _ _. repeat split.
Defined.

Lemma computeError_never_negative_witness :
  SFltb (computeError flat_ops (unit_lobe (f32_of_Z 2)) flat_brdf V_normal (f32_of_Z 1))
    (S754_zero false) = false.
Proof.
  apply (IEEEEdges.computeError_never_negative libm0 flat_ops flat_brdf).
  intros u L _ _. split; reflexivity.
Defined.

Lemma cell_angle_and_roughness_range_witness :
  exists c : CellLog unit,
    run_cout (fitTab flat_ops one_probe tab4 amp4 2 flat_brdf (unit_lobe (f32_of_Z 1)))
      !! 3%nat = Some c /\
    fle (log_theta c) (flit 157 100) /\ log_alpha c = MIN_ALPHA.
Proof.
  destruct (IEEEEdges.cell_angle_and_roughness_range libm0 flat_ops flat_brdf one_probe
              tab4 amp4 2 (unit_lobe (f32_of_Z 1)) 0 0 eq_refl eq_refl
              ltac:(lia) ltac:(lia) ltac:(lia))
    as (c & Hc & Hth & _ & Hal & _).
  exists c. split; [exact Hc|]. split; [exact Hth|exact (Hal eq_refl)].
Defined.
Lemma cell_without_density_witness :
  exists c : CellLog unit,
    run_cout (fitTab flat_ops one_probe tab4 amp4 2 dark_brdf (unit_lobe (f32_of_Z 1)))
      !! 3%nat = Some c /\
    amplitude (log_fit c) = S754_zero false /\
    ltcZ (log_fit c) = mkvec3 S754_nan S754_nan S754_nan.
Proof.
  destruct (IEEEEdges.cell_without_density libm0 flat_ops dark_brdf one_probe
              tab4 amp4 2 (unit_lobe (f32_of_Z 1)) 0 0 eq_refl eq_refl
              ltac:(lia) ltac:(lia) (fun u _ => dark_brdf_no_density _ _ u))
    as (c & Hc & EA & _ & _ & EZ & _).
  exists c. split; [exact Hc|]. split; [exact EA|exact EZ].
Defined.
End Examples.
